(** * wave-js: a shallow embedding of [src/wave.ts]

    The RIFF/WAVE codec of wave-js, written as Rocq functions over an
    explicit store of [ArrayBuffer]s.

    Conventions of the embedding
    - a JavaScript [number] that the code uses as an integer is a [Z]; the
      conversions that [DataView.setUint16]/[setUint32] apply (ToUint16,
      ToUint32) are written out as [Z.land] with the mask;
    - an [ArrayBuffer] is an address in the [Heap]; its contents are a
      [list byte].  [DataView] and [Uint8Array] are records holding the
      address, a byte offset and a length, so that two views of one buffer
      alias, as they do in the source;
    - a JavaScript exception is the [Throw] outcome of a [Completion]; an
      effectful function has type [M A], a state-and-exception monad over
      the heap (a write done before a throw stays done);
    - a JavaScript [string] is the list of its UTF-16 code units;
    - a JavaScript [number] that is the result of a division is a [float],
      the binary64 numbers of the kernel;
    - the digits that a template literal gives a number
      ([Number::toString]) are a parameter of the function that builds
      the string.

    Left out: the [toString] methods (diagnostics). Nothing below depends
    on them. *)

From Stdlib Require Import ZArith Lia Floats.
From Stdlib.Strings Require Import Byte.
From stdpp Require Import base option list numbers gmap strings pretty.

Set Warnings "-register-all".

Local Open Scope Z_scope.

(** ** Exceptions and the monad *)

Inductive JsError : Type :=
| RangeError
| TypeError
| Error (msg : string).

Inductive Completion (A : Type) : Type :=
| Normal (a : A)
| Throw (e : JsError).
Arguments Normal {A} a.
Arguments Throw {A} e.

Definition cbind {A B} (c : Completion A) (f : A → Completion B) : Completion B :=
  match c with
  | Normal a => f a
  | Throw e => Throw e
  end.

(** The store: buffer number [b] is the [b]-th list. Buffers are never freed. *)
Abbreviation Heap := (list (list byte)).

Definition M (A : Type) : Type := Heap → Completion A * Heap.

Definition ret {A} (a : A) : M A := λ h, (Normal a, h).
Definition throw {A} (e : JsError) : M A := λ h, (Throw e, h).
Definition bind {A B} (m : M A) (f : A → M B) : M B :=
  λ h, match m h with
       | (Normal a, h') => f a h'
       | (Throw e, h') => (Throw e, h')
       end.
Definition liftC {A} (c : Completion A) : M A := λ h, (c, h).

Notation "'let*' x ':=' m 'in' k" := (bind m (λ x, k))
  (at level 10, x name, m at level 100, k at level 200).
Notation "m ';;;' k" := (bind m (λ _, k))
  (at level 100, k at level 200, right associativity).

(** ** Bytes and integers *)

#[global] Instance byte_eq_dec : EqDecision byte.
Proof.
  intros a b. destruct (Byte.eqb a b) eqn:E.
  - left. by apply Byte.byte_dec_bl.
  - right. intros ->. by rewrite Byte.byte_dec_lb in E.
Defined.

Definition byte_of_Z (v : Z) : byte :=
  default "000"%byte (Byte.of_N (Z.to_N (Z.land v 255))).
Definition Z_of_byte (b : byte) : Z := Z.of_N (Byte.to_N b).

(** Bytes of a 16/32-bit value, least significant first. *)
Definition bytes_of_u16 (v : Z) : list byte :=
  [byte_of_Z v; byte_of_Z (Z.shiftr v 8)].
Definition bytes_of_u32 (v : Z) : list byte :=
  [byte_of_Z v; byte_of_Z (Z.shiftr v 8);
   byte_of_Z (Z.shiftr v 16); byte_of_Z (Z.shiftr v 24)].

(** Value of a byte sequence read least significant byte first. *)
Fixpoint uint_of_bytes (bs : list byte) : Z :=
  match bs with
  | [] => 0
  | b :: bs' => Z_of_byte b + 256 * uint_of_bytes bs'
  end.

Definition endian (littleEndian : bool) (bs : list byte) : list byte :=
  if littleEndian then bs else reverse bs.

(** ** ArrayBuffer, DataView, Uint8Array *)

Abbreviation ArrayBuffer := nat (only parsing).

Record DataView : Type := mkDataView {
  dv_buffer : ArrayBuffer;
  dv_byteOffset : Z;
  dv_byteLength : Z;
}.

(** A typed array over a buffer; [ta_length] counts elements. *)
Record TypedArray : Type := mkTypedArray {
  ta_buffer : ArrayBuffer;
  ta_byteOffset : Z;
  ta_length : Z;
}.
Definition Uint8Array : Type := TypedArray.

(** [new ArrayBuffer(n)]: a fresh zero-filled buffer. *)
Definition new_ArrayBuffer (n : Z) : M ArrayBuffer := λ h,
  if decide (0 ≤ n)
  then (Normal (length h), h ++ [replicate (Z.to_nat n) "000"%byte])
  else (Throw RangeError, h).

Definition ArrayBuffer_byteLength (b : ArrayBuffer) : M Z := λ h,
  match h !! b with
  | Some bs => (Normal (Z.of_nat (length bs)), h)
  | None => (Throw TypeError, h)
  end.

(** [new DataView(buffer, byteOffset, byteLength)]; [None] is an omitted
    [byteLength]. The offset and the length are range-checked against the
    buffer. *)
Definition new_DataView (b : ArrayBuffer) (byteOffset : Z) (byteLength : option Z)
  : M DataView :=
  let* bufLen := ArrayBuffer_byteLength b in
  if decide (byteOffset < 0 ∨ bufLen < byteOffset) then throw RangeError else
  match byteLength with
  | None => ret (mkDataView b byteOffset (bufLen - byteOffset))
  | Some n =>
      if decide (n < 0 ∨ bufLen < byteOffset + n) then throw RangeError
      else ret (mkDataView b byteOffset n)
  end.

(** [new XArray(buffer, byteOffset, length)] for an element size of
    [elementSize] bytes, with an explicit [length] (the only form the source
    uses): the offset must be a multiple of the element size and the
    elements must lie inside the buffer. *)
Definition new_TypedArray (elementSize : Z) (b : ArrayBuffer) (byteOffset length : Z)
  : M TypedArray :=
  let* bufLen := ArrayBuffer_byteLength b in
  if decide (byteOffset < 0 ∨ byteOffset `mod` elementSize ≠ 0) then throw RangeError else
  if decide (length < 0 ∨ bufLen < byteOffset + length * elementSize) then throw RangeError
  else ret (mkTypedArray b byteOffset length).

Definition new_Uint8Array := new_TypedArray 1.

(** Raw access to the block of a buffer; an access outside the buffer means
    that the view does not belong to this heap (the analogue of a detached
    buffer), which JavaScript reports as a [TypeError]. *)
Definition readBytes (b : ArrayBuffer) (off len : Z) : M (list byte) := λ h,
  match h !! b with
  | Some bs =>
      if decide (0 ≤ off ∧ 0 ≤ len ∧ off + len ≤ Z.of_nat (length bs))
      then (Normal (take (Z.to_nat len) (drop (Z.to_nat off) bs)), h)
      else (Throw TypeError, h)
  | None => (Throw TypeError, h)
  end.

Definition splice (bs : list byte) (off : nat) (data : list byte) : list byte :=
  take off bs ++ data ++ drop (off + length data)%nat bs.

Definition writeBytes (b : ArrayBuffer) (off : Z) (data : list byte) : M unit := λ h,
  match h !! b with
  | Some bs =>
      if decide (0 ≤ off ∧ off + Z.of_nat (length data) ≤ Z.of_nat (length bs))
      then (Normal (), <[b := splice bs (Z.to_nat off) data]> h)
      else (Throw TypeError, h)
  | None => (Throw TypeError, h)
  end.

(** [view.getUintN(idx, littleEndian)] and [view.setUintN(idx, value, littleEndian)]. *)
Definition getUint (n : Z) (v : DataView) (idx : Z) (littleEndian : bool) : M Z :=
  if decide (idx < 0 ∨ dv_byteLength v < idx + n) then throw RangeError else
  let* bs := readBytes (dv_buffer v) (dv_byteOffset v + idx) n in
  ret (uint_of_bytes (endian littleEndian bs)).

Definition getUint16 := getUint 2.
Definition getUint32 := getUint 4.

Definition setUint (n : Z) (to_bytes : Z → list byte)
    (v : DataView) (idx : Z) (value : Z) (littleEndian : bool) : M unit :=
  if decide (idx < 0 ∨ dv_byteLength v < idx + n) then throw RangeError else
  writeBytes (dv_buffer v) (dv_byteOffset v + idx) (endian littleEndian (to_bytes value)).

Definition setUint16 := setUint 2 bytes_of_u16.
Definition setUint32 := setUint 4 bytes_of_u32.

(** The bytes a [Uint8Array] shows. *)
Definition Uint8Array_bytes (a : Uint8Array) : M (list byte) :=
  readBytes (ta_buffer a) (ta_byteOffset a) (ta_length a).

(** [target.set(source, offset)] for two [Uint8Array]s: the source is read
    as a whole before the target is written, so an overlap is harmless. *)
Definition Uint8Array_set (target source : Uint8Array) (offset : Z) : M unit :=
  if decide (offset < 0 ∨ ta_length target < ta_length source + offset)
  then throw RangeError else
  let* src := Uint8Array_bytes source in
  writeBytes (ta_buffer target) (ta_byteOffset target + offset) src.

(** ** Text: [TextEncoder] and [TextDecoder] (UTF-8)

    Both are the platform's; they are written out after the WHATWG Encoding
    standard, which the source relies on. *)

Definition JsString : Type := list Z.

Definition is_high_surrogate (u : Z) : bool := bool_decide (55296 ≤ u ≤ 56319).
Definition is_low_surrogate (u : Z) : bool := bool_decide (56320 ≤ u ≤ 57343).

(** The scalar values of a string: a surrogate pair is one scalar value, a
    lone surrogate becomes U+FFFD. *)
Fixpoint scalar_values (s : JsString) : list Z :=
  match s with
  | [] => []
  | u :: rest =>
      if is_high_surrogate u then
        match rest with
        | v :: rest' =>
            if is_low_surrogate v
            then (65536 + Z.shiftl (u - 55296) 10 + (v - 56320)) :: scalar_values rest'
            else 65533 :: scalar_values rest
        | [] => [65533]
        end
      else if is_low_surrogate u then 65533 :: scalar_values rest
      else u :: scalar_values rest
  end.

Definition utf8_encode_scalar (c : Z) : list byte :=
  if decide (c < 128) then [byte_of_Z c]
  else if decide (c < 2048) then
    [byte_of_Z (Z.lor 192 (Z.shiftr c 6)); byte_of_Z (Z.lor 128 (Z.land c 63))]
  else if decide (c < 65536) then
    [byte_of_Z (Z.lor 224 (Z.shiftr c 12));
     byte_of_Z (Z.lor 128 (Z.land (Z.shiftr c 6) 63));
     byte_of_Z (Z.lor 128 (Z.land c 63))]
  else
    [byte_of_Z (Z.lor 240 (Z.shiftr c 18));
     byte_of_Z (Z.lor 128 (Z.land (Z.shiftr c 12) 63));
     byte_of_Z (Z.lor 128 (Z.land (Z.shiftr c 6) 63));
     byte_of_Z (Z.lor 128 (Z.land c 63))].

(** What [textEncoder.encode(s)] holds: the UTF-8 encoding of [s]. *)
Definition utf8_encode (s : JsString) : list byte :=
  concat (utf8_encode_scalar <$> scalar_values s).

(** The bytes [encodeInto] writes: whole scalar values, as long as the next
    one still fits into what is left of the destination. *)
Fixpoint encodeInto_bytes (scalars : list Z) (room : Z) : list byte :=
  match scalars with
  | [] => []
  | c :: rest =>
      let bs := utf8_encode_scalar c in
      if decide (Z.of_nat (length bs) ≤ room)
      then bs ++ encodeInto_bytes rest (room - Z.of_nat (length bs))
      else []
  end.

(** [textEncoder.encodeInto(source, destination)]; its result ([read],
    [written]) is dropped by the source and is not modelled. *)
Definition TextEncoder_encodeInto (source : JsString) (destination : Uint8Array) : M unit :=
  writeBytes (ta_buffer destination) (ta_byteOffset destination)
    (encodeInto_bytes (scalar_values source) (ta_length destination)).

(** The UTF-8 decoder's state: code point so far, bytes seen and needed,
    and the bounds of the next continuation byte. *)
Record Utf8State : Type := mkUtf8State {
  u_codePoint : Z; u_seen : Z; u_needed : Z; u_lower : Z; u_upper : Z;
}.
Definition utf8_init : Utf8State := mkUtf8State 0 0 0 128 191.

(** A byte met with no sequence pending: what it emits and the next state. *)
Definition utf8_lead (b : Z) : list Z * Utf8State :=
  if decide (b ≤ 127) then ([b], utf8_init)
  else if decide (194 ≤ b ≤ 223) then ([], mkUtf8State (Z.land b 31) 0 1 128 191)
  else if decide (224 ≤ b ≤ 239) then
    ([], mkUtf8State (Z.land b 15) 0 2
           (if decide (b = 224) then 160 else 128)
           (if decide (b = 237) then 159 else 191))
  else if decide (240 ≤ b ≤ 244) then
    ([], mkUtf8State (Z.land b 7) 0 3
           (if decide (b = 240) then 144 else 128)
           (if decide (b = 244) then 143 else 191))
  else ([65533], utf8_init).

Fixpoint utf8_decode_from (st : Utf8State) (bs : list byte) : list Z :=
  match bs with
  | [] => if decide (u_needed st = 0) then [] else [65533]
  | b0 :: rest =>
      let b := Z_of_byte b0 in
      if decide (u_needed st = 0) then
        let '(out, st') := utf8_lead b in out ++ utf8_decode_from st' rest
      else if decide (b < u_lower st ∨ u_upper st < b) then
        (* an ill-formed sequence ends here; the byte is looked at again *)
        let '(out, st') := utf8_lead b in 65533 :: out ++ utf8_decode_from st' rest
      else
        let cp := Z.lor (Z.shiftl (u_codePoint st) 6) (Z.land b 63) in
        if decide (u_seen st + 1 = u_needed st)
        then cp :: utf8_decode_from utf8_init rest
        else utf8_decode_from (mkUtf8State cp (u_seen st + 1) (u_needed st) 128 191) rest
  end.

Definition utf16_units (cp : Z) : list Z :=
  if decide (cp < 65536) then [cp]
  else [55296 + Z.shiftr (cp - 65536) 10; 56320 + Z.land (cp - 65536) 1023].

Definition strip_bom (bs : list byte) : list byte :=
  match bs with
  | "239"%byte :: "187"%byte :: "191"%byte :: rest => rest
  | _ => bs
  end.

(** [textDecoder.decode(bytes)] of a default [TextDecoder]: UTF-8, a
    leading byte order mark dropped, ill-formed input replaced by U+FFFD
    instead of an exception. *)
Definition TextDecoder_decode (bs : list byte) : JsString :=
  concat (utf16_units <$> utf8_decode_from utf8_init (strip_bom bs)).

(** [bytes.slice(begin, end)] of an [ArrayBuffer]'s contents: both ends are
    clamped into the buffer and the result is a copy. *)
Definition slice_bytes (bs : list byte) (begin_ end_ : Z) : list byte :=
  let len := Z.of_nat (length bs) in
  let first := Z.min (Z.max begin_ 0) len in
  let final := Z.min (Z.max end_ 0) len in
  take (Z.to_nat (Z.max (final - first) 0)) (drop (Z.to_nat first) bs).

(** [buffer.slice(begin, end)]: the copy is a temporary that nothing else
    refers to, so it is handed on as its contents. *)
Definition ArrayBuffer_slice (b : ArrayBuffer) (begin_ end_ : Z) : M (list byte) := λ h,
  match h !! b with
  | Some bs => (Normal (slice_bytes bs begin_ end_), h)
  | None => (Throw TypeError, h)
  end.

(** [new Uint8Array(bytes).indexOf(0)]. *)
Fixpoint indexOf_zero (bs : list byte) (i : Z) : Z :=
  match bs with
  | [] => -1
  | b :: rest => if decide (b = "000"%byte) then i else indexOf_zero rest (i + 1)
  end.

(** ** tagToString *)

(** [ToInt32] of an integer. *)
Definition ToInt32 (v : Z) : Z := (v + 2147483648) `mod` 4294967296 - 2147483648.

(** [a >> n] and [a & b]: the operands go through [ToInt32], the shift
    count is taken modulo 32. *)
Definition js_shr (a n : Z) : Z := Z.shiftr (ToInt32 a) (Z.land n 31).
Definition js_and (a b : Z) : Z := Z.land (ToInt32 a) (ToInt32 b).

(** [String.fromCharCode(...units)]: every argument through [ToUint16]. *)
Definition String_fromCharCode (units : list Z) : JsString :=
  (λ u, u `mod` 65536) <$> units.

Definition tagToString (tag : Z) : JsString :=
  String_fromCharCode
    [js_and (js_shr tag 24) 255; js_and (js_shr tag 16) 255;
     js_and (js_shr tag 8) 255; js_and (js_shr tag 0) 255].

(** ** Chunk tags ([ChunkTagsBE]) *)

Module ChunkTagsBE.
Definition RIFF : Z := 0x52494646.
Definition WAVE : Z := 0x57415645.
Definition FMT  : Z := 0x666D7420.
Definition DATA : Z := 0x64617461.
Definition CUE  : Z := 0x63756520.
Definition SMPL : Z := 0x736D706C.
Definition LIST : Z := 0x4C495354.
Definition adtl : Z := 0x6164746C.
Definition labl : Z := 0x6C61626C.
Definition INFO : Z := 0x494E464F.
End ChunkTagsBE.

(** ** The chunk classes *)

Record FormatChunk : Type := mkFormatChunk {
  compressionCode : Z;
  channelCount : Z;
  sampleRate : Z;
  avgBytesPerSecond : Z;
  blockAlign : Z;
  sigBitsPerSample : Z;
  extraFormatBytes : option Uint8Array;
}.

Record Cue : Type := mkCue {
  cue_id : Z;
  cue_position : Z;
  cue_chunkId : Z;
  cue_chunkStart : Z;
  cue_blockStart : Z;
  cue_sampleOffset : Z;
}.

Record SampleLoop : Type := mkSampleLoop {
  loop_id : Z;
  loop_type : Z;
  loop_start : Z;
  loop_end : Z;
  loop_fraction : Z;
  loop_playCount : Z;
}.

(** Fields in the order of the constructor's parameters. *)
Record SampleChunk : Type := mkSampleChunk {
  samplePeriod : Z;
  samplerData : option Uint8Array;
  sampleLoops : list SampleLoop;
  manufacturer : Z;
  product : Z;
  midiUnityNote : Z;
  midiPitchFraction : Z;
  smpteFormat : Z;
  smpteOffset : Z;
}.

(** The implementations of the [Chunk] interface. A class whose [tag] is a
    constant carries none; [UnknownChunk] takes its tag as a parameter. *)
Inductive Chunk : Type :=
| CUnknown (tag : Z) (data : Uint8Array)      (* UnknownChunk *)
| CFormat (c : FormatChunk)                   (* FormatChunk *)
| CCue (cues : list Cue)                      (* CueChunk *)
| CSample (c : SampleChunk)                   (* SampleChunk *)
| CLabl (cueId : Z) (cueLabel : JsString)     (* ListChunk_ADTL_LABL *)
| CAdtl (chunks : list Chunk)                 (* ListChunk_ADTL *)
| CList (body : Chunk)                        (* ListChunk *)
| CData (data : Uint8Array).                  (* DataChunk *)

Definition chunk_tag (c : Chunk) : Z :=
  match c with
  | CUnknown tag _ => tag
  | CFormat _ => ChunkTagsBE.FMT
  | CCue _ => ChunkTagsBE.CUE
  | CSample _ => ChunkTagsBE.SMPL
  | CLabl _ _ => ChunkTagsBE.labl
  | CAdtl _ => ChunkTagsBE.adtl
  | CList _ => ChunkTagsBE.LIST
  | CData _ => ChunkTagsBE.DATA
  end.

(** *** length() *)

Definition UnknownChunk_length (data : Uint8Array) : Z := ta_length data.

(** [extraFormatBytes!.length] on a missing blob is a [TypeError]. *)
Definition FormatChunk_length (c : FormatChunk) : Completion Z :=
  if decide (compressionCode c ≤ 1) then Normal 16
  else match extraFormatBytes c with
       | Some e => Normal (18 + ta_length e)
       | None => Throw TypeError
       end.

Definition CueChunk_length (cues : list Cue) : Z :=
  4 + Z.of_nat (length cues) * 24.

Definition SampleChunk_length (c : SampleChunk) : Z :=
  36 + Z.of_nat (length (sampleLoops c)) * 24
  + match samplerData c with Some d => ta_length d | None => 0 end.

(** [cueLabel.length] is the number of UTF-16 code units of the label. *)
Definition ListChunk_ADTL_LABL_length (cueLabel : JsString) : Z :=
  let length_ := 4 + Z.of_nat (length cueLabel) + 1 in
  if decide (Z.land length_ 1 ≠ 0) then length_ + 1 else length_.

Definition DataChunk_length (data : Uint8Array) : Z := ta_length data.

Fixpoint chunk_length (c : Chunk) : Completion Z :=
  match c with
  | CUnknown _ data => Normal (UnknownChunk_length data)
  | CFormat f => FormatChunk_length f
  | CCue cues => Normal (CueChunk_length cues)
  | CSample s => Normal (SampleChunk_length s)
  | CLabl _ cueLabel => Normal (ListChunk_ADTL_LABL_length cueLabel)
  | CAdtl chunks =>
      (* chunks.reduce((a, b) => a + 8 + b.length(), 0) *)
      (fix reduce (cs : list Chunk) (a : Z) : Completion Z :=
         match cs with
         | [] => Normal a
         | b :: cs' => cbind (chunk_length b) (λ l, reduce cs' (a + 8 + l))
         end) chunks 0
  | CList body => cbind (chunk_length body) (λ l, Normal (4 + l))
  | CData data => Normal (DataChunk_length data)
  end.

(** *** pack(into) *)

Definition UnknownChunk_pack (data : Uint8Array) (into : DataView) : M unit :=
  let* target := new_Uint8Array (dv_buffer into) (dv_byteOffset into) (dv_byteLength into) in
  Uint8Array_set target data 0.

Definition FormatChunk_pack (c : FormatChunk) (into : DataView) : M unit :=
  setUint16 into 0 (compressionCode c) true ;;;
  setUint16 into 2 (channelCount c) true ;;;
  setUint32 into 4 (sampleRate c) true ;;;
  setUint32 into 8 (avgBytesPerSecond c) true ;;;
  setUint16 into 12 (blockAlign c) true ;;;
  setUint16 into 14 (sigBitsPerSample c) true ;;;
  if decide (1 < compressionCode c) then
    setUint16 into 16
      (match extraFormatBytes c with Some e => ta_length e | None => 0 end) true ;;;
    match extraFormatBytes c with
    | Some e =>
        let* target :=
          new_Uint8Array (dv_buffer into) (dv_byteOffset into) (dv_byteLength into) in
        Uint8Array_set target e 18
    | None => ret ()
    end
  else ret ().

Definition Cue_pack (c : Cue) (into : DataView) (idx : Z) : M unit :=
  setUint32 into (idx + 0) (cue_id c) true ;;;
  setUint32 into (idx + 4) (cue_position c) true ;;;
  setUint32 into (idx + 8) (cue_chunkId c) true ;;;
  setUint32 into (idx + 12) (cue_chunkStart c) true ;;;
  setUint32 into (idx + 16) (cue_blockStart c) true ;;;
  setUint32 into (idx + 20) (cue_sampleOffset c) true.

Fixpoint CueChunk_pack_loop (cues : list Cue) (into : DataView) (idx : Z) : M unit :=
  match cues with
  | [] => ret ()
  | c :: rest => Cue_pack c into idx ;;; CueChunk_pack_loop rest into (idx + 24)
  end.

Definition CueChunk_pack (cues : list Cue) (into : DataView) : M unit :=
  setUint32 into 0 (Z.of_nat (length cues)) true ;;;
  CueChunk_pack_loop cues into 4.

Definition SampleLoop_pack (l : SampleLoop) (into : DataView) (idx : Z) : M unit :=
  setUint32 into (idx + 0) (loop_id l) true ;;;
  setUint32 into (idx + 4) (loop_type l) true ;;;
  setUint32 into (idx + 8) (loop_start l) true ;;;
  setUint32 into (idx + 12) (loop_end l) true ;;;
  setUint32 into (idx + 16) (loop_fraction l) true ;;;
  setUint32 into (idx + 20) (loop_playCount l) true.

Fixpoint SampleChunk_pack_loop (ls : list SampleLoop) (into : DataView) (idx : Z) : M unit :=
  match ls with
  | [] => ret ()
  | l :: rest => SampleLoop_pack l into idx ;;; SampleChunk_pack_loop rest into (idx + 24)
  end.

Definition SampleChunk_pack (c : SampleChunk) (into : DataView) : M unit :=
  setUint32 into 0 (manufacturer c) true ;;;
  setUint32 into 4 (product c) true ;;;
  setUint32 into 8 (samplePeriod c) true ;;;
  setUint32 into 12 (midiUnityNote c) true ;;;
  setUint32 into 16 (midiPitchFraction c) true ;;;
  setUint32 into 20 (smpteFormat c) true ;;;
  setUint32 into 24 (smpteOffset c) true ;;;
  setUint32 into 28 (Z.of_nat (length (sampleLoops c))) true ;;;
  setUint32 into 32 (match samplerData c with Some d => ta_length d | None => 0 end) true ;;;
  SampleChunk_pack_loop (sampleLoops c) into 36 ;;;
  match samplerData c with
  | Some d =>
      let* target :=
        new_Uint8Array (dv_buffer into) (dv_byteOffset into) (dv_byteLength into) in
      Uint8Array_set target d (36 + Z.of_nat (length (sampleLoops c)) * 24)
  | None => ret ()
  end.

(** The destination of [encodeInto] starts 4 bytes into the view and is
    given the view's whole [byteLength] as its length, as in the source. *)
Definition ListChunk_ADTL_LABL_pack (cueId : Z) (cueLabel : JsString) (into : DataView)
  : M unit :=
  setUint32 into 0 cueId true ;;;
  let* destination :=
    new_Uint8Array (dv_buffer into) (dv_byteOffset into + 4) (dv_byteLength into) in
  TextEncoder_encodeInto cueLabel destination.

Definition DataChunk_pack (data : Uint8Array) (into : DataView) : M unit :=
  let* target := new_Uint8Array (dv_buffer into) (dv_byteOffset into) (dv_byteLength into) in
  Uint8Array_set target data 0.

Fixpoint chunk_pack (c : Chunk) (into : DataView) : M unit :=
  match c with
  | CUnknown _ data => UnknownChunk_pack data into
  | CFormat f => FormatChunk_pack f into
  | CCue cues => CueChunk_pack cues into
  | CSample s => SampleChunk_pack s into
  | CLabl cueId cueLabel => ListChunk_ADTL_LABL_pack cueId cueLabel into
  | CAdtl chunks =>
      (* ListChunk_ADTL.pack: the loop over [this.chunks], [idx] from 0 *)
      (fix loop (cs : list Chunk) (idx : Z) : M unit :=
         match cs with
         | [] => ret ()
         | ch :: cs' =>
             let* chunkSize := liftC (chunk_length ch) in
             setUint32 into idx (chunk_tag ch) false ;;;
             setUint32 into (idx + 4) chunkSize true ;;;
             let idx := idx + 8 in
             let* chunkView :=
               new_DataView (dv_buffer into) (dv_byteOffset into + idx) (Some chunkSize) in
             chunk_pack ch chunkView ;;;
             let idx := idx + chunkSize in
             loop cs' idx
         end) chunks 0
  | CList body =>
      (* ListChunk.pack *)
      setUint32 into 0 (chunk_tag body) false ;;;
      let* bodyView :=
        new_DataView (dv_buffer into) (dv_byteOffset into + 4) (Some (dv_byteLength into - 4)) in
      chunk_pack body bodyView
  | CData data => DataChunk_pack data into
  end.

(** *** unpack(from, tag) and the registries ([ChunkStatic]) *)

Record ChunkStatic : Type := mkChunkStatic {
  unpack : DataView → Z → M Chunk;
}.

Definition UnknownChunk_unpack (from : DataView) (tag : Z) : M Chunk :=
  let* data := new_Uint8Array (dv_buffer from) (dv_byteOffset from) (dv_byteLength from) in
  ret (CUnknown tag data).

Definition FormatChunk_unpack (from : DataView) (tag : Z) : M Chunk :=
  let* compressionCode := getUint16 from 0 true in
  let* extraFormatBytes :=
    if decide (1 < compressionCode) then
      let* extraFormatBytesLength := getUint16 from 16 true in
      let* e :=
        new_Uint8Array (dv_buffer from) (dv_byteOffset from + 18) extraFormatBytesLength in
      ret (Some e)
    else ret None in
  let* channelCount := getUint16 from 2 true in
  let* sampleRate := getUint32 from 4 true in
  let* avgBytesPerSecond := getUint32 from 8 true in
  let* blockAlign := getUint16 from 12 true in
  let* sigBitsPerSample := getUint16 from 14 true in
  ret (CFormat (mkFormatChunk compressionCode channelCount sampleRate
                  avgBytesPerSecond blockAlign sigBitsPerSample extraFormatBytes)).

Definition Cue_unpack (from : DataView) (idx : Z) : M Cue :=
  let* id := getUint32 from (idx + 0) true in
  let* position := getUint32 from (idx + 4) true in
  let* chunkId := getUint32 from (idx + 8) true in
  let* chunkStart := getUint32 from (idx + 12) true in
  let* blockStart := getUint32 from (idx + 16) true in
  let* sampleOffset := getUint32 from (idx + 20) true in
  ret (mkCue id position chunkId chunkStart blockStart sampleOffset).

(** [for (let i=0, idx=4; i<count; i++, idx+=24) cues[i] = Cue.unpack(from, idx)],
    by recursion on the number of records still to read. *)
Fixpoint CueChunk_unpack_loop (from : DataView) (todo : nat) (idx : Z) : M (list Cue) :=
  match todo with
  | O => ret []
  | S todo' =>
      let* c := Cue_unpack from idx in
      let* rest := CueChunk_unpack_loop from todo' (idx + 24) in
      ret (c :: rest)
  end.

Definition CueChunk_unpack (from : DataView) (tag : Z) : M Chunk :=
  let* count := getUint32 from 0 true in
  let* cues := CueChunk_unpack_loop from (Z.to_nat count) 4 in
  ret (CCue cues).

Definition SampleLoop_unpack (from : DataView) (idx : Z) : M SampleLoop :=
  let* id := getUint32 from (idx + 0) true in
  let* type := getUint32 from (idx + 4) true in
  let* start := getUint32 from (idx + 8) true in
  let* end_ := getUint32 from (idx + 12) true in
  let* fraction := getUint32 from (idx + 16) true in
  let* playCount := getUint32 from (idx + 20) true in
  ret (mkSampleLoop id type start end_ fraction playCount).

Fixpoint SampleChunk_unpack_loop (from : DataView) (todo : nat) (idx : Z)
  : M (list SampleLoop) :=
  match todo with
  | O => ret []
  | S todo' =>
      let* l := SampleLoop_unpack from idx in
      let* rest := SampleChunk_unpack_loop from todo' (idx + 24) in
      ret (l :: rest)
  end.

Definition SampleChunk_unpack (from : DataView) (tag : Z) : M Chunk :=
  let* sampleLoopCount := getUint32 from 28 true in
  let* samplerDataSize := getUint32 from 32 true in
  let* samplerData :=
    if decide (samplerDataSize ≠ 0) then
      let* d := new_Uint8Array (dv_buffer from)
                  (dv_byteOffset from + 36 + sampleLoopCount * 24) samplerDataSize in
      ret (Some d)
    else ret None in
  let* sampleLoops := SampleChunk_unpack_loop from (Z.to_nat sampleLoopCount) 36 in
  let* samplePeriod := getUint32 from 8 true in
  let* manufacturer := getUint32 from 0 true in
  let* product := getUint32 from 4 true in
  let* midiUnityNote := getUint32 from 12 true in
  let* midiPitchFraction := getUint32 from 16 true in
  let* smpteFormat := getUint32 from 20 true in
  let* smpteOffset := getUint32 from 24 true in
  ret (CSample (mkSampleChunk samplePeriod samplerData sampleLoops manufacturer product
                  midiUnityNote midiPitchFraction smpteFormat smpteOffset)).

Definition ListChunk_ADTL_LABL_unpack (from : DataView) (tag : Z) : M Chunk :=
  let* cueId := getUint32 from 0 true in
  let* cueLabelBytes :=
    ArrayBuffer_slice (dv_buffer from)
      (dv_byteOffset from + 4) (dv_byteOffset from + dv_byteLength from) in
  let byteLength := indexOf_zero cueLabelBytes 0 in
  let cueLabelBytes :=
    if decide (byteLength ≠ -1) then slice_bytes cueLabelBytes 0 byteLength
    else cueLabelBytes in
  ret (CLabl cueId (TextDecoder_decode cueLabelBytes)).

Definition DataChunk_unpack (from : DataView) (tag : Z) : M Chunk :=
  let* data := new_Uint8Array (dv_buffer from) (dv_byteOffset from) (dv_byteLength from) in
  ret (CData data).

Definition UnknownChunk_static : ChunkStatic := mkChunkStatic UnknownChunk_unpack.
Definition FormatChunk_static : ChunkStatic := mkChunkStatic FormatChunk_unpack.
Definition CueChunk_static : ChunkStatic := mkChunkStatic CueChunk_unpack.
Definition SampleChunk_static : ChunkStatic := mkChunkStatic SampleChunk_unpack.
Definition ListChunk_ADTL_LABL_static : ChunkStatic :=
  mkChunkStatic ListChunk_ADTL_LABL_unpack.
Definition DataChunk_static : ChunkStatic := mkChunkStatic DataChunk_unpack.

(** [registry[tag] ?? UnknownChunk] *)
Definition registry_lookup (registry : gmap Z ChunkStatic) (tag : Z) : ChunkStatic :=
  default UnknownChunk_static (registry !! tag).

Definition ListChunk_ADTL_chunkRegistry : gmap Z ChunkStatic :=
  {[ ChunkTagsBE.labl := ListChunk_ADTL_LABL_static ]}.

(** The [while (idx < from.byteLength)] loop of [ListChunk_ADTL.unpack].
    Every round moves [idx] forward by 8 at least, so [fuel] rounds are
    enough when [fuel] is the byte length of the view; the branch for no
    fuel is never taken then ([ListChunk_ADTL_unpack_loop_fuel]). *)
Fixpoint ListChunk_ADTL_unpack_loop (fuel : nat) (from : DataView) (idx : Z)
    (chunks : list Chunk) : M (list Chunk) :=
  if decide (idx < dv_byteLength from) then
    match fuel with
    | O => throw (Error "unreachable")
    | S fuel' =>
        let* chunkTag := getUint32 from idx false in
        let* chunkSize := getUint32 from (idx + 4) true in
        let idx := idx + 8 in
        let chunkType := registry_lookup ListChunk_ADTL_chunkRegistry chunkTag in
        let* chunkView :=
          new_DataView (dv_buffer from) (dv_byteOffset from + idx) (Some chunkSize) in
        let* chunk := unpack chunkType chunkView chunkTag in
        let chunks := chunks ++ [chunk] in
        let idx := idx + chunkSize in
        let idx := if decide (Z.land idx 1 ≠ 0) then idx + 1 else idx in
        ListChunk_ADTL_unpack_loop fuel' from idx chunks
    end
  else ret chunks.

Definition ListChunk_ADTL_unpack (from : DataView) (tag : Z) : M Chunk :=
  let* chunks :=
    ListChunk_ADTL_unpack_loop (Z.to_nat (dv_byteLength from)) from 0 [] in
  ret (CAdtl chunks).

Definition ListChunk_ADTL_static : ChunkStatic := mkChunkStatic ListChunk_ADTL_unpack.

Definition ListChunk_chunkRegistry : gmap Z ChunkStatic :=
  {[ ChunkTagsBE.adtl := ListChunk_ADTL_static ]}.

Definition ListChunk_unpack (from : DataView) (tag : Z) : M Chunk :=
  let* bodyTag := getUint32 from 0 false in
  let* bodyView :=
    new_DataView (dv_buffer from) (dv_byteOffset from + 4) (Some (dv_byteLength from - 4)) in
  let bodyType := registry_lookup ListChunk_chunkRegistry bodyTag in
  let* body := unpack bodyType bodyView bodyTag in
  ret (CList body).

Definition ListChunk_static : ChunkStatic := mkChunkStatic ListChunk_unpack.

(** ** DataChunk.reinterpret *)

(** The union [Uint8Array | Int16Array | Int32Array] of the result. *)
Inductive SampleView : Type :=
| AsUint8Array (a : TypedArray)
| AsInt16Array (a : TypedArray)
| AsInt32Array (a : TypedArray).

(** The message of the error is a template literal around [bits]. What the
    literal makes of the number, [Number::toString], is a parameter: the
    language fixes the digits of a number only up to its last digit. *)
Definition DataChunk_reinterpret (Number_toString : Z → string)
    (data : Uint8Array) (bits : Z) : M SampleView :=
  if decide (bits = 8) then ret (AsUint8Array data)
  else if decide (bits = 16) then
    let* a := new_TypedArray 2 (ta_buffer data) (ta_byteOffset data) (ta_length data `div` 2) in
    ret (AsInt16Array a)
  else if decide (bits = 32) then
    let* a := new_TypedArray 4 (ta_buffer data) (ta_byteOffset data) (ta_length data `div` 4) in
    ret (AsInt32Array a)
  else throw (Error ("Cannot reinterpret to bit depth " +:+ Number_toString bits +:+ "!")).

(** ** Wave *)

Record Wave : Type := mkWave {
  chunks : list Chunk;
  cached_fmt : option Chunk;
  cached_data : option Chunk;
}.

Fixpoint getChunk_loop (cs : list Chunk) (tag : Z) : option Chunk :=
  match cs with
  | [] => None
  | c :: rest => if decide (chunk_tag c = tag) then Some c else getChunk_loop rest tag
  end.

Definition Wave_getChunk (w : Wave) (tag : Z) : option Chunk :=
  getChunk_loop (chunks w) tag.

(** Methods that may assign to [this] return the object after the call. *)
Definition Wave_updateCache (w : Wave) : Wave :=
  mkWave (chunks w) (Wave_getChunk w ChunkTagsBE.FMT) (Wave_getChunk w ChunkTagsBE.DATA).

(** [new Wave(chunks)] *)
Definition new_Wave (chunks : list Chunk) : Wave :=
  Wave_updateCache (mkWave chunks None None).

Fixpoint removeChunk_loop (cs : list Chunk) (tag : Z) : option Chunk :=
  match cs with
  | [] => None
  | c :: rest => if decide (chunk_tag c = tag) then Some c else removeChunk_loop rest tag
  end.

Definition Wave_removeChunk (w : Wave) (tag : Z) : option Chunk * Wave :=
  (removeChunk_loop (chunks w) tag, w).

Definition Wave_addChunk (w : Wave) (chunk : Chunk) : Wave :=
  mkWave (chunks w ++ [chunk]) (cached_fmt w) (cached_data w).

(** The [number] an integer is: the nearest double, ties to even. *)
Definition number_of_Z (z : Z) : float :=
  SF2Prim (binary_normalize prec emax z 0 false).

(** [chunk.data]: the classes with such a field. *)
Definition chunk_data (c : Chunk) : option Uint8Array :=
  match c with
  | CUnknown _ data | CData data => Some data
  | _ => None
  end.

(** [getLengthSamples()]. The cached chunks are read as they are: a
    missing one is [undefined], and a property of [undefined] is a
    [TypeError]; [getChunk] casts without a check, so the format may be a
    chunk of another class, whose missing fields are [undefined], which
    makes the quotient [NaN]. *)
Definition Wave_getLengthSamples (w : Wave) : Completion float :=
  let fmt := cached_fmt w in
  match cached_data w with
  | None => Throw TypeError
  | Some data =>
      match chunk_data data with
      | None => Throw TypeError
      | Some d =>
          match fmt with
          | None => Throw TypeError
          | Some (CFormat f) =>
              Normal (number_of_Z (ta_length d) / number_of_Z (channelCount f)
                      / (number_of_Z (sigBitsPerSample f) / 8))%float
          | Some _ => Normal nan
          end
      end
  end.

Definition Wave_getLengthSeconds (w : Wave) : Completion float :=
  cbind (Wave_getLengthSamples w) (λ samples,
    match cached_fmt w with
    | None => Throw TypeError
    | Some (CFormat f) => Normal (samples / number_of_Z (sampleRate f))%float
    | Some _ => Normal nan
    end).

Definition Wave_chunkRegistry : gmap Z ChunkStatic :=
  {[ ChunkTagsBE.FMT := FormatChunk_static;
     ChunkTagsBE.DATA := DataChunk_static;
     ChunkTagsBE.CUE := CueChunk_static;
     ChunkTagsBE.SMPL := SampleChunk_static;
     ChunkTagsBE.LIST := ListChunk_static ]}.

(** The first loop of [encode]: the length of the file. *)
Fixpoint encode_fileLength (cs : list Chunk) (fileLength : Z) : Completion Z :=
  match cs with
  | [] => Normal fileLength
  | chunk :: rest =>
      cbind (chunk_length chunk) (λ l,
        let fileLength := fileLength + (8 + l) in
        let fileLength := if decide (Z.land fileLength 1 ≠ 0) then fileLength + 1 else fileLength in
        encode_fileLength rest fileLength)
  end.

(** The second loop of [encode]: header, body and pad of every chunk. *)
Fixpoint encode_loop (cs : list Chunk) (file : DataView) (idx : Z) : M unit :=
  match cs with
  | [] => ret ()
  | chunk :: rest =>
      let* chunkLength := liftC (chunk_length chunk) in
      setUint32 file (idx + 0) (chunk_tag chunk) false ;;;
      setUint32 file (idx + 4) chunkLength true ;;;
      let idx := idx + 8 in
      let* chunkView := new_DataView (dv_buffer file) idx (Some chunkLength) in
      chunk_pack chunk chunkView ;;;
      let idx := idx + chunkLength in
      let idx := if decide (Z.land idx 1 ≠ 0) then idx + 1 else idx in
      encode_loop rest file idx
  end.

Definition Wave_encode (w : Wave) : M ArrayBuffer :=
  let* fileLength := liftC (encode_fileLength (chunks w) 12) in
  let* buffer := new_ArrayBuffer fileLength in
  let* file := new_DataView buffer 0 None in
  setUint32 file 0 ChunkTagsBE.RIFF false ;;;
  setUint32 file 4 (fileLength - 8) true ;;;
  setUint32 file 8 ChunkTagsBE.WAVE false ;;;
  encode_loop (chunks w) file 12 ;;;
  ret buffer.

(** The [while (idx < fileLength)] loop of [decode]; [fuel] as for
    [ListChunk_ADTL_unpack_loop]. *)
Fixpoint decode_loop (fuel : nat) (buffer : ArrayBuffer) (file : DataView)
    (fileLength idx : Z) (chunks : list Chunk) : M (list Chunk) :=
  if decide (idx < fileLength) then
    match fuel with
    | O => throw (Error "unreachable")
    | S fuel' =>
        let* chunkTag := getUint32 file (idx + 0) false in
        let* chunkLength := getUint32 file (idx + 4) true in
        let idx := idx + 8 in
        let chunkType := registry_lookup Wave_chunkRegistry chunkTag in
        let* chunkView := new_DataView buffer idx (Some chunkLength) in
        let idx := idx + chunkLength in
        let* chunk := unpack chunkType chunkView chunkTag in
        let chunks := chunks ++ [chunk] in
        let idx := if decide (Z.land idx 1 ≠ 0) then idx + 1 else idx in
        decode_loop fuel' buffer file fileLength idx chunks
    end
  else ret chunks.

Definition Wave_decode (buffer : ArrayBuffer) : M Wave :=
  let* file := new_DataView buffer 0 None in
  let* magic := getUint32 file 0 false in
  if decide (magic ≠ ChunkTagsBE.RIFF)
  then throw (Error "Invalid magic string (RIFF)! Is this a .wav file?") else
  let* magic := getUint32 file 8 false in
  if decide (magic ≠ ChunkTagsBE.WAVE)
  then throw (Error "Invalid magic string (WAVE)! Is this a .wav file?") else
  let* fileLength := getUint32 file 4 true in
  let* bufferLength := ArrayBuffer_byteLength buffer in
  if decide (bufferLength < fileLength + 8)
  then throw (Error "Invalid file length! (Bigger than buffer.)") else
  let* chunks := decode_loop (Z.to_nat fileLength) buffer file fileLength 12 [] in
  ret (new_Wave chunks).

(** ** Values and statements the properties refer to *)

(** The two bodies of [tests/fmt.test.ts], each behind four bytes that do
    not belong to the view. *)
Definition test_data : list byte :=
  [xff; xff; xff; xff;
   x01; x00; x02; x00; x44; xac;
   x00; x00; x10; xb1; x02; x00;
   x04; x00; x10; x00].

Definition test2_data : list byte :=
  [xff; xff; xff; xff;
   x02; x00; x02; x00; x44; xac;
   x00; x00; x10; xb1; x02; x00;
   x04; x00; x10; x00; x02; x00; xab; xcd].

Definition test_view : DataView := mkDataView 0%nat 4 16.
Definition test2_view : DataView := mkDataView 0%nat 4 20.

(** A three-byte body at offset 20 of a buffer, under the tag [JUNK], which
    no registry holds, and a second buffer to pack into. *)
Definition junk_tag : Z := 0x4A554E4B.
Definition junk_file : list byte :=
  replicate 20 x00 ++ [x0a; x0b; x0c].
Definition junk_view : DataView := mkDataView 0%nat 20 3.
Definition junk_heap : Heap := [junk_file; replicate 4 x00].

(** Decoding [junk_view] through [registry] and packing the result into
    the second buffer of [junk_heap]. *)
Definition junk_round_trip (registry : gmap Z ChunkStatic) : Prop :=
  ∃ data h'',
    unpack (registry_lookup registry junk_tag) junk_view junk_tag junk_heap
      = (Normal (CUnknown junk_tag data), junk_heap) ∧
    chunk_pack (CUnknown junk_tag data) (mkDataView 1%nat 0 3) junk_heap
      = (Normal (), h'') ∧
    readBytes 1%nat 0 3 h'' = (Normal [x0a; x0b; x0c], h'').

(** The first 36 bytes of a file whose length field is [field]: the header
    and the format chunk of a PCM wave. *)
Definition riff_pcm (field : byte) : list byte :=
  ["R"; "I"; "F"; "F"; field; x00; x00; x00; "W"; "A"; "V"; "E";
   "f"; "m"; "t"; " "; x10; x00; x00; x00;
   x01; x00; x02; x00; x44; xac; x00; x00; x10; xb1; x02; x00; x04; x00; x10; x00]%byte.

(** Two files that end with a chunk tagged [JUNK]: one of 44 bytes, the
    chunk without a body, and one of 46 bytes, the chunk with the body 07
    and its pad. *)
Definition junk_last_file : list byte :=
  riff_pcm x24 ++ ["J"; "U"; "N"; "K"; x00; x00; x00; x00]%byte.
Definition junk_byte_file : list byte :=
  riff_pcm x26 ++ ["J"; "U"; "N"; "K"; x01; x00; x00; x00; x07; x00]%byte.

Definition view_array (v : SampleView) : TypedArray :=
  match v with AsUint8Array a | AsInt16Array a | AsInt32Array a => a end.

(** Width in bits and signedness of the elements of a view. *)
Definition view_bits (v : SampleView) : Z :=
  match v with AsUint8Array _ => 8 | AsInt16Array _ => 16 | AsInt32Array _ => 32 end.
Definition view_signed (v : SampleView) : bool :=
  match v with AsUint8Array _ => false | AsInt16Array _ | AsInt32Array _ => true end.

(** [BYTES_PER_ELEMENT] and [byteLength] of a view. *)
Definition view_elementSize (v : SampleView) : Z :=
  match v with AsUint8Array _ => 1 | AsInt16Array _ => 2 | AsInt32Array _ => 4 end.
Definition view_byteLength (v : SampleView) : Z :=
  ta_length (view_array v) * view_elementSize v.

(** The claim about [reinterpret] as the specification words it: for 8, 16
    and 32 a view of signed integers of that width, over the same memory and
    as many bytes as the payload; an [Error] for every other width. *)
Definition reinterpret_as_specified (h : Heap) (data : Uint8Array) (bits : Z) : Prop :=
  ∀ Number_toString : Z → string,
  if decide (bits = 8 ∨ bits = 16 ∨ bits = 32) then
    ∃ v, DataChunk_reinterpret Number_toString data bits h = (Normal v, h) ∧
         view_signed v = true ∧ view_bits v = bits ∧
         view_byteLength v = ta_length data ∧
         ta_buffer (view_array v) = ta_buffer data ∧
         ta_byteOffset (view_array v) = ta_byteOffset data
  else ∃ msg, DataChunk_reinterpret Number_toString data bits h = (Throw (Error msg), h).

(** A payload of three bytes at the start of a buffer of four, and one of
    two bytes at offset 1 of the same buffer. *)
Definition three_bytes_heap : Heap := [[x01; x02; x03; x04]].
Definition three_bytes : Uint8Array := mkTypedArray 0%nat 0 3.
Definition two_bytes_at_1 : Uint8Array := mkTypedArray 0%nat 1 2.

Definition roundUpToEven (n : Z) : Z :=
  if decide (Z.land n 1 ≠ 0) then n + 1 else n.

(** The length of a label chunk as the specification gives it, from the
    number of bytes of the UTF-8 encoding of the label. *)
Definition ListChunk_ADTL_LABL_length_specified (cueLabel : JsString) : Z :=
  roundUpToEven (4 + Z.of_nat (length (utf8_encode cueLabel)) + 1).

(** What the chunks take in a file: header and body of each, rounded up to
    even, for bodies of the lengths [lengths]. *)
Definition padded_size (lengths : list Z) : Z :=
  foldr (λ l rest, roundUpToEven (8 + l) + rest) 0 lengths.

Definition note_tag : Z := 0x6E6F7465.

(** An [adtl] list of two [note] items, which the item registry does not
    hold: the first with a payload of one byte, the second empty. *)
Definition two_notes : Chunk :=
  CAdtl [CUnknown note_tag (mkTypedArray 0%nat 0 1);
         CUnknown note_tag (mkTypedArray 0%nat 1 0)].

(** The payload byte, and a zero-filled buffer of [length()] bytes to pack into. *)
Definition two_notes_heap : Heap := [["A"%byte]; replicate 17 x00].

(** A wave with one [LIST] chunk: an [adtl] list with the label "a" for cue 1. *)
Definition labelled : Wave := new_Wave [CList (CAdtl [CLabl 1 [97]])].

Definition pcm_format : FormatChunk := mkFormatChunk 1 2 44100 176400 4 16 None.

(** A wave without samples: a PCM format chunk and an empty data chunk
    (its payload is a view of the empty buffer 0). *)
Definition silence : Wave :=
  new_Wave [CFormat pcm_format; CData (mkTypedArray 0%nat 0 0)].
Definition silence_heap : Heap := [[]].

(** Four bytes of samples, for the payloads of the next two waves. *)
Definition samples_heap : Heap := [[x01; x02; x03; x04]].

(** A wave that labels cue 1 "ééé" (three times U+00E9), then four bytes
    of data. *)
Definition accented : Wave :=
  new_Wave [CList (CAdtl [CLabl 1 [233; 233; 233]]); CData (mkTypedArray 0%nat 0 4)].

(** A wave with the two notes of [two_notes] in its list, then four bytes
    of data. *)
Definition noted : Wave :=
  new_Wave [CList two_notes; CData (mkTypedArray 0%nat 0 4)].

(** A PCM wave: the format chunk, and the four bytes of [samples_heap] as
    its data. *)
Definition pcm_chunks : list Chunk :=
  [CFormat pcm_format; CData (mkTypedArray 0%nat 0 4)].

(** The same wave with a list of two labels, [a] of the cue 1 and [bc] of
    the cue 2, before its samples. *)
Definition labelled_chunks : list Chunk :=
  [CFormat pcm_format;
   CList (CAdtl [CLabl 1 [97]; CLabl 2 [98; 99]]);
   CData (mkTypedArray 0%nat 0 4)].

(** A header that gives the file 16 bytes after the length field, the
    header of a [data] chunk that claims 100 bytes, and four bytes. *)
Definition truncated_file : list byte :=
  ["R"; "I"; "F"; "F"; "016"; "000"; "000"; "000"; "W"; "A"; "V"; "E";
   "d"; "a"; "t"; "a"; "100"; "000"; "000"; "000";
   "000"; "000"; "000"; "000"]%byte.

(** A header that gives the file 4 bytes after the length field, and four
    bytes that are no chunk. *)
Definition short_file : list byte :=
  ["R"; "I"; "F"; "F"; "004"; "000"; "000"; "000"; "W"; "A"; "V"; "E";
   "J"; "U"; "N"; "K"]%byte.

(** A format chunk whose code asks for an extension, without one. *)
Definition adpcm_format : FormatChunk := mkFormatChunk 2 2 44100 176400 4 16 None.

(** A format chunk with a sample rate of 2^32 + 44100. *)
Definition wide_format : FormatChunk :=
  mkFormatChunk 1 2 (4294967296 + 44100) 176400 4 16 None.

(** Induction on chunks, with the items of an [adtl] list as premises. *)
Section Chunk_induction.
Variable P : Chunk → Prop.
Hypothesis HUnknown : ∀ tag data, P (CUnknown tag data).
Hypothesis HFormat : ∀ c, P (CFormat c).
Hypothesis HCue : ∀ cues, P (CCue cues).
Hypothesis HSample : ∀ c, P (CSample c).
Hypothesis HLabl : ∀ cueId cueLabel, P (CLabl cueId cueLabel).
Hypothesis HAdtl : ∀ cs, Forall P cs → P (CAdtl cs).
Hypothesis HList : ∀ body, P body → P (CList body).
Hypothesis HData : ∀ data, P (CData data).

Fixpoint Chunk_nested_ind (c : Chunk) : P c :=
  match c with
  | CUnknown tag data => HUnknown tag data
  | CFormat f => HFormat f
  | CCue cues => HCue cues
  | CSample s => HSample s
  | CLabl cueId cueLabel => HLabl cueId cueLabel
  | CAdtl cs =>
      HAdtl cs ((fix items (cs : list Chunk) : Forall P cs :=
                   match cs with
                   | [] => Forall_nil_2 P
                   | c :: cs' => Forall_cons_2 P c cs' (Chunk_nested_ind c) (items cs')
                   end) cs)
  | CList body => HList body (Chunk_nested_ind body)
  | CData data => HData data
  end.
End Chunk_induction.

(** A computation that allocates nothing: every buffer keeps its length. *)
Definition keeps_lengths {A} (m : M A) : Prop :=
  ∀ h, length <$> (m h).2 = length <$> h.

(** The heap while [encode] writes: the heap [h] from before, and after it
    the new buffer, which starts with the bytes [written] and has [room]
    zero bytes left. *)
Definition writing (h : Heap) (written : list byte) (room : nat) : Heap :=
  h ++ [written ++ replicate room x00].

(** [m] puts the bytes [d] after the bytes [p] written so far, whatever
    room there is, if it is enough. *)
Definition appends (m : M unit) (h : Heap) (p d : list byte) : Prop :=
  ∀ n, (length d ≤ n)%nat →
    m (writing h p n) = (Normal (), writing h (p ++ d) (n - length d)).

(** [a] is a view of [bs], bytes of a buffer of [h]. *)
Definition shows (h : Heap) (a : Uint8Array) (bs : list byte) : Prop :=
  ∃ buf, h !! ta_buffer a = Some buf ∧
    0 ≤ ta_byteOffset a ∧ 0 ≤ ta_length a ∧
    ta_byteOffset a + ta_length a ≤ Z.of_nat (length buf) ∧
    bs = take (Z.to_nat (ta_length a)) (drop (Z.to_nat (ta_byteOffset a)) buf).

(** A computation that reads: it gives [a] and leaves the heap, while the
    new buffer is as long as [size] at least. *)
Definition reads {A} (m : M A) (h : Heap) (size : nat) (a : A) : Prop :=
  ∀ p n, (size ≤ length p + n)%nat → m (writing h p n) = (Normal a, writing h p n).

(** The bytes a view shows (none if the view is not of this heap). *)
Definition array_contents (h : Heap) (a : Uint8Array) : list byte :=
  match h !! ta_buffer a with
  | Some buf => take (Z.to_nat (ta_length a)) (drop (Z.to_nat (ta_byteOffset a)) buf)
  | None => []
  end.

Definition valid_array (h : Heap) (a : Uint8Array) : Prop :=
  shows h a (array_contents h a).

Definition Cue_bytes (c : Cue) : list byte :=
  bytes_of_u32 (cue_id c) ++ bytes_of_u32 (cue_position c) ++
  bytes_of_u32 (cue_chunkId c) ++ bytes_of_u32 (cue_chunkStart c) ++
  bytes_of_u32 (cue_blockStart c) ++ bytes_of_u32 (cue_sampleOffset c).

Definition SampleLoop_bytes (l : SampleLoop) : list byte :=
  bytes_of_u32 (loop_id l) ++ bytes_of_u32 (loop_type l) ++
  bytes_of_u32 (loop_start l) ++ bytes_of_u32 (loop_end l) ++
  bytes_of_u32 (loop_fraction l) ++ bytes_of_u32 (loop_playCount l).

Definition FormatChunk_bytes (h : Heap) (c : FormatChunk) : list byte :=
  bytes_of_u16 (compressionCode c) ++ bytes_of_u16 (channelCount c) ++
  bytes_of_u32 (sampleRate c) ++ bytes_of_u32 (avgBytesPerSecond c) ++
  bytes_of_u16 (blockAlign c) ++ bytes_of_u16 (sigBitsPerSample c) ++
  match extraFormatBytes c with
  | Some e =>
      if decide (1 < compressionCode c)
      then bytes_of_u16 (ta_length e) ++ array_contents h e else []
  | None => []
  end.

Definition SampleChunk_bytes (h : Heap) (c : SampleChunk) : list byte :=
  bytes_of_u32 (manufacturer c) ++ bytes_of_u32 (product c) ++
  bytes_of_u32 (samplePeriod c) ++ bytes_of_u32 (midiUnityNote c) ++
  bytes_of_u32 (midiPitchFraction c) ++ bytes_of_u32 (smpteFormat c) ++
  bytes_of_u32 (smpteOffset c) ++
  bytes_of_u32 (Z.of_nat (length (sampleLoops c))) ++
  bytes_of_u32 (match samplerData c with Some d => ta_length d | None => 0 end) ++
  concat (SampleLoop_bytes <$> sampleLoops c) ++
  match samplerData c with Some d => array_contents h d | None => [] end.

(** The chunks without chunks inside: their payloads are views of [h], and
    a format chunk has its extension when its code asks for one. *)
Definition flat (h : Heap) (c : Chunk) : Prop :=
  match c with
  | CUnknown _ data | CData data => valid_array h data
  | CFormat f =>
      match extraFormatBytes f with
      | Some e => valid_array h e
      | None => compressionCode f ≤ 1
      end
  | CCue _ => True
  | CSample s =>
      match samplerData s with Some d => valid_array h d | None => True end
  | CLabl _ _ | CAdtl _ | CList _ => False
  end.

(** The body of a label chunk with a label of ASCII characters: the cue,
    the characters, and zero bytes up to [length()]. *)
Definition label_bytes (cueId : Z) (cueLabel : JsString) : list byte :=
  bytes_of_u32 cueId ++ (byte_of_Z <$> cueLabel) ++
  replicate (Z.to_nat (ListChunk_ADTL_LABL_length cueLabel - 4) - length cueLabel) x00.

(** A label as an item of an [adtl] list: tag, length, body. *)
Definition item_bytes (c : Chunk) : list byte :=
  match c with
  | CLabl cueId cueLabel =>
      reverse (bytes_of_u32 ChunkTagsBE.labl) ++
      bytes_of_u32 (ListChunk_ADTL_LABL_length cueLabel) ++ label_bytes cueId cueLabel
  | _ => []
  end.

(** The body of a chunk in a file: of a flat chunk, and of a label and a
    list of labels. *)
Definition body_bytes (h : Heap) (c : Chunk) : list byte :=
  match c with
  | CUnknown _ data | CData data => array_contents h data
  | CFormat f => FormatChunk_bytes h f
  | CCue cues => bytes_of_u32 (Z.of_nat (length cues)) ++ concat (Cue_bytes <$> cues)
  | CSample s => SampleChunk_bytes h s
  | CLabl cueId cueLabel => label_bytes cueId cueLabel
  | CAdtl items => concat (item_bytes <$> items)
  | CList body =>
      reverse (bytes_of_u32 (chunk_tag body)) ++
      match body with
      | CAdtl items => concat (item_bytes <$> items)
      | _ => []
      end
  end.

(** The view [encode] and the list chunks hand to [pack]: [len] bytes of
    the new buffer, from the end of what is written. *)
Definition next_view (h : Heap) (p : list byte) (len : Z) : DataView :=
  mkDataView (length h) (Z.of_nat (length p)) len.

Definition pad_bytes (len : Z) : list byte :=
  if decide (Z.land len 1 ≠ 0) then [x00] else [].

(** A chunk in a file: tag, length, body, pad. *)
Definition chunk_bytes (h : Heap) (c : Chunk) : list byte :=
  reverse (bytes_of_u32 (chunk_tag c)) ++
  bytes_of_u32 (Z.of_nat (length (body_bytes h c))) ++
  body_bytes h c ++ pad_bytes (Z.of_nat (length (body_bytes h c))).

Definition chunks_bytes (h : Heap) (cs : list Chunk) : list byte :=
  concat (chunk_bytes h <$> cs).

(** The file of a wave of flat chunks, byte for byte. *)
Definition file_bytes (h : Heap) (cs : list Chunk) : list byte :=
  reverse (bytes_of_u32 ChunkTagsBE.RIFF) ++
  bytes_of_u32 (12 + Z.of_nat (length (chunks_bytes h cs)) - 8) ++
  reverse (bytes_of_u32 ChunkTagsBE.WAVE) ++
  chunks_bytes h cs.

(** The file of [pcm_chunks], 48 bytes. *)
Definition pcm_file : list byte := file_bytes samples_heap pcm_chunks.

Definition is_u16 (v : Z) : Prop := 0 ≤ v < 65536.
Definition is_u32 (v : Z) : Prop := 0 ≤ v < 4294967296.

Definition Cue_fits (c : Cue) : Prop :=
  is_u32 (cue_id c) ∧ is_u32 (cue_position c) ∧ is_u32 (cue_chunkId c) ∧
  is_u32 (cue_chunkStart c) ∧ is_u32 (cue_blockStart c) ∧ is_u32 (cue_sampleOffset c).

Definition SampleLoop_fits (l : SampleLoop) : Prop :=
  is_u32 (loop_id l) ∧ is_u32 (loop_type l) ∧ is_u32 (loop_start l) ∧
  is_u32 (loop_end l) ∧ is_u32 (loop_fraction l) ∧ is_u32 (loop_playCount l).

(** The chunks that [decode] gives back as they were: the chunks without
    chunks inside, an unknown chunk under a tag without a class; numbers
    that fit their fields; a format chunk with an extension if and only if
    its code is above 1; sampler data, if a sample chunk has any, not
    empty. *)
Definition canonical (h : Heap) (c : Chunk) : Prop :=
  match c with
  | CUnknown tag data =>
      Wave_chunkRegistry !! tag = None ∧ is_u32 tag ∧ valid_array h data
  | CData data => valid_array h data
  | CFormat f =>
      is_u16 (compressionCode f) ∧ is_u16 (channelCount f) ∧
      is_u32 (sampleRate f) ∧ is_u32 (avgBytesPerSecond f) ∧
      is_u16 (blockAlign f) ∧ is_u16 (sigBitsPerSample f) ∧
      match extraFormatBytes f with
      | Some e => 1 < compressionCode f ∧ valid_array h e ∧ ta_length e < 65536
      | None => compressionCode f ≤ 1
      end
  | CCue cues => Forall Cue_fits cues
  | CSample s =>
      is_u32 (manufacturer s) ∧ is_u32 (product s) ∧ is_u32 (samplePeriod s) ∧
      is_u32 (midiUnityNote s) ∧ is_u32 (midiPitchFraction s) ∧
      is_u32 (smpteFormat s) ∧ is_u32 (smpteOffset s) ∧
      Forall SampleLoop_fits (sampleLoops s) ∧
      match samplerData s with
      | Some d => valid_array h d ∧ ta_length d ≠ 0
      | None => True
      end
  | CLabl _ _ | CAdtl _ | CList _ => False
  end.

(** What [decode] makes of the chunk [c] whose body lies at [off] in the
    buffer [b]: the numbers of [c], and views of [b] for its payloads. *)
Definition decoded (b : ArrayBuffer) (off : Z) (c : Chunk) : Chunk :=
  match c with
  | CUnknown tag data => CUnknown tag (mkTypedArray b off (ta_length data))
  | CData data => CData (mkTypedArray b off (ta_length data))
  | CFormat f =>
      CFormat (mkFormatChunk (compressionCode f) (channelCount f) (sampleRate f)
                 (avgBytesPerSecond f) (blockAlign f) (sigBitsPerSample f)
                 (match extraFormatBytes f with
                  | Some e => Some (mkTypedArray b (off + 18) (ta_length e))
                  | None => None
                  end))
  | CSample s =>
      CSample (mkSampleChunk (samplePeriod s)
                 (match samplerData s with
                  | Some d =>
                      Some (mkTypedArray b
                              (off + 36 + Z.of_nat (length (sampleLoops s)) * 24)
                              (ta_length d))
                  | None => None
                  end)
                 (sampleLoops s) (manufacturer s) (product s) (midiUnityNote s)
                 (midiPitchFraction s) (smpteFormat s) (smpteOffset s))
  | _ => c
  end.

(** The chunks [decode] makes of the chunks [cs] that lie in the file from
    [idx] on. *)
Fixpoint decoded_chunks (b : ArrayBuffer) (h : Heap) (idx : Z) (cs : list Chunk)
  : list Chunk :=
  match cs with
  | [] => []
  | c :: cs' =>
      decoded b (idx + 8) c
      :: decoded_chunks b h (idx + Z.of_nat (length (chunk_bytes h c))) cs'
  end.

(** The last chunk, if there is one, has a body. *)
Definition ends_with_body (h : Heap) (cs : list Chunk) : Prop :=
  ∀ c, last cs = Some c → body_bytes h c ≠ [].

(** [a'] in [h'] is a view as long as [a] in [h], of the same bytes. *)
Definition same_array (h h' : Heap) (a a' : Uint8Array) : Prop :=
  valid_array h' a' ∧ ta_length a' = ta_length a ∧
  array_contents h' a' = array_contents h a.

(** Chunks that are equal tag for tag and field for field, a payload being
    equal to another when it shows the same bytes. *)
Definition same_chunk (h h' : Heap) (c c' : Chunk) : Prop :=
  match c, c' with
  | CUnknown tag data, CUnknown tag' data' => tag' = tag ∧ same_array h h' data data'
  | CData data, CData data' => same_array h h' data data'
  | CFormat f, CFormat f' =>
      compressionCode f' = compressionCode f ∧ channelCount f' = channelCount f ∧
      sampleRate f' = sampleRate f ∧ avgBytesPerSecond f' = avgBytesPerSecond f ∧
      blockAlign f' = blockAlign f ∧ sigBitsPerSample f' = sigBitsPerSample f ∧
      match extraFormatBytes f, extraFormatBytes f' with
      | Some e, Some e' => same_array h h' e e'
      | None, None => True
      | _, _ => False
      end
  | CSample s, CSample s' =>
      samplePeriod s' = samplePeriod s ∧ sampleLoops s' = sampleLoops s ∧
      manufacturer s' = manufacturer s ∧ product s' = product s ∧
      midiUnityNote s' = midiUnityNote s ∧ midiPitchFraction s' = midiPitchFraction s ∧
      smpteFormat s' = smpteFormat s ∧ smpteOffset s' = smpteOffset s ∧
      match samplerData s, samplerData s' with
      | Some d, Some d' => same_array h h' d d'
      | None, None => True
      | _, _ => False
      end
  | _, _ => c' = c
  end.

(** The first twelve bytes of a file of [fileLength] bytes. *)
Definition header_bytes (fileLength : Z) : list byte :=
  reverse (bytes_of_u32 ChunkTagsBE.RIFF) ++ bytes_of_u32 (fileLength - 8) ++
  reverse (bytes_of_u32 ChunkTagsBE.WAVE).

(** The format chunk that the 16 bytes [pack] writes for [f] hold: every
    number through the ToUint16 or ToUint32 of its field. *)
Definition FormatChunk_stored (f : FormatChunk) : FormatChunk :=
  mkFormatChunk (compressionCode f `mod` 65536) (channelCount f `mod` 65536)
    (sampleRate f `mod` 4294967296) (avgBytesPerSecond f `mod` 4294967296)
    (blockAlign f `mod` 65536) (sigBitsPerSample f `mod` 65536)
    (extraFormatBytes f).

(** [a] is a view of the buffer [b], inside its [size] bytes. *)
Definition array_in (b : ArrayBuffer) (size : Z) (a : Uint8Array) : Prop :=
  ta_buffer a = b ∧ 0 ≤ ta_byteOffset a ∧ 0 ≤ ta_length a ∧
  ta_byteOffset a + ta_length a ≤ size.

Definition view_in (b : ArrayBuffer) (size : Z) (v : DataView) : Prop :=
  dv_buffer v = b ∧ 0 ≤ dv_byteOffset v ∧ 0 ≤ dv_byteLength v ∧
  dv_byteOffset v + dv_byteLength v ≤ size.

(** The payloads of a chunk and of the chunks inside it. *)
Fixpoint chunk_arrays (c : Chunk) : list Uint8Array :=
  match c with
  | CUnknown _ data | CData data => [data]
  | CFormat f => option_list (extraFormatBytes f)
  | CSample s => option_list (samplerData s)
  | CCue _ | CLabl _ _ => []
  | CAdtl chunks =>
      (fix items (cs : list Chunk) : list Uint8Array :=
         match cs with
         | [] => []
         | c :: cs' => chunk_arrays c ++ items cs'
         end) chunks
  | CList body => chunk_arrays body
  end.

Definition chunk_in (b : ArrayBuffer) (size : Z) (c : Chunk) : Prop :=
  Forall (array_in b size) (chunk_arrays c).

(** A computation that only reads [h]: it returns a value that is [P], or
    throws a [RangeError]. *)
Definition reads_in {A} (h : Heap) (P : A → Prop) (m : M A) : Prop :=
  match m h with
  | (Normal a, h') => h' = h ∧ P a
  | (Throw e, h') => h' = h ∧ e = RangeError
  end.

(** [h'] is [h] with other bytes, at most, from offset [lo] on in buffer [b]. *)
Definition same_but (b : ArrayBuffer) (lo : Z) (h h' : Heap) : Prop :=
  length h' = length h ∧
  ∀ b' bs, h !! b' = Some bs →
    ∃ bs', h' !! b' = Some bs' ∧ length bs' = length bs ∧
           (b' ≠ b → bs' = bs) ∧ take (Z.to_nat lo) bs' = take (Z.to_nat lo) bs.

(** A computation that writes to buffer [b] only, from offset [lo] on, and
    whose result, if it has one, is [P]. *)
Definition writes_from {A} (b : ArrayBuffer) (lo : Z) (P : A → Prop) (m : M A) : Prop :=
  ∀ h, same_but b lo h (m h).2 ∧ ∀ a, (m h).1 = Normal a → P a.

(** A view of buffer [b] that starts at [lo] or after it. *)
Definition view_from (b : ArrayBuffer) (lo : Z) (v : DataView) : Prop :=
  dv_buffer v = b ∧ lo ≤ dv_byteOffset v.

(** A string of ASCII characters without U+0000. *)
Definition ascii_text (s : JsString) : Prop := Forall (λ u, 1 ≤ u < 128) s.

(** A label chunk whose cue fits its field and whose label is such a
    string. *)
Definition label_ok (c : Chunk) : Prop :=
  match c with
  | CLabl cueId cueLabel => is_u32 cueId ∧ ascii_text cueLabel
  | _ => False
  end.

(** A list chunk whose body is an [adtl] list of such labels. *)
Definition labels_list (c : Chunk) : Prop :=
  match c with
  | CList (CAdtl items) => Forall label_ok items
  | _ => False
  end.

(** [m] puts the bytes [d] after the bytes [p], if after [d] there is room
    for [ahead] bytes more. *)
Definition appends_ahead (ahead : nat) (m : M unit) (h : Heap) (p d : list byte) : Prop :=
  ∀ n, (length d + ahead ≤ n)%nat →
    m (writing h p n) = (Normal (), writing h (p ++ d) (n - length d)).

(** [pack] of [c] into a view of [length()] bytes at the end of what is
    written appends the body of [c], which is [length()] bytes long, if
    after it there is room for [ahead] bytes more. *)
Definition packs (h : Heap) (ahead : nat) (c : Chunk) : Prop :=
  chunk_length c = Normal (Z.of_nat (length (body_bytes h c))) ∧
  ∀ p, appends_ahead ahead
         (chunk_pack c (next_view h p (Z.of_nat (length (body_bytes h c)))))
         h p (body_bytes h c).

(** The room [pack] needs after its view: a list chunk asks for 4 bytes. *)
Definition slack (c : Chunk) : nat :=
  match c with CList _ => 4%nat | _ => 0%nat end.

(** The room the last of the chunks [cs] needs after it. *)
Definition ahead (cs : list Chunk) : nat :=
  match last cs with Some c => slack c | None => 0%nat end.

(** [unpack] of the class that [decode] takes for the tag of [c], on the
    body of [c] in a file, gives [c] back, with views of the file for its
    payloads. *)
Definition unpacks (h : Heap) (c : Chunk) : Prop :=
  is_u32 (chunk_tag c) ∧
  ∀ pre post,
    Z.of_nat (length (body_bytes h c)) < 4294967296 →
    unpack (registry_lookup Wave_chunkRegistry (chunk_tag c))
      (mkDataView (length h) (Z.of_nat (length pre)) (Z.of_nat (length (body_bytes h c))))
      (chunk_tag c) (h ++ [pre ++ body_bytes h c ++ post])
    = (Normal (decoded (length h) (Z.of_nat (length pre)) c),
       h ++ [pre ++ body_bytes h c ++ post]).

(** An item of an [adtl] list in a file, under a tag and with the bytes of
    its body: tag, length, body, and a zero byte after a body of odd
    length. *)
Definition unknown_item_bytes (item : Z * list byte) : list byte :=
  reverse (bytes_of_u32 item.1) ++ bytes_of_u32 (Z.of_nat (length item.2)) ++
  item.2 ++ pad_bytes (Z.of_nat (length item.2)).

(** An item that [ListChunk_ADTL.unpack] has no class for. *)
Definition unknown_item (item : Z * list byte) : Prop :=
  is_u32 item.1 ∧ ListChunk_ADTL_chunkRegistry !! item.1 = None.

(** A list chunk of 9 bytes at offset 2 of a buffer: the body tag [JUNK]
    and five bytes; and a buffer to pack into. *)
Definition junk_list_file : list byte :=
  [x00; x00; "J"; "U"; "N"; "K"; x01; x02; x03; x04; x05; x00]%byte.
Definition junk_list_view : DataView := mkDataView 0%nat 2 9.
Definition junk_list_heap : Heap := [junk_list_file; replicate 10 xff].

(** Two items of an [adtl] list under the tag [note]: one with the body 41,
    one without a body. *)
Definition note_items : list (Z * list byte) := [(note_tag, [x41]); (note_tag, [])].
Definition note_items_heap : Heap := [concat (unknown_item_bytes <$> note_items)].

(** An unknown chunk among the chunks of a list, in the words of the
    source: the tag, and a view that shows the bytes of the body. *)
Definition holds_item (h : Heap) (item : Z * list byte) (c : Chunk) : Prop :=
  ∃ data, c = CUnknown item.1 data ∧ shows h data item.2.

(** * Properties *)

(** ** Bytes *)

Lemma Z_of_byte_range (b : byte) : 0 ≤ Z_of_byte b < 256.
Proof.
  unfold Z_of_byte. pose proof (Byte.to_N_bounded b). lia.
Qed.

Lemma Z_of_byte_inj (a b : byte) : Z_of_byte a = Z_of_byte b → a = b.
Proof.
  unfold Z_of_byte. intros H%(inj Z.of_N).
  pose proof (Byte.of_to_N a) as Ha. rewrite H, Byte.of_to_N in Ha. congruence.
Qed.

Lemma uint_of_bytes_range (bs : list byte) :
  0 ≤ uint_of_bytes bs < 256 ^ Z.of_nat (length bs).
Proof.
  induction bs as [|b bs IH]; simpl uint_of_bytes; [simpl; lia|].
  rewrite length_cons, Nat2Z.inj_succ, Z.pow_succ_r by lia.
  pose proof (Z_of_byte_range b). lia.
Qed.

(** Reading is injective on sequences of one length. *)
Lemma uint_of_bytes_inj (xs ys : list byte) :
  length xs = length ys → uint_of_bytes xs = uint_of_bytes ys → xs = ys.
Proof.
  revert ys. induction xs as [|x xs IH]; intros [|y ys] Hlen; simpl in *; try done.
  intros H. pose proof (Z_of_byte_range x). pose proof (Z_of_byte_range y).
  assert (Z_of_byte x = Z_of_byte y ∧ uint_of_bytes xs = uint_of_bytes ys) as [Hb Hr] by lia.
  f_equal; [by apply Z_of_byte_inj | apply IH; [lia | done]].
Qed.

(** ** The monad *)

Lemma bind_Normal {A B} (m : M A) (f : A → M B) h a h' :
  m h = (Normal a, h') → bind m f h = f a h'.
Proof. unfold bind. by intros ->. Qed.

Lemma bind_Throw {A B} (m : M A) (f : A → M B) h e h' :
  m h = (Throw e, h') → bind m f h = (Throw e, h').
Proof. unfold bind. by intros ->. Qed.

(** ** Reading from a view *)

Lemma ArrayBuffer_byteLength_Some h b bs :
  h !! b = Some bs → ArrayBuffer_byteLength b h = (Normal (Z.of_nat (length bs)), h).
Proof. unfold ArrayBuffer_byteLength. by intros ->. Qed.

Lemma readBytes_Some h b bs off len :
  h !! b = Some bs → 0 ≤ off → 0 ≤ len → off + len ≤ Z.of_nat (length bs) →
  readBytes b off len h = (Normal (take (Z.to_nat len) (drop (Z.to_nat off) bs)), h).
Proof.
  intros Hb ???. unfold readBytes. rewrite Hb. by rewrite decide_True by lia.
Qed.

(** A read never changes the heap. *)
Lemma readBytes_heap h b off len : (readBytes b off len h).2 = h.
Proof. unfold readBytes. destruct (h !! b); [case_decide|]; done. Qed.

Lemma getUint_heap n v idx le h : (getUint n v idx le h).2 = h.
Proof.
  unfold getUint. case_decide; [done|]. unfold bind.
  pose proof (readBytes_heap h (dv_buffer v) (dv_byteOffset v + idx) n) as Hh.
  destruct (readBytes _ _ _ h) as [[bs|e] h']; simpl in *; by subst.
Qed.

Lemma getUint_Some n v idx le h bs :
  h !! dv_buffer v = Some bs →
  0 ≤ dv_byteOffset v → 0 ≤ idx → 0 ≤ n → idx + n ≤ dv_byteLength v →
  dv_byteOffset v + dv_byteLength v ≤ Z.of_nat (length bs) →
  getUint n v idx le h =
    (Normal (uint_of_bytes
       (endian le (take (Z.to_nat n) (drop (Z.to_nat (dv_byteOffset v + idx)) bs)))), h).
Proof.
  intros Hb ?????. unfold getUint. rewrite decide_False by lia.
  erewrite bind_Normal; [done|]. apply readBytes_Some; [done|lia..].
Qed.

Lemma getUint_RangeError n v idx le h :
  idx < 0 ∨ dv_byteLength v < idx + n → getUint n v idx le h = (Throw RangeError, h).
Proof. intros. unfold getUint. by rewrite decide_True. Qed.

(** ** Wave.removeChunk *)

(** C8. [removeChunk(t)] returns the first chunk of [w.chunks] whose tag is
    [t] (every chunk before it has another tag), or [undefined] when no
    chunk has the tag, and the wave after the call is the wave before it:
    the same chunks in the same order, none removed. *)
Theorem Wave_removeChunk_keeps_chunks (w : Wave) (t : Z) :
  (Wave_removeChunk w t).2 = w ∧
  match (Wave_removeChunk w t).1 with
  | Some c =>
      ∃ before after, chunks w = before ++ c :: after ∧ chunk_tag c = t ∧
        Forall (λ c', chunk_tag c' ≠ t) before
  | None => Forall (λ c', chunk_tag c' ≠ t) (chunks w)
  end.
Proof.
  split; [done|]. unfold Wave_removeChunk. simpl.
  induction (chunks w) as [|c cs IH]; simpl; [constructor|].
  case_decide as Htag.
  - exists [], cs. by repeat split.
  - destruct (removeChunk_loop cs t) as [c'|].
    + destruct IH as (before & after & -> & ? & ?).
      exists (c :: before), after. repeat split; [done|]. by constructor.
    + by constructor.
Qed.

(** ** Wave.decode: the checks on the header *)

Lemma new_DataView_whole h b bs :
  h !! b = Some bs →
  new_DataView b 0 None h = (Normal (mkDataView b 0 (Z.of_nat (length bs))), h).
Proof.
  intros Hb. unfold new_DataView.
  erewrite bind_Normal by (by apply ArrayBuffer_byteLength_Some).
  rewrite decide_False by lia. unfold ret. do 3 f_equal. lia.
Qed.

(** A big-endian read of four bytes that gives the value of [tag] has read
    the four bytes of [tag]. *)
Lemma tag_of_bytes (bs tag : list byte) :
  length bs = 4%nat → length tag = 4%nat →
  uint_of_bytes (endian false bs) = uint_of_bytes (reverse tag) → bs = tag.
Proof.
  intros Hbs Htag H. apply (inj reverse), uint_of_bytes_inj; [|done].
  by rewrite !length_reverse, Hbs, Htag.
Qed.

(** C9. [Wave.decode] throws, without a result and without touching the
    heap, when the first four bytes of the buffer are not [RIFF], when
    bytes 8 to 11 are not [WAVE], or when the little-endian length at
    offset 4 plus 8 is more than the length of the buffer. *)
Theorem Wave_decode_rejects (h : Heap) (buffer : ArrayBuffer) (bs : list byte) :
  h !! buffer = Some bs →
  take 4 bs ≠ ["R"; "I"; "F"; "F"]%byte ∨
  take 4 (drop 8 bs) ≠ ["W"; "A"; "V"; "E"]%byte ∨
  Z.of_nat (length bs) < uint_of_bytes (take 4 (drop 4 bs)) + 8 →
  ∃ e, Wave_decode buffer h = (Throw e, h).
Proof.
  intros Hb Hbad. unfold Wave_decode.
  erewrite bind_Normal by (by apply new_DataView_whole).
  set (file := mkDataView buffer 0 (Z.of_nat (length bs))).
  (* the RIFF tag *)
  destruct (decide (Z.of_nat (length bs) < 4)) as [Hshort|Hlen4].
  { exists RangeError. apply bind_Throw, getUint_RangeError. simpl. lia. }
  erewrite bind_Normal by (apply getUint_Some with (bs := bs); simpl; (done || lia)).
  case_decide as Hriff; [by eexists|].
  apply (tag_of_bytes _ ["R"; "I"; "F"; "F"]%byte) in Hriff;
    [|rewrite length_take, length_drop; cbn [file dv_byteOffset]; lia|done].
  (* the WAVE tag *)
  destruct (decide (Z.of_nat (length bs) < 12)) as [Hshort|Hlen12].
  { exists RangeError. apply bind_Throw, getUint_RangeError. simpl. lia. }
  erewrite bind_Normal by (apply getUint_Some with (bs := bs); simpl; (done || lia)).
  change (Z.to_nat (dv_byteOffset file + 8)) with 8%nat. change (Z.to_nat 4) with 4%nat.
  case_decide as Hwave; [by eexists|].
  apply (tag_of_bytes _ ["W"; "A"; "V"; "E"]%byte) in Hwave;
    [|rewrite length_take, length_drop; cbn [file dv_byteOffset]; lia|done].
  (* the declared length *)
  erewrite bind_Normal by (apply getUint_Some with (bs := bs); simpl; (done || lia)).
  change (Z.to_nat (dv_byteOffset file + 4)) with 4%nat. change (Z.to_nat 4) with 4%nat.
  erewrite bind_Normal by (by apply ArrayBuffer_byteLength_Some).
  case_decide as Hlen; [by eexists|]. unfold endian in Hlen.
  destruct Hbad as [?|[?|?]]; [done|done|lia].
Qed.

(** The smallest input of each kind: a buffer that does not start with
    [RIFF]. *)
Lemma Wave_decode_rejects_witness :
  ∃ e, Wave_decode 0%nat [["J"; "U"; "N"; "K"; "004"; "000"; "000"; "000";
                           "W"; "A"; "V"; "E"]%byte]
       = (Throw e, [["J"; "U"; "N"; "K"; "004"; "000"; "000"; "000";
                     "W"; "A"; "V"; "E"]%byte]).
Proof.
  apply (Wave_decode_rejects _ 0%nat
           ["J"; "U"; "N"; "K"; "004"; "000"; "000"; "000"; "W"; "A"; "V"; "E"]%byte).
  - reflexivity.
  - left. simpl. discriminate.
Defined.

(** ** FormatChunk *)

Lemma new_TypedArray_Some h b bs size off len :
  h !! b = Some bs → 0 ≤ off → off `mod` size = 0 → 0 ≤ len →
  off + len * size ≤ Z.of_nat (length bs) →
  new_TypedArray size b off len h = (Normal (mkTypedArray b off len), h).
Proof.
  intros Hb ????. unfold new_TypedArray.
  erewrite bind_Normal by (by apply ArrayBuffer_byteLength_Some).
  rewrite decide_False by lia. by rewrite decide_False by lia.
Qed.

Lemma new_Uint8Array_Some h b bs off len :
  h !! b = Some bs → 0 ≤ off → 0 ≤ len → off + len ≤ Z.of_nat (length bs) →
  new_Uint8Array b off len h = (Normal (mkTypedArray b off len), h).
Proof.
  intros. apply new_TypedArray_Some with (bs := bs); [done|lia|apply Z.mod_1_r|lia..].
Qed.

(** Steps over a [getUintN] whose bytes lie inside the view and the buffer [bs]. *)
Ltac step_getUint bs :=
  erewrite bind_Normal
    by (apply getUint_Some with (bs := bs); cbn [dv_buffer dv_byteOffset dv_byteLength];
        (done || lia)).

(** C6. A [FormatChunk] with [compressionCode <= 1] has length 16, and a
    body whose compression code is at most 1 decodes to a chunk without
    extension bytes. With [compressionCode > 1] and extension bytes of
    length N the length is 18 + N, and decoding reads the 16-bit length of
    the extension at offset 16 and takes that many bytes from offset 18 of
    the body as the extension (a view of the buffer the body lies in). *)
Theorem FormatChunk_length_and_extension
    (c : FormatChunk) (h : Heap) (from : DataView) (tag : Z) (bs : list byte)
    (Hbuffer : h !! dv_buffer from = Some bs)
    (Hoffset : 0 ≤ dv_byteOffset from)
    (Hinside : dv_byteOffset from + dv_byteLength from ≤ Z.of_nat (length bs))
    (Hfixed : 16 ≤ dv_byteLength from) :
  let body := drop (Z.to_nat (dv_byteOffset from)) bs in
  let code := uint_of_bytes (take 2 body) in
  let extensionLength := uint_of_bytes (take 2 (drop 16 body)) in
  (compressionCode c ≤ 1 → FormatChunk_length c = Normal 16) ∧
  (∀ e, 1 < compressionCode c → extraFormatBytes c = Some e →
        FormatChunk_length c = Normal (18 + ta_length e)) ∧
  (code ≤ 1 →
     ∃ c', FormatChunk_unpack from tag h = (Normal (CFormat c'), h) ∧
           compressionCode c' = code ∧ extraFormatBytes c' = None) ∧
  (1 < code → 18 ≤ dv_byteLength from →
     dv_byteOffset from + 18 + extensionLength ≤ Z.of_nat (length bs) →
     ∃ c', FormatChunk_unpack from tag h = (Normal (CFormat c'), h) ∧
           compressionCode c' = code ∧
           extraFormatBytes c' =
             Some (mkTypedArray (dv_buffer from) (dv_byteOffset from + 18) extensionLength)).
Proof.
  intros body code extensionLength.
  assert (Hcode : getUint16 from 0 true h = (Normal code, h)).
  { unfold getUint16. erewrite getUint_Some by (done || lia).
    unfold code, body, endian. by rewrite Z.add_0_r. }
  repeat split.
  - intros Hle. unfold FormatChunk_length. by rewrite decide_True.
  - intros e Hgt He. unfold FormatChunk_length. rewrite decide_False by lia. by rewrite He.
  - intros Hle. unfold FormatChunk_unpack.
    erewrite bind_Normal by exact Hcode.
    rewrite decide_False by lia. erewrite bind_Normal by reflexivity.
    unfold getUint16, getUint32. do 5 step_getUint bs.
    by eexists.
  - intros Hgt Hlen18 Hext. unfold FormatChunk_unpack.
    erewrite bind_Normal by exact Hcode.
    rewrite decide_True by lia.
    assert (Hn : getUint16 from 16 true h = (Normal extensionLength, h)).
    { unfold getUint16. erewrite getUint_Some by (done || lia).
      unfold extensionLength, body, endian. rewrite drop_drop.
      by replace (Z.to_nat (dv_byteOffset from + 16))
        with (Z.to_nat (dv_byteOffset from) + 16)%nat by lia. }
    erewrite bind_Normal.
    2:{ erewrite bind_Normal by exact Hn.
        erewrite bind_Normal; [reflexivity|].
        apply new_Uint8Array_Some with (bs := bs); [done|lia| |lia].
        apply uint_of_bytes_range. }
    unfold getUint16, getUint32. do 5 step_getUint bs.
    by eexists.
Qed.

Lemma FormatChunk_length_and_extension_witness :
  (FormatChunk_length (mkFormatChunk 1 2 44100 176400 4 16 None) = Normal 16 ∧
   ∃ c', FormatChunk_unpack test_view ChunkTagsBE.FMT [test_data]
           = (Normal (CFormat c'), [test_data]) ∧
         compressionCode c' = 1 ∧ extraFormatBytes c' = None) ∧
  (FormatChunk_length
     (mkFormatChunk 2 2 44100 176400 4 16 (Some (mkTypedArray 0%nat 22 2))) = Normal 20 ∧
   ∃ c', FormatChunk_unpack test2_view ChunkTagsBE.FMT [test2_data]
           = (Normal (CFormat c'), [test2_data]) ∧
         compressionCode c' = 2 ∧
         extraFormatBytes c' = Some (mkTypedArray 0%nat 22 2)).
Proof.
  split.
  - destruct (FormatChunk_length_and_extension
                (mkFormatChunk 1 2 44100 176400 4 16 None)
                [test_data] test_view ChunkTagsBE.FMT test_data)
      as (Hlength & _ & Hunpack & _);
      [reflexivity | simpl; lia | simpl; lia | simpl; lia |].
    split; [apply Hlength; simpl; lia | apply Hunpack; vm_compute; discriminate].
  - destruct (FormatChunk_length_and_extension
                (mkFormatChunk 2 2 44100 176400 4 16 (Some (mkTypedArray 0%nat 22 2)))
                [test2_data] test2_view ChunkTagsBE.FMT test2_data)
      as (_ & Hlength & _ & Hunpack);
      [reflexivity | simpl; lia | simpl; lia | simpl; lia |].
    split.
    + apply (Hlength (mkTypedArray 0%nat 22 2)); [simpl; lia | reflexivity].
    + apply Hunpack; [vm_compute; reflexivity | simpl; lia | vm_compute; discriminate].
Defined.

(** ** UnknownChunk *)

Lemma writeBytes_Some h b bs off data :
  h !! b = Some bs → 0 ≤ off → off + Z.of_nat (length data) ≤ Z.of_nat (length bs) →
  writeBytes b off data h = (Normal (), <[b := splice bs (Z.to_nat off) data]> h).
Proof.
  intros Hb ??. unfold writeBytes. rewrite Hb. by rewrite decide_True by lia.
Qed.

Lemma length_splice bs off data :
  (off + length data ≤ length bs)%nat → length (splice bs off data) = length bs.
Proof.
  intros. unfold splice. rewrite !length_app, length_take, length_drop. lia.
Qed.

Lemma take_drop_splice bs off data :
  (off + length data ≤ length bs)%nat →
  take (length data) (drop off (splice bs off data)) = data.
Proof.
  intros. unfold splice.
  rewrite drop_app_length' by (rewrite length_take; lia).
  by rewrite take_app_length.
Qed.

(** What was written is what is read back from the same place. *)
Lemma readBytes_after_write h b bs off data :
  h !! b = Some bs → 0 ≤ off → off + Z.of_nat (length data) ≤ Z.of_nat (length bs) →
  let h' := <[b := splice bs (Z.to_nat off) data]> h in
  readBytes b off (Z.of_nat (length data)) h' = (Normal data, h').
Proof.
  intros Hb ?? h'.
  assert (Hb' : h' !! b = Some (splice bs (Z.to_nat off) data)).
  { apply list_lookup_insert_eq. by eapply lookup_lt_Some. }
  erewrite readBytes_Some; [| exact Hb' | lia | lia |].
  - by rewrite Nat2Z.id, take_drop_splice by lia.
  - rewrite length_splice; lia.
Qed.

(** X24. The class that a registry gives for a tag it does not hold is
    the fallback, [UnknownChunk]: its [unpack] on a view inside a buffer
    returns a chunk that holds the tag and shows the bytes of the view,
    and leaves the heap as it is; [length()] of the chunk is the length of
    the view, and [pack] of it into a view at least as long writes these
    bytes, each as it was, to the start of that view. This holds for
    every registry, so for the three of the source ([Wave_chunkRegistry],
    [ListChunk_chunkRegistry], [ListChunk_ADTL_chunkRegistry]). *)
Theorem UnknownChunk_round_trip
    (registry : gmap Z ChunkStatic) (tag : Z)
    (h : Heap) (from : DataView) (bs : list byte)
    (Hmiss : registry !! tag = None)
    (Hbuffer : h !! dv_buffer from = Some bs)
    (Hoffset : 0 ≤ dv_byteOffset from)
    (Hlength : 0 ≤ dv_byteLength from)
    (Hinside : dv_byteOffset from + dv_byteLength from ≤ Z.of_nat (length bs)) :
  let body := take (Z.to_nat (dv_byteLength from)) (drop (Z.to_nat (dv_byteOffset from)) bs) in
  ∃ data,
    unpack (registry_lookup registry tag) from tag h = (Normal (CUnknown tag data), h) ∧
    chunk_tag (CUnknown tag data) = tag ∧
    Uint8Array_bytes data h = (Normal body, h) ∧
    chunk_length (CUnknown tag data) = Normal (Z.of_nat (length body)) ∧
    ∀ (h' : Heap) (into : DataView) (bs' : list byte),
      Uint8Array_bytes data h' = (Normal body, h') →
      h' !! dv_buffer into = Some bs' →
      0 ≤ dv_byteOffset into →
      Z.of_nat (length body) ≤ dv_byteLength into →
      dv_byteOffset into + dv_byteLength into ≤ Z.of_nat (length bs') →
      ∃ h'', chunk_pack (CUnknown tag data) into h' = (Normal (), h'') ∧
             readBytes (dv_buffer into) (dv_byteOffset into) (Z.of_nat (length body)) h''
               = (Normal body, h'').
Proof.
  intros body.
  assert (Hbody : Z.of_nat (length body) = dv_byteLength from).
  { unfold body. rewrite length_take, length_drop. lia. }
  exists (mkTypedArray (dv_buffer from) (dv_byteOffset from) (dv_byteLength from)).
  split; [|split; [done|split; [|split]]].
  - unfold registry_lookup. rewrite Hmiss. simpl. unfold UnknownChunk_unpack.
    by erewrite bind_Normal by (by apply new_Uint8Array_Some with (bs := bs)).
  - unfold Uint8Array_bytes. simpl. by apply readBytes_Some.
  - simpl. unfold UnknownChunk_length. simpl. by rewrite Hbody.
  - intros h' into bs' Hdata Hinto ? ? ?.
    exists (<[dv_buffer into := splice bs' (Z.to_nat (dv_byteOffset into)) body]> h').
    split.
    + simpl. unfold UnknownChunk_pack.
      erewrite bind_Normal by (apply new_Uint8Array_Some with (bs := bs'); (done || lia)).
      unfold Uint8Array_set. simpl. rewrite decide_False by lia.
      erewrite bind_Normal by exact Hdata.
      rewrite Z.add_0_r. apply writeBytes_Some; [done|lia..].
    + apply readBytes_after_write; [done|lia..].
Qed.

Lemma UnknownChunk_round_trip_witness :
  junk_round_trip Wave_chunkRegistry ∧
  junk_round_trip ListChunk_chunkRegistry ∧
  junk_round_trip ListChunk_ADTL_chunkRegistry.
Proof.
  assert (H : ∀ registry, registry !! junk_tag = None → junk_round_trip registry).
  { intros registry Hmiss.
    destruct (UnknownChunk_round_trip registry junk_tag junk_heap junk_view junk_file
                Hmiss eq_refl) as (data & Hunpack & _ & Hbytes & _ & Hpack);
      [simpl; lia | simpl; lia | simpl; lia |].
    destruct (Hpack junk_heap (mkDataView 1%nat 0 3) (replicate 4 x00) Hbytes eq_refl)
      as (h'' & Hpacked & Hread); [simpl; lia | simpl; lia | simpl; lia |].
    by exists data, h''. }
  split; [|split]; apply H; vm_compute; reflexivity.
Defined.

(** ** DataChunk.reinterpret *)

(** C10, as stated, fails: for 8 bits the result is the payload itself, a
    [Uint8Array], whose elements are unsigned; for 16 bits the view of a
    payload of three bytes has one element, two bytes, not three; and a
    payload at an odd offset has no 16-bit view, the call throws a
    [RangeError]. *)
Lemma DataChunk_reinterpret_not_as_specified :
  ¬ reinterpret_as_specified three_bytes_heap three_bytes 8 ∧
  ¬ reinterpret_as_specified three_bytes_heap three_bytes 16 ∧
  ¬ reinterpret_as_specified three_bytes_heap two_bytes_at_1 16.
Proof.
  repeat split; unfold reinterpret_as_specified; intros H;
    specialize (H (λ _, EmptyString)); simpl in H.
  - destruct H as (v & Hv & Hsigned & _). vm_compute in Hv. by simplify_eq.
  - destruct H as (v & Hv & _ & _ & Hlen & _). vm_compute in Hv. by simplify_eq.
  - destruct H as (v & Hv & _). vm_compute in Hv. by simplify_eq.
Qed.

(** C10, amended. [reinterpret(8)] returns the payload array itself (8-bit
    elements, unsigned). [reinterpret(16)] and [reinterpret(32)] return a
    view of signed 16- and 32-bit integers on the payload's buffer at the
    payload's offset, with [floor(byteLength / 2)] and
    [floor(byteLength / 4)] elements: the bytes of the payload up to its
    last whole element, when the offset of the payload is a multiple of the
    element size. Any other [bits] throws the [Error] "Cannot reinterpret
    to bit depth <bits>!", with [bits] as [Number::toString] prints it. No
    call changes the heap, so none changes the chunk. *)
Theorem DataChunk_reinterpret_views
    (Number_toString : Z → string)
    (h : Heap) (data : Uint8Array) (bits : Z) (bs : list byte)
    (Hbuffer : h !! ta_buffer data = Some bs)
    (Hoffset : 0 ≤ ta_byteOffset data)
    (Hlength : 0 ≤ ta_length data)
    (Hinside : ta_byteOffset data + ta_length data ≤ Z.of_nat (length bs)) :
  (DataChunk_reinterpret Number_toString data bits h).2 = h ∧
  (bits = 8 → DataChunk_reinterpret Number_toString data bits h = (Normal (AsUint8Array data), h)) ∧
  (∀ size, (bits = 16 ∧ size = 2) ∨ (bits = 32 ∧ size = 4) →
     ta_byteOffset data `mod` size = 0 →
     ∃ v, DataChunk_reinterpret Number_toString data bits h = (Normal v, h) ∧
          view_signed v = true ∧ view_bits v = bits ∧
          view_array v =
            mkTypedArray (ta_buffer data) (ta_byteOffset data) (ta_length data `div` size) ∧
          view_byteLength v = ta_length data - ta_length data `mod` size) ∧
  (bits ≠ 8 → bits ≠ 16 → bits ≠ 32 →
     DataChunk_reinterpret Number_toString data bits h =
       (Throw (Error ("Cannot reinterpret to bit depth " +:+ Number_toString bits +:+ "!")), h)).
Proof.
  assert (Hnew : ∀ size, 0 < size →
            (new_TypedArray size (ta_buffer data) (ta_byteOffset data)
               (ta_length data `div` size) h).2 = h).
  { intros size Hsize. unfold new_TypedArray.
    erewrite bind_Normal by (by apply ArrayBuffer_byteLength_Some).
    repeat case_decide; done. }
  split; [|split; [|split]].
  - unfold DataChunk_reinterpret. repeat case_decide; try done.
    + unfold bind. specialize (Hnew 2 ltac:(lia)).
      by destruct (new_TypedArray 2 _ _ _ h) as [[a|e] h'].
    + unfold bind. specialize (Hnew 4 ltac:(lia)).
      by destruct (new_TypedArray 4 _ _ _ h) as [[a|e] h'].
  - intros ->. done.
  - intros size Hsize Haligned. unfold DataChunk_reinterpret.
    destruct Hsize as [[-> ->]|[-> ->]]; simpl;
      (erewrite bind_Normal
         by (apply new_TypedArray_Some with (bs := bs);
             (done || (Z.div_mod_to_equations; lia))));
      eexists; (split; [reflexivity|]); repeat split;
      unfold view_byteLength; simpl; Z.div_mod_to_equations; lia.
  - intros ???. unfold DataChunk_reinterpret. by rewrite !decide_False.
Qed.

(** On a payload of three bytes, for 8, 16 and 24 bits; the digits of 24
    are its decimal digits. *)
Lemma DataChunk_reinterpret_views_witness :
  DataChunk_reinterpret pretty three_bytes 8 three_bytes_heap
    = (Normal (AsUint8Array three_bytes), three_bytes_heap) ∧
  (∃ v, DataChunk_reinterpret pretty three_bytes 16 three_bytes_heap
          = (Normal v, three_bytes_heap) ∧
        view_signed v = true ∧ view_bits v = 16 ∧
        view_array v = mkTypedArray 0%nat 0 1 ∧ view_byteLength v = 2) ∧
  DataChunk_reinterpret pretty three_bytes 24 three_bytes_heap
    = (Throw (Error "Cannot reinterpret to bit depth 24!"), three_bytes_heap).
Proof.
  assert (H : ∀ bits, _) by
    (intros bits;
     exact (DataChunk_reinterpret_views pretty three_bytes_heap three_bytes bits
              [x01; x02; x03; x04] eq_refl
              ltac:(simpl; lia) ltac:(simpl; lia) ltac:(simpl; lia))).
  split; [|split].
  - destruct (H 8) as (_ & H8 & _). by apply H8.
  - destruct (H 16) as (_ & _ & H16 & _).
    destruct (H16 2) as (v & ? & ? & ? & ? & ?); [left; done | reflexivity |].
    by exists v.
  - destruct (H 24) as (_ & _ & _ & H24). by apply H24.
Defined.

(** ** The loops have fuel enough *)

Lemma new_DataView_Normal b off n h v h' :
  new_DataView b off (Some n) h = (Normal v, h') →
  0 ≤ n ∧ v = mkDataView b off n ∧ h' = h.
Proof.
  unfold new_DataView, bind, ArrayBuffer_byteLength.
  destruct (h !! b); [|done]. repeat case_decide; try done.
  unfold ret. intros [= <- <-]. split; [lia|done].
Qed.

(** With fuel for the bytes that are left, the result does not depend on
    the fuel: the branch for no fuel is not taken. *)
Lemma decode_loop_fuel fuel1 fuel2 buffer file fileLength idx cs h :
  fileLength - idx ≤ Z.of_nat fuel1 → fileLength - idx ≤ Z.of_nat fuel2 →
  decode_loop fuel1 buffer file fileLength idx cs h
  = decode_loop fuel2 buffer file fileLength idx cs h.
Proof.
  revert fuel2 idx cs h.
  induction fuel1 as [|fuel1 IH]; intros [|fuel2] idx cs h H1 H2; simpl;
    case_decide; try done; try lia.
  unfold bind.
  destruct (getUint32 file (idx + 0) false h) as [[chunkTag|e] h1]; [|done].
  destruct (getUint32 file (idx + 4) true h1) as [[chunkLength|e] h2]; [|done].
  destruct (new_DataView buffer (idx + 8) (Some chunkLength) h2)
    as [[chunkView|e] h3] eqn:Hview; [|done].
  apply new_DataView_Normal in Hview as (Hlen & _ & _).
  destruct (unpack _ chunkView chunkTag h3) as [[chunk|e] h4]; [|done].
  apply IH; case_decide; lia.
Qed.

(** So the loop of [decode], run with the fuel [Wave_decode] gives it or
    more, obeys the equation of the [while] loop it stands for. *)
Lemma decode_loop_unfold fuel buffer file fileLength idx cs h :
  fileLength - idx ≤ Z.of_nat fuel →
  decode_loop fuel buffer file fileLength idx cs h =
  (if decide (idx < fileLength) then
     let* chunkTag := getUint32 file (idx + 0) false in
     let* chunkLength := getUint32 file (idx + 4) true in
     let idx := idx + 8 in
     let chunkType := registry_lookup Wave_chunkRegistry chunkTag in
     let* chunkView := new_DataView buffer idx (Some chunkLength) in
     let idx := idx + chunkLength in
     let* chunk := unpack chunkType chunkView chunkTag in
     let cs := cs ++ [chunk] in
     let idx := if decide (Z.land idx 1 ≠ 0) then idx + 1 else idx in
     decode_loop fuel buffer file fileLength idx cs
   else ret cs) h.
Proof.
  intros Hfuel.
  rewrite (decode_loop_fuel fuel (S fuel)) by lia. simpl.
  case_decide; [|done]. unfold bind.
  destruct (getUint32 file (idx + 0) false h) as [[chunkTag|e] h1]; [|done].
  destruct (getUint32 file (idx + 4) true h1) as [[chunkLength|e] h2]; [|done].
  destruct (new_DataView buffer (idx + 8) (Some chunkLength) h2)
    as [[chunkView|e] h3] eqn:Hview; [|done].
  apply new_DataView_Normal in Hview as (Hlen & _ & _).
  by destruct (unpack _ chunkView chunkTag h3) as [[chunk|e] h4].
Qed.

Lemma ListChunk_ADTL_unpack_loop_fuel fuel1 fuel2 from idx cs h :
  dv_byteLength from - idx ≤ Z.of_nat fuel1 → dv_byteLength from - idx ≤ Z.of_nat fuel2 →
  ListChunk_ADTL_unpack_loop fuel1 from idx cs h
  = ListChunk_ADTL_unpack_loop fuel2 from idx cs h.
Proof.
  revert fuel2 idx cs h.
  induction fuel1 as [|fuel1 IH]; intros [|fuel2] idx cs h H1 H2; simpl;
    case_decide; try done; try lia.
  unfold bind.
  destruct (getUint32 from idx false h) as [[chunkTag|e] h1]; [|done].
  destruct (getUint32 from (idx + 4) true h1) as [[chunkSize|e] h2]; [|done].
  destruct (new_DataView (dv_buffer from) (dv_byteOffset from + (idx + 8)) (Some chunkSize) h2)
    as [[chunkView|e] h3] eqn:Hview; [|done].
  apply new_DataView_Normal in Hview as (Hlen & _ & _).
  destruct (unpack _ chunkView chunkTag h3) as [[chunk|e] h4]; [|done].
  apply IH; case_decide; lia.
Qed.

Lemma ListChunk_ADTL_unpack_loop_unfold fuel from idx cs h :
  dv_byteLength from - idx ≤ Z.of_nat fuel →
  ListChunk_ADTL_unpack_loop fuel from idx cs h =
  (if decide (idx < dv_byteLength from) then
     let* chunkTag := getUint32 from idx false in
     let* chunkSize := getUint32 from (idx + 4) true in
     let idx := idx + 8 in
     let chunkType := registry_lookup ListChunk_ADTL_chunkRegistry chunkTag in
     let* chunkView :=
       new_DataView (dv_buffer from) (dv_byteOffset from + idx) (Some chunkSize) in
     let* chunk := unpack chunkType chunkView chunkTag in
     let cs := cs ++ [chunk] in
     let idx := idx + chunkSize in
     let idx := if decide (Z.land idx 1 ≠ 0) then idx + 1 else idx in
     ListChunk_ADTL_unpack_loop fuel from idx cs
   else ret cs) h.
Proof.
  intros Hfuel.
  rewrite (ListChunk_ADTL_unpack_loop_fuel fuel (S fuel)) by lia. simpl.
  case_decide; [|done]. unfold bind.
  destruct (getUint32 from idx false h) as [[chunkTag|e] h1]; [|done].
  destruct (getUint32 from (idx + 4) true h1) as [[chunkSize|e] h2]; [|done].
  destruct (new_DataView (dv_buffer from) (dv_byteOffset from + (idx + 8)) (Some chunkSize) h2)
    as [[chunkView|e] h3] eqn:Hview; [|done].
  apply new_DataView_Normal in Hview as (Hlen & _ & _).
  by destruct (unpack _ chunkView chunkTag h3) as [[chunk|e] h4].
Qed.

(** ** Where the code parts from its specification *)

(** *** ListChunk_ADTL_LABL.length *)

(** X5. On a label of ASCII characters the two agree: a code unit below
    128 is one byte of UTF-8, so [length()] is 4, the bytes of the label
    and 1, rounded up to even. *)
Lemma ListChunk_ADTL_LABL_length_ascii (cueLabel : JsString) :
  Forall (λ u, 0 ≤ u < 128) cueLabel →
  ListChunk_ADTL_LABL_length cueLabel = ListChunk_ADTL_LABL_length_specified cueLabel.
Proof.
  intros Hascii.
  assert (Hlen : length (utf8_encode cueLabel) = length cueLabel).
  { unfold utf8_encode.
    induction Hascii as [|u us Hu _ IH]; [done|].
    simpl scalar_values.
    unfold is_high_surrogate, is_low_surrogate.
    rewrite !bool_decide_eq_false_2 by lia.
    rewrite fmap_cons. simpl concat. rewrite length_app, IH.
    unfold utf8_encode_scalar. by rewrite decide_True by lia. }
  unfold ListChunk_ADTL_LABL_length, ListChunk_ADTL_LABL_length_specified, roundUpToEven.
  by rewrite Hlen.
Qed.

Lemma ListChunk_ADTL_LABL_length_ascii_witness :
  ListChunk_ADTL_LABL_length [97; 98; 99] = ListChunk_ADTL_LABL_length_specified [97; 98; 99].
Proof.
  apply (ListChunk_ADTL_LABL_length_ascii [97; 98; 99]).
  repeat constructor; lia.
Defined.

(** C5 (the code misses it). [length()] counts the UTF-16 code units of the
    label, not the bytes of its UTF-8 encoding: for the label "é" (U+00E9,
    one code unit, two bytes of UTF-8) it returns 6, where 4 + 2 + 1 rounded
    up to even is 8. *)
Theorem ListChunk_ADTL_LABL_length_counts_code_units :
  length (utf8_encode [233]) = 2%nat ∧
  ListChunk_ADTL_LABL_length [233] = 6 ∧
  ListChunk_ADTL_LABL_length_specified [233] = 8.
Proof. by vm_compute. Qed.

(** *** ListChunk_ADTL.pack *)

(** C3 (the code misses it). [ListChunk_ADTL.pack] writes tag, length and
    payload of every item, and no pad: after the payload of one byte of the
    first item, which ends at the odd offset 9, the header of the second
    item starts at offset 9. [ListChunk_ADTL.unpack] does step over a pad
    after an odd offset, looks for the second header at offset 10, and
    fails on these bytes. *)
Theorem ListChunk_ADTL_pack_writes_no_pad :
  let packed := chunk_pack two_notes (mkDataView 1%nat 0 17) two_notes_heap in
  chunk_length two_notes = Normal 17 ∧
  packed.1 = Normal () ∧
  packed.2 !! 1%nat = Some ["n"; "o"; "t"; "e"; x01; x00; x00; x00; "A";
                            "n"; "o"; "t"; "e"; x00; x00; x00; x00]%byte ∧
  (ListChunk_ADTL_unpack (mkDataView 1%nat 0 17) ChunkTagsBE.adtl packed.2).1
    = Throw RangeError.
Proof. vm_compute. repeat split. Qed.

(** *** Wave.encode *)

(** C4 (the code misses it). [encode] throws on a wave that ends with a
    label: [ListChunk_ADTL_LABL.pack] asks for a [Uint8Array] that starts 4
    bytes into its view and is as long as the whole view, 4 bytes more than
    the buffer has after the label. The lengths are in order: the file is
    to be 38 bytes long. *)
Theorem Wave_encode_throws_on_last_label :
  encode_fileLength (chunks labelled) 12 = Normal 38 ∧
  (Wave_encode labelled []).1 = Throw RangeError.
Proof. by vm_compute. Qed.

(** *** Wave.decode after Wave.encode *)

(** C1 (the code misses it). [decode(encode(w))] is not [w] on three waves.
    - [silence] loses its data chunk: the loop of [decode] runs while
      [idx < fileLength], where [fileLength] is the length field of the
      header, 8 less than the length of the file, so a last chunk without a
      body, whose header is the last 8 bytes, is not read.
    - [accented] comes back with the label "éé": [length()] of the label
      chunk counts code units, and the third "é" does not fit.
    - [noted] does not come back: [ListChunk_ADTL.pack] writes no pad after
      the first note, [ListChunk_ADTL.unpack] expects one, and [decode]
      throws. *)
Theorem Wave_decode_encode_not_identity :
  (length (chunks silence) = 2%nat ∧
   let encoded := Wave_encode silence silence_heap in
   ∃ file,
     encoded.1 = Normal file ∧
     (Wave_decode file encoded.2).1 = Normal (new_Wave [CFormat pcm_format])) ∧
  (let encoded := Wave_encode accented samples_heap in
   ∃ file,
     encoded.1 = Normal file ∧
     (Wave_decode file encoded.2).1
       = Normal (new_Wave [CList (CAdtl [CLabl 1 [233; 233]]);
                           CData (mkTypedArray 1%nat 48 4)])) ∧
  (let encoded := Wave_encode noted samples_heap in
   ∃ file,
     encoded.1 = Normal file ∧
     (Wave_decode file encoded.2).1 = Throw RangeError).
Proof.
  split; [split; [reflexivity|]|split]; intros encoded; exists 1%nat;
    split; vm_compute; reflexivity.
Qed.

(** C7 (the code misses it). [decode] does not give an [UnknownChunk] for
    every chunk under a tag without a class: of the file [junk_last_file],
    which is what [encode] writes for a format chunk and an [UnknownChunk]
    tagged [JUNK] with no bytes, it returns the format chunk alone. The
    loop of [decode] runs while [idx < fileLength], [fileLength] being the
    length field, 8 less than the length of the file, so the header of
    the last chunk, at 36 of 44 bytes, is not read (the defect of C1). The
    same chunk with one byte of body comes back as an [UnknownChunk] with
    the tag and a view of the byte. *)
Theorem Wave_decode_drops_last_unknown :
  Wave_chunkRegistry !! junk_tag = None ∧
  Wave_encode (new_Wave [CFormat pcm_format; CUnknown junk_tag (mkTypedArray 0%nat 0 0)])
    silence_heap
  = (Normal 1%nat, silence_heap ++ [junk_last_file]) ∧
  Wave_decode 0%nat [junk_last_file]
  = (Normal (new_Wave [CFormat pcm_format]), [junk_last_file]) ∧
  Wave_decode 0%nat [junk_byte_file]
  = (Normal (new_Wave [CFormat pcm_format; CUnknown junk_tag (mkTypedArray 0%nat 44 1)]),
     [junk_byte_file]).
Proof. split_and!; vm_compute; reflexivity. Qed.

(** C2 (the code misses it). For the 44 bytes [B] that [encode] gives for
    [silence], [decode(B).encode()] has 36 bytes: the header of the empty
    data chunk at the end of [B] is gone. For the bytes that [encode] gives
    for [noted], [decode] throws, and there is nothing to encode. *)
Theorem Wave_encode_decode_changes_bytes :
  (let encoded := Wave_encode silence silence_heap in
   ∃ B w B',
     encoded.1 = Normal B ∧
     Wave_decode B encoded.2 = (Normal w, encoded.2) ∧
     (Wave_encode w encoded.2).1 = Normal B' ∧
     let h' := (Wave_encode w encoded.2).2 in
     length <$> h' !! B = Some 44%nat ∧
     length <$> h' !! B' = Some 36%nat ∧
     drop 36 <$> h' !! B = Some ["d"; "a"; "t"; "a"; x00; x00; x00; x00]%byte) ∧
  (let encoded := Wave_encode noted samples_heap in
   ∃ B, encoded.1 = Normal B ∧ (Wave_decode B encoded.2).1 = Throw RangeError).
Proof.
  split; intros encoded.
  - exists 1%nat, (new_Wave [CFormat pcm_format]), 2%nat.
    repeat split; vm_compute; reflexivity.
  - exists 1%nat. split; vm_compute; reflexivity.
Qed.

(** ** The size of the file [encode] returns *)

Lemma keeps_lengths_ret {A} (a : A) : keeps_lengths (ret a).
Proof. done. Qed.

Lemma keeps_lengths_throw {A} e : keeps_lengths (@throw A e).
Proof. done. Qed.

Lemma keeps_lengths_liftC {A} (c : Completion A) : keeps_lengths (liftC c).
Proof. done. Qed.

Lemma keeps_lengths_bind {A B} (m : M A) (f : A → M B) :
  keeps_lengths m → (∀ a, keeps_lengths (f a)) → keeps_lengths (bind m f).
Proof.
  intros Hm Hf h. unfold bind. specialize (Hm h).
  destruct (m h) as [[a|e] h']; simpl in *; [|done].
  by rewrite Hf.
Qed.

Lemma keeps_lengths_readBytes b off len : keeps_lengths (readBytes b off len).
Proof. intros h. by rewrite readBytes_heap. Qed.

Lemma keeps_lengths_writeBytes b off data : keeps_lengths (writeBytes b off data).
Proof.
  intros h. unfold writeBytes. destruct (h !! b) as [bs|] eqn:Hb; [|done].
  case_decide; [|done]. cbn [snd].
  rewrite list_fmap_insert, length_splice by lia.
  apply list_insert_id. by rewrite list_lookup_fmap, Hb.
Qed.

Lemma keeps_lengths_byteLength b : keeps_lengths (ArrayBuffer_byteLength b).
Proof. intros h. unfold ArrayBuffer_byteLength. by destruct (h !! b). Qed.

Lemma keeps_lengths_new_DataView b off len : keeps_lengths (new_DataView b off len).
Proof.
  apply keeps_lengths_bind; [apply keeps_lengths_byteLength|].
  intros bufLen. destruct len; repeat case_decide; done.
Qed.

Lemma keeps_lengths_new_TypedArray size b off len :
  keeps_lengths (new_TypedArray size b off len).
Proof.
  apply keeps_lengths_bind; [apply keeps_lengths_byteLength|].
  intros bufLen. repeat case_decide; done.
Qed.

Lemma keeps_lengths_setUint n to_bytes v idx value le :
  keeps_lengths (setUint n to_bytes v idx value le).
Proof. unfold setUint. case_decide; [done|apply keeps_lengths_writeBytes]. Qed.

Lemma keeps_lengths_set target source offset :
  keeps_lengths (Uint8Array_set target source offset).
Proof.
  unfold Uint8Array_set. case_decide; [done|].
  apply keeps_lengths_bind; [apply keeps_lengths_readBytes|].
  intros. apply keeps_lengths_writeBytes.
Qed.

Create HintDb keeps_lengths.
#[local] Hint Resolve keeps_lengths_ret keeps_lengths_throw keeps_lengths_liftC
  keeps_lengths_byteLength keeps_lengths_readBytes keeps_lengths_writeBytes keeps_lengths_new_DataView
  keeps_lengths_new_TypedArray keeps_lengths_setUint keeps_lengths_set : keeps_lengths.

(** Steps through a sequence of binds whose parts keep the lengths. *)
Ltac keeps_lengths_steps :=
  repeat first
    [ solve [auto with keeps_lengths]
    | progress (unfold setUint16, setUint32, new_Uint8Array, TextEncoder_encodeInto)
    | apply keeps_lengths_bind; [|intros]
    | case_decide
    | match goal with |- keeps_lengths (match ?x with _ => _ end) => destruct x end ].

Lemma keeps_lengths_CueChunk_pack_loop cues into idx :
  keeps_lengths (CueChunk_pack_loop cues into idx).
Proof.
  revert idx. induction cues as [|c cues IH]; intros idx; simpl; [done|].
  apply keeps_lengths_bind; [unfold Cue_pack; keeps_lengths_steps|auto].
Qed.

Lemma keeps_lengths_SampleChunk_pack_loop ls into idx :
  keeps_lengths (SampleChunk_pack_loop ls into idx).
Proof.
  revert idx. induction ls as [|l ls IH]; intros idx; simpl; [done|].
  apply keeps_lengths_bind; [unfold SampleLoop_pack; keeps_lengths_steps|auto].
Qed.

#[local] Hint Resolve keeps_lengths_CueChunk_pack_loop
  keeps_lengths_SampleChunk_pack_loop : keeps_lengths.

(** [pack] writes into buffers that exist; it makes none and resizes none. *)
Lemma keeps_lengths_chunk_pack (c : Chunk) : ∀ into, keeps_lengths (chunk_pack c into).
Proof.
  induction c as [tag data|f|cues|s|cueId cueLabel|cs IH|body IH|data]
    using Chunk_nested_ind; intros into; simpl.
  - unfold UnknownChunk_pack. keeps_lengths_steps.
  - unfold FormatChunk_pack. keeps_lengths_steps.
  - unfold CueChunk_pack. keeps_lengths_steps.
  - unfold SampleChunk_pack. keeps_lengths_steps.
  - unfold ListChunk_ADTL_LABL_pack. keeps_lengths_steps.
  - generalize 0 as idx. induction IH as [|ch cs Hch _ IHcs]; intros idx; [done|].
    keeps_lengths_steps.
  - keeps_lengths_steps.
  - unfold DataChunk_pack. keeps_lengths_steps.
Qed.

Lemma keeps_lengths_encode_loop cs file idx : keeps_lengths (encode_loop cs file idx).
Proof.
  revert idx. induction cs as [|c cs IH]; intros idx; simpl; [done|].
  pose proof keeps_lengths_chunk_pack. keeps_lengths_steps.
Qed.

Lemma land_1_mod (x : Z) : Z.land x 1 = x `mod` 2.
Proof. change 1 with (Z.ones 1). by rewrite Z.land_ones by lia. Qed.

(** The first loop of [encode] sums the padded sizes: the running length
    stays even, so rounding the sum is rounding each part. *)
Lemma encode_fileLength_padded_size cs lengths fileLength :
  Forall2 (λ c l, chunk_length c = Normal l) cs lengths →
  fileLength `mod` 2 = 0 →
  encode_fileLength cs fileLength = Normal (fileLength + padded_size lengths).
Proof.
  intros Hlen. revert fileLength.
  induction Hlen as [|c l cs lengths Hc _ IH]; intros fileLength Heven; simpl.
  - f_equal. lia.
  - rewrite Hc. simpl. unfold roundUpToEven. rewrite !land_1_mod.
    repeat case_decide; rewrite IH; try (f_equal; lia);
      Z.div_mod_to_equations; lia.
Qed.

Lemma bind_Normal_inv {A B} (m : M A) (f : A → M B) h b h' :
  bind m f h = (Normal b, h') → ∃ a h1, m h = (Normal a, h1) ∧ f a h1 = (Normal b, h').
Proof.
  unfold bind. destruct (m h) as [[a|e] h1]; [|done]. intros. by exists a, h1.
Qed.

(** X4. When [encode] returns, whatever the chunks are, it returns a new
    buffer of 12 bytes plus, for every chunk, 8 bytes and its [length()],
    rounded up to even. *)
Lemma Wave_encode_byteLength w h buffer h' lengths :
  Wave_encode w h = (Normal buffer, h') →
  Forall2 (λ c l, chunk_length c = Normal l) (chunks w) lengths →
  buffer = length h ∧
  ∃ bs, h' !! buffer = Some bs ∧ Z.of_nat (length bs) = 12 + padded_size lengths.
Proof.
  intros Hencode Hlengths. unfold Wave_encode in Hencode.
  apply bind_Normal_inv in Hencode as (fileLength & h1 & HfileLength & Hencode).
  unfold liftC in HfileLength.
  rewrite (encode_fileLength_padded_size _ lengths) in HfileLength by done.
  injection HfileLength as <- <-.
  apply bind_Normal_inv in Hencode as (b & h1 & Hnew & Hencode).
  unfold new_ArrayBuffer in Hnew. case_decide as Hsize; [|done].
  injection Hnew as <- <-.
  set (fileLength := 12 + padded_size lengths) in *.
  set (h1 := h ++ [replicate (Z.to_nat fileLength) x00]) in *.
  assert (length <$> h' = length <$> h1 ∧ buffer = length h) as [Hkeeps ->].
  { pose proof keeps_lengths_encode_loop.
    apply bind_Normal_inv in Hencode as (file & h2 & Hfile & Hencode).
    pose proof (keeps_lengths_new_DataView (length h) 0 None h1) as H2.
    rewrite Hfile in H2. simpl in H2.
    repeat (apply bind_Normal_inv in Hencode as (? & ? & Hstep & Hencode);
            match type of Hstep with
            | ?m ?h0 = _ =>
                let K := fresh in
                assert (K : keeps_lengths m) by keeps_lengths_steps;
                specialize (K h0); rewrite Hstep in K; simpl in K; clear Hstep
            end).
    injection Hencode as <- <-. split; [congruence|done]. }
  split; [done|].
  assert (Hlookup : (length <$> h') !! length h = Some (Z.to_nat fileLength)).
  { rewrite Hkeeps. unfold h1. rewrite fmap_app, lookup_app_r by (by rewrite length_fmap).
    rewrite length_fmap, Nat.sub_diag. simpl. by rewrite length_replicate. }
  rewrite list_lookup_fmap in Hlookup.
  destruct (h' !! length h) as [bs|]; [|done].
  exists bs. split; [done|]. injection Hlookup as ->. lia.
Qed.

(** The wave without samples: 12 + 24 + 8 bytes. *)
Lemma Wave_encode_byteLength_witness :
  let encoded := Wave_encode silence silence_heap in
  1%nat = length silence_heap ∧
  ∃ bs, encoded.2 !! 1%nat = Some bs ∧ Z.of_nat (length bs) = 12 + padded_size [16; 0].
Proof.
  apply (Wave_encode_byteLength silence silence_heap 1%nat
           (Wave_encode silence silence_heap).2 [16; 0]).
  - by vm_compute.
  - by repeat constructor.
Defined.

(** ** Encoding and decoding plain chunks *)

Lemma Z_of_byte_of_Z (v : Z) : Z_of_byte (byte_of_Z v) = v `mod` 256.
Proof.
  unfold Z_of_byte, byte_of_Z.
  change 255 with (Z.ones 8). rewrite Z.land_ones by lia. change (2 ^ 8) with 256.
  pose proof (Z.mod_pos_bound v 256 ltac:(lia)) as Hrange.
  destruct (Byte.of_N (Z.to_N (v `mod` 256))) as [b|] eqn:Hb; simpl.
  - apply Byte.to_of_N in Hb. rewrite Hb. lia.
  - apply Byte.of_N_None_iff in Hb. lia.
Qed.

Lemma uint_of_bytes_u16 (v : Z) :
  0 ≤ v < 65536 → uint_of_bytes (bytes_of_u16 v) = v.
Proof.
  intros Hv. unfold bytes_of_u16. simpl uint_of_bytes.
  rewrite !Z_of_byte_of_Z, Z.shiftr_div_pow2 by lia.
  change (2 ^ 8) with 256. Z.div_mod_to_equations. lia.
Qed.

Lemma uint_of_bytes_u32 (v : Z) :
  0 ≤ v < 4294967296 → uint_of_bytes (bytes_of_u32 v) = v.
Proof.
  intros Hv. unfold bytes_of_u32. simpl uint_of_bytes.
  rewrite !Z_of_byte_of_Z, !Z.shiftr_div_pow2 by lia.
  change (2 ^ 8) with 256. change (2 ^ 16) with 65536. change (2 ^ 24) with 16777216.
  Z.div_mod_to_equations. lia.
Qed.

Lemma shows_length h a bs : shows h a bs → Z.of_nat (length bs) = ta_length a.
Proof.
  intros (buf & _ & ? & ? & ? & ->). rewrite length_take, length_drop. lia.
Qed.

Lemma shows_bytes h a bs : shows h a bs → Uint8Array_bytes a h = (Normal bs, h).
Proof.
  intros (buf & Hbuf & ? & ? & ? & ->). unfold Uint8Array_bytes.
  by apply readBytes_Some.
Qed.

Lemma shows_app h h' a bs : shows h a bs → shows (h ++ h') a bs.
Proof.
  intros (buf & Hbuf & ?). exists buf. split; [|done].
  by apply lookup_app_l_Some.
Qed.

Lemma writing_lookup h p n : writing h p n !! length h = Some (p ++ replicate n x00).
Proof. unfold writing. by rewrite list_lookup_middle. Qed.

Lemma writing_length h p n : length (writing h p n) = S (length h).
Proof. unfold writing. rewrite length_app. simpl. lia. Qed.

Lemma writeBytes_append h p d : appends (writeBytes (length h) (Z.of_nat (length p)) d) h p d.
Proof.
  intros n Hn.
  rewrite (writeBytes_Some _ _ (p ++ replicate n x00));
    [|apply writing_lookup|lia|rewrite length_app, length_replicate; lia].
  f_equal. unfold writing. rewrite insert_app_r_alt, Nat.sub_diag by lia. simpl.
  do 2 f_equal. unfold splice. rewrite Nat2Z.id.
  rewrite take_app_length, drop_app_add'  by done.
  rewrite drop_replicate, <- app_assoc. done.
Qed.

Lemma appends_bind m1 m2 h p d1 d2 :
  appends m1 h p d1 → appends m2 h (p ++ d1) d2 → appends (m1 ;;; m2) h p (d1 ++ d2).
Proof.
  intros H1 H2 n Hn. rewrite length_app in Hn.
  erewrite bind_Normal by (apply H1; lia).
  rewrite H2 by lia. rewrite length_app, app_assoc.
  by replace (n - length d1 - length d2)%nat with (n - (length d1 + length d2))%nat by lia.
Qed.

Lemma appends_ret h p : appends (ret ()) h p [].
Proof. intros n _. unfold ret. simpl. by rewrite app_nil_r, Nat.sub_0_r. Qed.

Lemma appends_bind_reads {A} (m : M A) (f : A → M unit) h p d size a :
  reads m h size a → (size ≤ length p + length d)%nat →
  appends (f a) h p d → appends (bind m f) h p d.
Proof.
  intros Hm Hsize Hf n Hn. erewrite bind_Normal by (apply Hm; lia). by apply Hf.
Qed.

Lemma length_endian le bs : length (endian le bs) = length bs.
Proof. destruct le; simpl; [done|apply length_reverse]. Qed.

Lemma setUint_appends k to_bytes v idx value le h p :
  dv_buffer v = length h →
  dv_byteOffset v + idx = Z.of_nat (length p) →
  0 ≤ idx → idx + k ≤ dv_byteLength v →
  appends (setUint k to_bytes v idx value le) h p (endian le (to_bytes value)).
Proof.
  intros Hbuf Hoff ??. unfold setUint. rewrite decide_False by lia.
  rewrite Hbuf, Hoff. apply writeBytes_append.
Qed.

Lemma setUint16_appends v idx value h p :
  dv_buffer v = length h → dv_byteOffset v + idx = Z.of_nat (length p) →
  0 ≤ idx → idx + 2 ≤ dv_byteLength v →
  appends (setUint16 v idx value true) h p (bytes_of_u16 value).
Proof. intros. by apply (setUint_appends 2 bytes_of_u16 v idx value true). Qed.

Lemma setUint32_appends v idx value h p :
  dv_buffer v = length h → dv_byteOffset v + idx = Z.of_nat (length p) →
  0 ≤ idx → idx + 4 ≤ dv_byteLength v →
  appends (setUint32 v idx value true) h p (bytes_of_u32 value).
Proof. intros. by apply (setUint_appends 4 bytes_of_u32 v idx value true). Qed.

Lemma setUint32_appends_be v idx value h p :
  dv_buffer v = length h → dv_byteOffset v + idx = Z.of_nat (length p) →
  0 ≤ idx → idx + 4 ≤ dv_byteLength v →
  appends (setUint32 v idx value false) h p (reverse (bytes_of_u32 value)).
Proof. intros. by apply (setUint_appends 4 bytes_of_u32 v idx value false). Qed.

Lemma new_DataView_reads h off len :
  0 ≤ off → 0 ≤ len →
  reads (new_DataView (length h) off (Some len)) h (Z.to_nat (off + len))
    (mkDataView (length h) off len).
Proof.
  intros ?? p n Hsize. unfold new_DataView.
  erewrite bind_Normal by (apply ArrayBuffer_byteLength_Some, writing_lookup).
  rewrite length_app, length_replicate.
  rewrite decide_False by lia. by rewrite decide_False by lia.
Qed.

Lemma new_Uint8Array_reads h off len :
  0 ≤ off → 0 ≤ len →
  reads (new_Uint8Array (length h) off len) h (Z.to_nat (off + len))
    (mkTypedArray (length h) off len).
Proof.
  intros ?? p n Hsize.
  apply new_Uint8Array_Some with (bs := p ++ replicate n x00);
    [apply writing_lookup|lia|lia|].
  rewrite length_app, length_replicate. lia.
Qed.

Lemma Uint8Array_set_appends h p target source offset bs :
  ta_buffer target = length h →
  shows h source bs →
  ta_byteOffset target + offset = Z.of_nat (length p) →
  0 ≤ offset → ta_length source + offset ≤ ta_length target →
  appends (Uint8Array_set target source offset) h p bs.
Proof.
  intros Hbuf Hsource Hoff ?? n Hn. unfold Uint8Array_set.
  rewrite decide_False by lia.
  erewrite bind_Normal by (by apply shows_bytes, shows_app).
  rewrite Hbuf, Hoff. by apply writeBytes_append.
Qed.

(** *** What [pack] writes *)

Lemma length_bytes_of_u16 v : length (bytes_of_u16 v) = 2%nat.
Proof. done. Qed.

Lemma length_bytes_of_u32 v : length (bytes_of_u32 v) = 4%nat.
Proof. done. Qed.

Lemma length_Cue_bytes c : length (Cue_bytes c) = 24%nat.
Proof. done. Qed.

Lemma length_SampleLoop_bytes l : length (SampleLoop_bytes l) = 24%nat.
Proof. done. Qed.

Lemma length_concat_24 {A} (f : A → list byte) (xs : list A) :
  (∀ x, length (f x) = 24%nat) → length (concat (f <$> xs)) = (length xs * 24)%nat.
Proof.
  intros Hf. induction xs as [|x xs IH]; [done|].
  rewrite fmap_cons. simpl concat. rewrite length_app, Hf, IH. simpl. lia.
Qed.

(** Lengths of the byte sequences above, for [lia]. *)
Ltac byte_lengths :=
  rewrite ?length_app, ?length_endian, ?length_reverse, ?length_bytes_of_u16,
    ?length_bytes_of_u32, ?length_Cue_bytes, ?length_SampleLoop_bytes in *.

Opaque bytes_of_u16 bytes_of_u32.

(** One [setUintN] at the end of what is written. *)
Ltac append_setUint :=
  lazymatch goal with
  | |- appends (setUint32 _ _ _ true) _ _ _ => apply setUint32_appends
  | |- appends (setUint32 _ _ _ false) _ _ _ => apply setUint32_appends_be
  | |- appends (setUint16 _ _ _ true) _ _ _ => apply setUint16_appends
  end;
  [ done | byte_lengths; simpl; lia | lia | simpl; lia ].

Ltac append_setUints :=
  repeat lazymatch goal with
    | |- appends (bind (setUint32 _ _ _ _) _) _ _ _ => apply appends_bind; [append_setUint|]
    | |- appends (bind (setUint16 _ _ _ _) _) _ _ _ => apply appends_bind; [append_setUint|]
    end.

Lemma Cue_pack_appends h p c (into : DataView) idx :
  dv_buffer into = length h → dv_byteOffset into + idx = Z.of_nat (length p) →
  0 ≤ idx → idx + 24 ≤ dv_byteLength into →
  appends (Cue_pack c into idx) h p (Cue_bytes c).
Proof.
  intros. unfold Cue_pack, Cue_bytes. append_setUints. append_setUint.
Qed.

Lemma SampleLoop_pack_appends h p l (into : DataView) idx :
  dv_buffer into = length h → dv_byteOffset into + idx = Z.of_nat (length p) →
  0 ≤ idx → idx + 24 ≤ dv_byteLength into →
  appends (SampleLoop_pack l into idx) h p (SampleLoop_bytes l).
Proof.
  intros. unfold SampleLoop_pack, SampleLoop_bytes. append_setUints. append_setUint.
Qed.

Opaque Cue_bytes SampleLoop_bytes.

Lemma CueChunk_pack_loop_appends h cues : ∀ p (into : DataView) idx,
  dv_buffer into = length h → dv_byteOffset into + idx = Z.of_nat (length p) →
  0 ≤ idx → idx + Z.of_nat (length cues) * 24 ≤ dv_byteLength into →
  appends (CueChunk_pack_loop cues into idx) h p (concat (Cue_bytes <$> cues)).
Proof.
  induction cues as [|c cues IH]; intros p into idx ????;
    cbn [CueChunk_pack_loop]; rewrite ?fmap_cons; cbn [concat].
  - apply appends_ret.
  - rewrite length_cons in *.
    apply appends_bind; [apply Cue_pack_appends; (done || lia)|].
    apply IH; [done|byte_lengths; lia|lia|lia].
Qed.

Lemma SampleChunk_pack_loop_appends h ls : ∀ p (into : DataView) idx,
  dv_buffer into = length h → dv_byteOffset into + idx = Z.of_nat (length p) →
  0 ≤ idx → idx + Z.of_nat (length ls) * 24 ≤ dv_byteLength into →
  appends (SampleChunk_pack_loop ls into idx) h p (concat (SampleLoop_bytes <$> ls)).
Proof.
  induction ls as [|l ls IH]; intros p into idx ????;
    cbn [SampleChunk_pack_loop]; rewrite ?fmap_cons; cbn [concat].
  - apply appends_ret.
  - rewrite length_cons in *.
    apply appends_bind; [apply SampleLoop_pack_appends; (done || lia)|].
    apply IH; [done|byte_lengths; lia|lia|lia].
Qed.

Lemma valid_array_length h a :
  valid_array h a → Z.of_nat (length (array_contents h a)) = ta_length a.
Proof. apply shows_length. Qed.

(** [target.set(source, offset)] on the whole of the view [into]. *)
Lemma set_into_appends h p0 p len source offset :
  valid_array h source →
  Z.of_nat (length p0) + offset = Z.of_nat (length p) →
  0 ≤ offset → 0 ≤ len → ta_length source + offset = len →
  appends
    (let* target := new_Uint8Array (dv_buffer (next_view h p0 len))
                      (dv_byteOffset (next_view h p0 len))
                      (dv_byteLength (next_view h p0 len)) in
     Uint8Array_set target source offset) h p (array_contents h source).
Proof.
  intros Hsource Hoff ???. pose proof (valid_array_length _ _ Hsource).
  apply appends_bind_reads
    with (size := Z.to_nat (Z.of_nat (length p0) + len))
         (a := mkTypedArray (length h) (Z.of_nat (length p0)) len).
  - apply new_Uint8Array_reads; lia.
  - lia.
  - apply Uint8Array_set_appends; (done || simpl; lia).
Qed.

(** [pack] of a flat chunk into a view of [length()] bytes at the end of
    what is written appends the body of the chunk, and the body is
    [length()] bytes long. *)
Lemma chunk_pack_appends h p c len :
  flat h c → chunk_length c = Normal len →
  Z.of_nat (length (body_bytes h c)) = len ∧
  appends (chunk_pack c (next_view h p len)) h p (body_bytes h c).
Proof.
  destruct c as [tag data|f|cues|s|?|?|?|data]; simpl; try done.
  - (* UnknownChunk *)
    intros Hvalid [= <-]. pose proof (valid_array_length _ _ Hvalid).
    split; [done|]. apply set_into_appends; (done || unfold UnknownChunk_length; lia).
  - (* FormatChunk *)
    unfold FormatChunk_length, FormatChunk_bytes, FormatChunk_pack.
    destruct (extraFormatBytes f) as [e|] eqn:He.
    + intros Hvalid Hlen. pose proof (valid_array_length _ _ Hvalid).
      case_decide as Hcode; injection Hlen as <-.
      * rewrite !decide_False by lia.
        split; [by byte_lengths|].
        append_setUints. apply appends_ret.
      * rewrite !decide_True by lia.
        split; [byte_lengths; lia|].
        append_setUints.
        apply set_into_appends; [done|byte_lengths; lia|lia..].
    + intros Hcode. rewrite decide_True by done. intros [= <-].
      rewrite decide_False by lia.
      split; [by byte_lengths|].
      append_setUints. apply appends_ret.
  - (* CueChunk *)
    intros _ [= <-]. unfold CueChunk_length, CueChunk_pack.
    split; [byte_lengths; rewrite length_concat_24 by done; lia|].
    apply appends_bind; [append_setUint|].
    apply CueChunk_pack_loop_appends; [done|byte_lengths; simpl; lia|lia|simpl; lia].
  - (* SampleChunk *)
    intros Hvalid [= <-]. unfold SampleChunk_length, SampleChunk_bytes, SampleChunk_pack.
    destruct (samplerData s) as [d|] eqn:Hd.
    + pose proof (valid_array_length _ _ Hvalid).
      split; [byte_lengths; rewrite length_concat_24 by done; lia|].
      append_setUints.
      apply appends_bind;
        [apply SampleChunk_pack_loop_appends; [done|byte_lengths; simpl; lia|lia|simpl; lia]|].
      apply set_into_appends;
        [done|byte_lengths; rewrite length_concat_24 by done; lia|lia..].
    + split; [byte_lengths; rewrite length_concat_24 by done; simpl; lia|].
      append_setUints.
      apply appends_bind;
        [apply SampleChunk_pack_loop_appends; [done|byte_lengths; simpl; lia|lia|simpl; lia]|].
      apply appends_ret.
  - (* DataChunk *)
    intros Hvalid [= <-]. pose proof (valid_array_length _ _ Hvalid).
    split; [done|]. apply set_into_appends; (done || unfold DataChunk_length; lia).
Qed.

(** *** What [encode] writes *)

Lemma flat_chunk_length h c :
  flat h c → chunk_length c = Normal (Z.of_nat (length (body_bytes h c))).
Proof.
  intros Hflat.
  destruct (chunk_length c) as [len|e] eqn:Hlen.
  - by destruct (chunk_pack_appends h [] c len Hflat Hlen) as [-> _].
  - exfalso. destruct c as [tag data|f|cues|s|?|?|?|data]; simpl in *; try done.
    unfold FormatChunk_length in Hlen.
    destruct (extraFormatBytes f); case_decide; done.
Qed.

Lemma length_pad_bytes len :
  8 + len + Z.of_nat (length (pad_bytes len)) = roundUpToEven (8 + len).
Proof.
  unfold pad_bytes, roundUpToEven. rewrite !land_1_mod.
  repeat case_decide; simpl; Z.div_mod_to_equations; lia.
Qed.

Lemma length_chunk_bytes h c :
  Z.of_nat (length (chunk_bytes h c))
  = roundUpToEven (8 + Z.of_nat (length (body_bytes h c))).
Proof.
  unfold chunk_bytes. rewrite <- length_pad_bytes.
  rewrite !length_app, length_reverse, !length_bytes_of_u32. lia.
Qed.

Lemma roundUpToEven_even n : roundUpToEven n `mod` 2 = 0.
Proof.
  unfold roundUpToEven. rewrite land_1_mod.
  case_decide; Z.div_mod_to_equations; lia.
Qed.

Lemma length_chunks_bytes_even h cs : Z.of_nat (length (chunks_bytes h cs)) `mod` 2 = 0.
Proof.
  unfold chunks_bytes. induction cs as [|c cs IH]; [done|].
  rewrite fmap_cons. cbn [concat]. rewrite length_app, Nat2Z.inj_add, length_chunk_bytes.
  pose proof (roundUpToEven_even (8 + Z.of_nat (length (body_bytes h c)))).
  Z.div_mod_to_equations. lia.
Qed.

Lemma padded_size_chunks_bytes h cs :
  padded_size ((λ c, Z.of_nat (length (body_bytes h c))) <$> cs)
  = Z.of_nat (length (chunks_bytes h cs)).
Proof.
  unfold chunks_bytes. induction cs as [|c cs IH]; [done|].
  rewrite !fmap_cons. cbn [concat padded_size foldr].
  rewrite length_app, Nat2Z.inj_add, length_chunk_bytes. unfold padded_size in IH. lia.
Qed.

Lemma appends_then {B} (m : M unit) (k : M B) h p d n :
  appends m h p d → (length d ≤ n)%nat →
  (m ;;; k) (writing h p n) = k (writing h (p ++ d) (n - length d)).
Proof. intros Hm Hn. by erewrite bind_Normal by (by apply Hm). Qed.

(** *** Labels and lists of labels *)

Lemma scalar_values_ascii s : ascii_text s → scalar_values s = s.
Proof.
  induction 1 as [|u s Hu _ IH]; [done|]. cbn [scalar_values].
  unfold is_high_surrogate, is_low_surrogate.
  rewrite !bool_decide_eq_false_2 by lia. by rewrite IH.
Qed.

Lemma encodeInto_bytes_ascii s : ∀ room,
  ascii_text s → Z.of_nat (length s) ≤ room →
  encodeInto_bytes s room = byte_of_Z <$> s.
Proof.
  induction s as [|u s IH]; intros room Hs Hroom; [done|].
  apply Forall_cons in Hs as [Hu Hs]. cbv beta in Hu. cbn [encodeInto_bytes length] in *.
  unfold utf8_encode_scalar. destruct (decide (u < 128)); [|lia].
  cbn [length]. rewrite decide_True by lia.
  rewrite fmap_cons. cbn [app]. f_equal. apply IH; [done|lia].
Qed.

Lemma Z_of_byte_ascii u : 0 ≤ u < 256 → Z_of_byte (byte_of_Z u) = u.
Proof. intros. rewrite Z_of_byte_of_Z. by apply Z.mod_small. Qed.

Lemma utf8_decode_ascii s :
  ascii_text s → utf8_decode_from utf8_init (byte_of_Z <$> s) = s.
Proof.
  induction 1 as [|u s Hu _ IH]; [done|]. rewrite fmap_cons.
  cbn [utf8_decode_from]. rewrite Z_of_byte_ascii by lia.
  rewrite decide_True by done. unfold utf8_lead. rewrite decide_True by lia.
  cbn [app]. by rewrite IH.
Qed.

Lemma strip_bom_ascii s : ascii_text s → strip_bom (byte_of_Z <$> s) = byte_of_Z <$> s.
Proof.
  destruct 1 as [|u s Hu _]; [done|]. rewrite fmap_cons.
  pose proof (Z_of_byte_ascii u ltac:(lia)) as Hb.
  unfold strip_bom. destruct (byte_of_Z u); try done.
  vm_compute in Hb. lia.
Qed.

Lemma TextDecoder_decode_ascii s :
  ascii_text s → TextDecoder_decode (byte_of_Z <$> s) = s.
Proof.
  intros Hs. unfold TextDecoder_decode.
  rewrite strip_bom_ascii, utf8_decode_ascii by done.
  induction Hs as [|u s Hu _ IH]; [done|]. rewrite fmap_cons. cbn [concat].
  unfold utf16_units at 1. rewrite decide_True by lia. by rewrite IH.
Qed.

Lemma indexOf_zero_ascii s rest : ∀ i,
  ascii_text s →
  indexOf_zero ((byte_of_Z <$> s) ++ x00 :: rest) i = i + Z.of_nat (length s).
Proof.
  induction s as [|u s IH]; intros i Hs.
  - simpl. lia.
  - apply Forall_cons in Hs as [Hu Hs]. cbv beta in Hu. rewrite fmap_cons. cbn [app indexOf_zero].
    rewrite decide_False.
    + rewrite IH by done. cbn [length]. lia.
    + intros Hb. apply (f_equal Z_of_byte) in Hb.
      rewrite Z_of_byte_ascii in Hb by lia. vm_compute in Hb. lia.
Qed.

Lemma appends_appends_ahead ahead m h p d : appends m h p d → appends_ahead ahead m h p d.
Proof. intros Hm n Hn. apply Hm. lia. Qed.

Lemma appends_ahead_0 m h p d : appends_ahead 0 m h p d → appends m h p d.
Proof. intros Hm n Hn. apply Hm. lia. Qed.

Lemma appends_ahead_bind r1 r2 m1 m2 h p d1 d2 :
  appends_ahead r1 m1 h p d1 → appends_ahead r2 m2 h (p ++ d1) d2 →
  (r1 ≤ length d2 + r2)%nat →
  appends_ahead r2 (m1 ;;; m2) h p (d1 ++ d2).
Proof.
  intros H1 H2 Hr n Hn. rewrite length_app in Hn.
  erewrite bind_Normal by (apply H1; lia).
  rewrite H2 by lia. rewrite length_app, app_assoc.
  by replace (n - length d1 - length d2)%nat with (n - (length d1 + length d2))%nat by lia.
Qed.

Lemma appends_ahead_bind_reads {A} r (m : M A) (f : A → M unit) h p d size a :
  reads m h size a → (size ≤ length p + length d + r)%nat →
  appends_ahead r (f a) h p d → appends_ahead r (bind m f) h p d.
Proof.
  intros Hm Hsize Hf n Hn. erewrite bind_Normal by (apply Hm; lia). by apply Hf.
Qed.

Lemma appends_ahead_liftC {A} r (c : Completion A) (f : A → M unit) h p d a :
  c = Normal a → appends_ahead r (f a) h p d → appends_ahead r (bind (liftC c) f) h p d.
Proof. intros -> Hf n Hn. unfold bind, liftC. by apply Hf. Qed.

Lemma appends_ahead_ret r h p : appends_ahead r (ret ()) h p [].
Proof. intros n _. unfold ret. simpl. by rewrite app_nil_r, Nat.sub_0_r. Qed.

(** Bytes that are left as they are, zero, count as written. *)
Lemma appends_ahead_zeros r m h p d k :
  appends_ahead (r + k) m h p d → appends_ahead r m h p (d ++ replicate k x00).
Proof.
  intros Hm n Hn. rewrite length_app, length_replicate in *.
  rewrite Hm by lia. unfold writing. do 2 f_equal.
  rewrite <- !app_assoc. do 2 f_equal.
  rewrite <- replicate_add. do 2 f_equal. lia.
Qed.

Lemma ListChunk_ADTL_LABL_length_bounds s :
  let len := ListChunk_ADTL_LABL_length s in
  Z.of_nat (length s) + 5 ≤ len ≤ Z.of_nat (length s) + 6 ∧ len `mod` 2 = 0.
Proof.
  unfold ListChunk_ADTL_LABL_length. rewrite land_1_mod.
  case_decide; Z.div_mod_to_equations; lia.
Qed.

Lemma length_label_bytes cueId s :
  Z.of_nat (length (label_bytes cueId s)) = ListChunk_ADTL_LABL_length s.
Proof.
  pose proof (ListChunk_ADTL_LABL_length_bounds s) as H. cbv zeta in H.
  unfold label_bytes. rewrite !length_app, length_bytes_of_u32, length_fmap, length_replicate.
  lia.
Qed.

Lemma LABL_pack_appends h p cueId s :
  ascii_text s →
  appends_ahead 4
    (ListChunk_ADTL_LABL_pack cueId s (next_view h p (ListChunk_ADTL_LABL_length s)))
    h p (label_bytes cueId s).
Proof.
  intros Hs.
  pose proof (ListChunk_ADTL_LABL_length_bounds s) as Hlen. cbv zeta in Hlen.
  set (len := ListChunk_ADTL_LABL_length s) in *.
  unfold ListChunk_ADTL_LABL_pack, label_bytes. fold len.
  rewrite app_assoc. apply appends_ahead_zeros.
  eapply appends_ahead_bind with (r1 := 0%nat);
    [apply appends_appends_ahead, setUint32_appends; simpl; (done || lia)| |lia].
  cbn [next_view dv_buffer dv_byteOffset dv_byteLength].
  apply appends_ahead_bind_reads
    with (size := Z.to_nat (Z.of_nat (length p) + 4 + len))
         (a := mkTypedArray (length h) (Z.of_nat (length p) + 4) len).
  - apply new_Uint8Array_reads; lia.
  - rewrite length_app, length_bytes_of_u32, length_fmap. lia.
  - unfold TextEncoder_encodeInto. cbn [ta_buffer ta_byteOffset ta_length].
    rewrite scalar_values_ascii, encodeInto_bytes_ascii by (done || lia).
    replace (Z.of_nat (length p) + 4) with (Z.of_nat (length (p ++ bytes_of_u32 cueId)))
      by (rewrite length_app, length_bytes_of_u32; lia).
    apply appends_appends_ahead, writeBytes_append.
Qed.

Lemma length_item_bytes c :
  label_ok c →
  ∃ cueId s, c = CLabl cueId s ∧
    Z.of_nat (length (item_bytes c)) = 8 + ListChunk_ADTL_LABL_length s.
Proof.
  destruct c as [| | | |cueId s| | |]; try done. intros _. exists cueId, s.
  split; [done|]. unfold item_bytes.
  rewrite !length_app, length_reverse, !length_bytes_of_u32, <- length_label_bytes with (cueId := cueId).
  lia.
Qed.

(** The loop of [ListChunk_ADTL.pack] over labels. *)
Lemma ADTL_pack_appends h (into : DataView) items :
  Forall label_ok items →
  dv_buffer into = length h → 0 ≤ dv_byteOffset into →
  ∀ p idx,
    dv_byteOffset into + idx = Z.of_nat (length p) → 0 ≤ idx →
    idx + Z.of_nat (length (concat (item_bytes <$> items))) ≤ dv_byteLength into →
    appends_ahead 4
      ((fix loop (cs : list Chunk) (idx : Z) : M unit :=
          match cs with
          | [] => ret ()
          | ch :: cs' =>
              let* chunkSize := liftC (chunk_length ch) in
              setUint32 into idx (chunk_tag ch) false ;;;
              setUint32 into (idx + 4) chunkSize true ;;;
              let idx := idx + 8 in
              let* chunkView :=
                new_DataView (dv_buffer into) (dv_byteOffset into + idx) (Some chunkSize) in
              chunk_pack ch chunkView ;;;
              let idx := idx + chunkSize in
              loop cs' idx
          end) items idx)
      h p (concat (item_bytes <$> items)).
Proof.
  intros Hitems Hbuf Hoff.
  induction Hitems as [|c items Hc Hrest IH]; intros p idx Hp Hidx Hroom.
  { apply appends_ahead_ret. }
  rewrite fmap_cons in *. cbn [concat] in *. rewrite length_app in Hroom.
  destruct (length_item_bytes c Hc) as (cueId & s & -> & Hlen).
  destruct Hc as [Hid Hs].
  pose proof (ListChunk_ADTL_LABL_length_bounds s) as Hsize. cbv zeta in Hsize.
  set (len := ListChunk_ADTL_LABL_length s) in *.
  pose proof (length_label_bytes cueId s) as Hbody. fold len in Hbody.
  cbn [item_bytes]. fold len. rewrite <- !app_assoc.
  eapply appends_ahead_liftC; [reflexivity|]. cbn [chunk_tag].
  eapply appends_ahead_bind with (r1 := 0%nat);
    [apply appends_appends_ahead, setUint32_appends_be; (done || lia)| |lia].
  eapply appends_ahead_bind with (r1 := 0%nat);
    [apply appends_appends_ahead, setUint32_appends;
       rewrite ?length_app, ?length_reverse, ?length_bytes_of_u32; (done || lia)| |lia].
  set (p' := (p ++ reverse (bytes_of_u32 ChunkTagsBE.labl)) ++ bytes_of_u32 len).
  assert (Hp' : Z.of_nat (length p') = Z.of_nat (length p) + 8).
  { unfold p'. rewrite !length_app, length_reverse, !length_bytes_of_u32. lia. }
  apply appends_ahead_bind_reads
    with (size := Z.to_nat (Z.of_nat (length p') + len)) (a := next_view h p' len).
  { unfold next_view. rewrite Hbuf.
    replace (dv_byteOffset into + (idx + 8)) with (Z.of_nat (length p')) by lia.
    apply new_DataView_reads; lia. }
  { rewrite length_app. lia. }
  eapply appends_ahead_bind with (r1 := 4%nat); [by apply LABL_pack_appends| |].
  - apply IH.
    + rewrite length_app. lia.
    + lia.
    + lia.
  - destruct items as [|c' items]; [simpl; lia|].
    rewrite fmap_cons. cbn [concat]. rewrite length_app.
    destruct (length_item_bytes c' (Forall_inv Hrest)) as (? & s' & _ & Hc').
    pose proof (ListChunk_ADTL_LABL_length_bounds s') as Hs'. cbv zeta in Hs'. lia.
Qed.

Lemma appends_ahead_mono r r' m h p d :
  (r ≤ r')%nat → appends_ahead r m h p d → appends_ahead r' m h p d.
Proof. intros Hr Hm n Hn. apply Hm. lia. Qed.

Lemma appends_ahead_skip r m h p d :
  appends_ahead r m h (p ++ [x00]) d → appends_ahead r m h p (x00 :: d).
Proof.
  intros Hm n Hn. simpl in Hn. destruct n as [|n]; [lia|].
  replace (writing h p (S n)) with (writing h (p ++ [x00]) n)
    by (unfold writing; by rewrite <- app_assoc).
  rewrite Hm by lia. by rewrite <- app_assoc.
Qed.

Lemma flat_packs h c : flat h c → packs h (slack c) c.
Proof.
  intros Hflat. pose proof (flat_chunk_length h c Hflat) as Hlen.
  split; [done|]. intros p. apply appends_appends_ahead.
  by apply chunk_pack_appends.
Qed.

Lemma ADTL_length_labels items : ∀ a,
  Forall label_ok items →
  (fix reduce (cs : list Chunk) (a : Z) : Completion Z :=
     match cs with
     | [] => Normal a
     | b :: cs' => cbind (chunk_length b) (λ l, reduce cs' (a + 8 + l))
     end) items a
  = Normal (a + Z.of_nat (length (concat (item_bytes <$> items)))).
Proof.
  induction items as [|c items IH]; intros a Hitems.
  { simpl. f_equal. lia. }
  apply Forall_cons in Hitems as [Hc Hitems].
  destruct (length_item_bytes c Hc) as (cueId & s & -> & Hlen).
  cbn [chunk_length cbind]. rewrite IH by done.
  rewrite fmap_cons. cbn [concat]. rewrite length_app. f_equal. lia.
Qed.

Lemma labels_list_packs h c : labels_list c → packs h (slack c) c.
Proof.
  destruct c as [| | | | | |body|]; try done.
  destruct body as [| | | | |items| |]; try done. cbn [labels_list slack]. intros Hitems.
  unfold packs. cbn [body_bytes chunk_tag]. rewrite length_app, length_reverse, length_bytes_of_u32.
  set (L := Z.of_nat (length (concat (item_bytes <$> items)))).
  split.
  - cbn [chunk_length]. rewrite (ADTL_length_labels items 0 Hitems). simpl. f_equal. lia.
  - intros p. cbn [chunk_pack].
    eapply appends_ahead_bind with (r1 := 0%nat);
      [apply appends_appends_ahead, setUint32_appends_be; simpl; (done || lia)| |lia].
    cbn [next_view dv_buffer dv_byteOffset dv_byteLength].
    set (p' := p ++ reverse (bytes_of_u32 ChunkTagsBE.adtl)).
    assert (Hp' : Z.of_nat (length p') = Z.of_nat (length p) + 4).
    { unfold p'. rewrite length_app, length_reverse, length_bytes_of_u32. lia. }
    apply appends_ahead_bind_reads
      with (size := Z.to_nat (Z.of_nat (length p') + L)) (a := next_view h p' L).
    { unfold next_view. rewrite <- Hp'.
      replace (Z.of_nat (4 + length (concat (item_bytes <$> items))) - 4) with L by lia.
      apply new_DataView_reads; lia. }
    { lia. }
    apply (ADTL_pack_appends h (next_view h p' L) items Hitems); simpl; lia.
Qed.

Lemma ahead_cons c cs : cs ≠ [] → ahead (c :: cs) = ahead cs.
Proof. unfold ahead. destruct cs; [done|]. by rewrite last_cons_cons. Qed.

Lemma length_chunks_bytes_cons h c cs :
  8 ≤ Z.of_nat (length (chunks_bytes h (c :: cs))).
Proof.
  unfold chunks_bytes. rewrite fmap_cons. cbn [concat]. rewrite length_app.
  pose proof (length_chunk_bytes h c) as Hc. unfold roundUpToEven in Hc.
  case_decide; lia.
Qed.

(** The second loop of [encode] appends the chunks. *)
Lemma encode_loop_appends_ahead h total cs : ∀ p,
  Forall (λ c, packs h (slack c) c) cs →
  Z.of_nat (length p) `mod` 2 = 0 →
  Z.of_nat (length p) + Z.of_nat (length (chunks_bytes h cs)) ≤ total →
  appends_ahead (ahead cs)
    (encode_loop cs (mkDataView (length h) 0 total) (Z.of_nat (length p)))
    h p (chunks_bytes h cs).
Proof.
  induction cs as [|c cs IH]; intros p Hcs Heven Htotal; cbn [encode_loop].
  { apply appends_ahead_ret. }
  apply Forall_cons in Hcs as [[Hlength Hpack] Hcs].
  assert (appends_ahead (ahead (c :: cs)) (ret ()) h p [] ∧
                  (slack c ≤ length (chunks_bytes h cs) + ahead (c :: cs))%nat ∧
                  ∀ p', Z.of_nat (length p') `mod` 2 = 0 →
                    Z.of_nat (length p') + Z.of_nat (length (chunks_bytes h cs)) ≤ total →
                    appends_ahead (ahead (c :: cs))
                      (encode_loop cs (mkDataView (length h) 0 total) (Z.of_nat (length p')))
                      h p' (chunks_bytes h cs)) as (_ & Hslack & IH').
  { split; [apply appends_ahead_ret|]. destruct cs as [|c' cs].
    - split; [unfold ahead; simpl; lia|]. intros p' _ _. apply appends_ahead_ret.
    - rewrite ahead_cons by done. split.
      + pose proof (length_chunks_bytes_cons h c' cs). destruct c; simpl; lia.
      + intros p' ??. by apply IH. }
  clear IH.
  unfold chunks_bytes in *. rewrite fmap_cons in *. cbn [concat] in *.
  fold (chunks_bytes h cs) in *.
  rewrite length_app, Nat2Z.inj_add in Htotal.
  pose proof (length_chunk_bytes h c) as Hsize.
  pose proof (length_pad_bytes (Z.of_nat (length (body_bytes h c)))) as Hpad.
  set (len := Z.of_nat (length (body_bytes h c))) in *.
  assert (0 ≤ len) by lia.
  assert (0 ≤ Z.of_nat (length (pad_bytes len))) by lia.
  change (chunk_bytes h c)
    with (reverse (bytes_of_u32 (chunk_tag c)) ++ bytes_of_u32 len ++
          body_bytes h c ++ pad_bytes len) at 1.
  apply appends_ahead_liftC with (a := len); [done|].
  rewrite <- !app_assoc.
  eapply appends_ahead_bind with (r1 := 0%nat);
    [apply appends_appends_ahead, setUint32_appends_be; simpl; (done || lia)| |lia].
  eapply appends_ahead_bind with (r1 := 0%nat);
    [apply appends_appends_ahead, setUint32_appends;
       rewrite ?length_app, ?length_reverse, ?length_bytes_of_u32; simpl; (done || lia)| |lia].
  set (p' := (p ++ reverse (bytes_of_u32 (chunk_tag c))) ++ bytes_of_u32 len).
  assert (Hp' : Z.of_nat (length p') = Z.of_nat (length p) + 8).
  { unfold p'. rewrite !length_app, length_reverse, !length_bytes_of_u32. lia. }
  apply appends_ahead_bind_reads
    with (size := Z.to_nat (Z.of_nat (length p') + len)) (a := next_view h p' len).
  { unfold next_view. cbn [dv_buffer]. rewrite <- Hp'. apply new_DataView_reads; lia. }
  { rewrite !length_app. lia. }
  eapply appends_ahead_bind with (r1 := slack c); [apply Hpack| |rewrite length_app; lia].
  assert (Hlen : Z.of_nat (length (p' ++ body_bytes h c)) = Z.of_nat (length p) + 8 + len).
  { rewrite length_app. lia. }
  unfold pad_bytes in *. rewrite !land_1_mod in *.
  destruct (decide (len `mod` 2 ≠ 0)) as [Hodd|Hnot_odd].
  - rewrite !decide_True by (Z.div_mod_to_equations; lia).
    simpl in Hpad. simpl app.
    apply appends_ahead_skip.
    replace (Z.of_nat (length p) + 8 + len + 1)
      with (Z.of_nat (length ((p' ++ body_bytes h c) ++ [x00])))
      by (rewrite (length_app _ [x00]); simpl length; lia).
    apply IH'; rewrite (length_app _ [x00]); simpl length.
    + Z.div_mod_to_equations. lia.
    + lia.
  - rewrite !decide_False by (Z.div_mod_to_equations; lia).
    simpl in Hpad. simpl app.
    rewrite <- Hlen. apply IH'.
    + Z.div_mod_to_equations. lia.
    + lia.
Qed.

Lemma encode_fileLength_packs h cs :
  Forall (λ c, packs h (slack c) c) cs →
  encode_fileLength cs 12 = Normal (12 + Z.of_nat (length (chunks_bytes h cs))).
Proof.
  intros Hcs. rewrite <- padded_size_chunks_bytes.
  apply encode_fileLength_padded_size; [|done].
  apply Forall2_fmap_r, Forall_Forall2_diag.
  eapply Forall_impl; [exact Hcs|]. by intros c [? _].
Qed.

(** [encode] of a wave of chunks that [pack] writes as [body_bytes] has
    them, and that does not end with a chunk that needs room after it,
    returns a new buffer that holds [file_bytes]; the heap from before is
    as it was. *)
Lemma Wave_encode_writes_chunks h w :
  Forall (λ c, packs h (slack c) c) (chunks w) → ahead (chunks w) = 0%nat →
  Wave_encode w h = (Normal (length h), h ++ [file_bytes h (chunks w)]).
Proof.
  intros Hcs Hahead. unfold Wave_encode.
  pose proof (length_chunks_bytes_even h (chunks w)) as Heven.
  set (cb := chunks_bytes h (chunks w)) in *.
  set (fileLength := 12 + Z.of_nat (length cb)).
  erewrite bind_Normal by (unfold liftC; by rewrite (encode_fileLength_packs h)).
  fold cb. fold fileLength.
  erewrite bind_Normal by (unfold new_ArrayBuffer; rewrite decide_True by lia; reflexivity).
  change (h ++ [replicate (Z.to_nat fileLength) x00])
    with (writing h [] (Z.to_nat fileLength)).
  erewrite bind_Normal.
  2:{ unfold new_DataView.
      erewrite bind_Normal by (apply ArrayBuffer_byteLength_Some, writing_lookup).
      rewrite decide_False by (simpl; lia). reflexivity. }
  rewrite app_nil_l, length_replicate, Z.sub_0_r, Z2Nat.id by lia.
  erewrite appends_then;
    [|apply setUint32_appends_be; simpl; (done || lia)|byte_lengths; lia].
  erewrite appends_then;
    [|apply setUint32_appends; simpl; (done || lia)|byte_lengths; lia].
  erewrite appends_then;
    [|apply setUint32_appends_be; simpl; (done || lia)|byte_lengths; lia].
  set (header := (([] ++ reverse (bytes_of_u32 ChunkTagsBE.RIFF))
                    ++ bytes_of_u32 (fileLength - 8))
                   ++ reverse (bytes_of_u32 ChunkTagsBE.WAVE)).
  assert (Hheader : Z.of_nat (length header) = 12) by (unfold header; by byte_lengths).
  assert (Hloop : appends (encode_loop (chunks w) (mkDataView (length h) 0 fileLength) 12)
                    h header cb).
  { apply appends_ahead_0. rewrite <- Hahead, <- Hheader.
    apply encode_loop_appends_ahead; [done| |]; rewrite Hheader; [done|].
    fold cb. lia. }
  erewrite appends_then; [|exact Hloop|byte_lengths; lia].
  unfold ret, writing, file_bytes, header. fold cb. fold fileLength.
  do 3 f_equal. byte_lengths.
  replace (Z.to_nat fileLength - 4 - 4 - 4 - length cb)%nat with 0%nat by lia.
  simpl. by rewrite app_nil_r, <- !app_assoc.
Qed.

(** [encode] of a wave of flat chunks returns a new buffer that holds
    [file_bytes]; the heap from before is as it was. *)
Lemma Wave_encode_writes_file h w :
  Forall (flat h) (chunks w) →
  Wave_encode w h = (Normal (length h), h ++ [file_bytes h (chunks w)]).
Proof.
  intros Hflat. apply Wave_encode_writes_chunks.
  - eapply Forall_impl; [exact Hflat|]. apply flat_packs.
  - unfold ahead. destruct (last (chunks w)) as [c|] eqn:Hlast; [|done].
    apply last_Some_elem_of in Hlast.
    rewrite Forall_forall in Hflat. specialize (Hflat c Hlast).
    by destruct c.
Qed.

(** X3. [encode] of a wave of flat chunks returns a new buffer and leaves
    the others as they are. The chunks are unknown, format, cue, sample
    and data chunks, no list chunks; every payload (the data of an unknown
    or data chunk, the extension of a format chunk, the sampler data of a
    sample chunk) is an array inside a buffer of the heap; and a format
    chunk without extension has a code of 1 or less (above 1, [length()]
    throws). The buffer holds [RIFF], the length of what follows the
    length field, [WAVE], and for every chunk in turn its tag, big-endian,
    the length of its body, little-endian, the body as [pack] lays it out,
    and a zero byte after a body of odd length. *)
Theorem Wave_encode_flat (h : Heap) (w : Wave) :
  Forall (flat h) (chunks w) →
  Wave_encode w h = (Normal (length h), h ++ [file_bytes h (chunks w)]).
Proof. apply Wave_encode_writes_file. Qed.

Lemma Wave_encode_flat_witness :
  Wave_encode (new_Wave pcm_chunks) samples_heap
  = (Normal 1%nat, samples_heap ++ [file_bytes samples_heap (chunks (new_Wave pcm_chunks))]).
Proof.
  apply (Wave_encode_flat samples_heap (new_Wave pcm_chunks)).
  repeat constructor; [by vm_compute|].
  exists [x01; x02; x03; x04]. by vm_compute.
Defined.

(** *** What [decode] reads back *)

Transparent bytes_of_u16 bytes_of_u32.

Lemma getUint_in_file h F pre rest n (v : DataView) idx le :
  F = pre ++ rest →
  dv_buffer v = length h → dv_byteOffset v = Z.of_nat (length pre) →
  0 ≤ idx → 0 ≤ n → idx + n ≤ dv_byteLength v →
  dv_byteLength v ≤ Z.of_nat (length rest) →
  getUint n v idx le (h ++ [F])
  = (Normal (uint_of_bytes (endian le (take (Z.to_nat n) (drop (Z.to_nat idx) rest)))),
     h ++ [F]).
Proof.
  intros -> Hbuf Hoff ????.
  erewrite getUint_Some with (bs := pre ++ rest);
    [|rewrite Hbuf; apply list_lookup_middle; done|lia..|rewrite length_app; lia].
  do 5 f_equal. rewrite Hoff.
  replace (Z.to_nat (Z.of_nat (length pre) + idx)) with (length pre + Z.to_nat idx)%nat by lia.
  by rewrite drop_app_add'.
Qed.

Lemma new_Uint8Array_in_file h F off len :
  0 ≤ off → 0 ≤ len → off + len ≤ Z.of_nat (length F) →
  new_Uint8Array (length h) off len (h ++ [F])
  = (Normal (mkTypedArray (length h) off len), h ++ [F]).
Proof.
  intros. apply new_Uint8Array_Some with (bs := F); [by apply list_lookup_middle|lia..].
Qed.

Lemma new_DataView_in_file h F off len :
  0 ≤ off → 0 ≤ len → off + len ≤ Z.of_nat (length F) →
  new_DataView (length h) off (Some len) (h ++ [F])
  = (Normal (mkDataView (length h) off len), h ++ [F]).
Proof.
  intros. unfold new_DataView.
  erewrite bind_Normal by (by apply ArrayBuffer_byteLength_Some, list_lookup_middle).
  rewrite decide_False by lia. by rewrite decide_False by lia.
Qed.

(** A view into the file shows the bytes that lie there. *)
Lemma shows_in_file h pre bs post len :
  len = Z.of_nat (length bs) →
  shows (h ++ [pre ++ bs ++ post])
    (mkTypedArray (length h) (Z.of_nat (length pre)) len) bs.
Proof.
  intros ->. exists (pre ++ bs ++ post). simpl.
  split; [by apply list_lookup_middle|].
  rewrite !length_app. repeat split; [lia..|].
  by rewrite !Nat2Z.id, drop_app_length, take_app_length.
Qed.

Lemma canonical_flat h c : canonical h c → flat h c.
Proof.
  destruct c as [tag data|f|cues|s|?|?|?|data]; cbn [canonical flat]; try done.
  - by intros (_ & _ & ?).
  - intros (_ & _ & _ & _ & _ & _ & He).
    destruct (extraFormatBytes f); [by destruct He as (_ & ? & _)|done].
  - intros (_ & _ & _ & _ & _ & _ & _ & _ & Hd).
    destruct (samplerData s); [by destruct Hd|done].
Qed.

Lemma uint_of_u16_bytes v : is_u16 v → uint_of_bytes [byte_of_Z v; byte_of_Z (v ≫ 8)] = v.
Proof. apply uint_of_bytes_u16. Qed.

Lemma uint_of_u32_bytes v :
  is_u32 v →
  uint_of_bytes [byte_of_Z v; byte_of_Z (v ≫ 8); byte_of_Z (v ≫ 16); byte_of_Z (v ≫ 24)] = v.
Proof. apply uint_of_bytes_u32. Qed.

Lemma uint_of_u32_bytes_be v :
  is_u32 v →
  uint_of_bytes
    (reverse [byte_of_Z (v ≫ 24); byte_of_Z (v ≫ 16); byte_of_Z (v ≫ 8); byte_of_Z v]) = v.
Proof. apply uint_of_bytes_u32. Qed.

(** [FormatChunk.unpack] on the bytes of a canonical format chunk. *)
Lemma FormatChunk_unpack_bytes h pre post f tag :
  canonical h (CFormat f) →
  let body := FormatChunk_bytes h f in
  FormatChunk_unpack (mkDataView (length h) (Z.of_nat (length pre)) (Z.of_nat (length body)))
    tag (h ++ [pre ++ body ++ post])
  = (Normal (decoded (length h) (Z.of_nat (length pre)) (CFormat f)),
     h ++ [pre ++ body ++ post]).
Proof.
  intros (Hcode & Hchannels & Hrate & Havg & Halign & Hbits & Hextra) body.
  assert (Hfixed : ∃ ext, body =
            bytes_of_u16 (compressionCode f) ++ bytes_of_u16 (channelCount f) ++
            bytes_of_u32 (sampleRate f) ++ bytes_of_u32 (avgBytesPerSecond f) ++
            bytes_of_u16 (blockAlign f) ++ bytes_of_u16 (sigBitsPerSample f) ++ ext ∧
            ext = match extraFormatBytes f with
                  | Some e => bytes_of_u16 (ta_length e) ++ array_contents h e
                  | None => []
                  end).
  { eexists. split; [|reflexivity]. unfold body, FormatChunk_bytes.
    destruct (extraFormatBytes f); [|done].
    by rewrite decide_True by (by destruct Hextra). }
  destruct Hfixed as (ext & Hbody & Hext).
  assert (Hlen : Z.of_nat (length body) = 16 + Z.of_nat (length ext)).
  { rewrite Hbody. rewrite !length_app. simpl. lia. }
  set (from := mkDataView _ _ _).
  set (E := bytes_of_u16 (compressionCode f) ++ bytes_of_u16 (channelCount f) ++
            bytes_of_u32 (sampleRate f) ++ bytes_of_u32 (avgBytesPerSecond f) ++
            bytes_of_u16 (blockAlign f) ++ bytes_of_u16 (sigBitsPerSample f) ++ ext ++ post).
  assert (HE : pre ++ body ++ post = pre ++ E).
  { rewrite Hbody. unfold E. by rewrite <- !app_assoc. }
  assert (Hget : ∀ n idx le,
            0 ≤ idx → 0 ≤ n → idx + n ≤ Z.of_nat (length body) →
            getUint n from idx le (h ++ [pre ++ body ++ post])
            = (Normal (uint_of_bytes
                 (endian le (take (Z.to_nat n) (drop (Z.to_nat idx) E)))),
               h ++ [pre ++ body ++ post])).
  { intros. pose proof (f_equal length HE) as HlenE. rewrite !length_app in HlenE.
    apply getUint_in_file with (pre := pre);
      unfold from; cbn [dv_buffer dv_byteOffset dv_byteLength]; (done || lia). }
  assert (Hfield : ∀ n idx d,
            0 ≤ idx → 0 ≤ n → idx + n ≤ Z.of_nat (length body) →
            take (Z.to_nat n) (drop (Z.to_nat idx) E) = d →
            getUint n from idx true (h ++ [pre ++ body ++ post])
            = (Normal (uint_of_bytes d), h ++ [pre ++ body ++ post])).
  { intros n idx d ??? <-. by rewrite Hget. }
  assert (H0 : getUint16 from 0 true (h ++ [pre ++ body ++ post])
               = (Normal (compressionCode f), h ++ [pre ++ body ++ post])).
  { rewrite <- (uint_of_bytes_u16 (compressionCode f)) at 1 by done.
    apply Hfield; (done || lia). }
  assert (H2 : getUint16 from 2 true (h ++ [pre ++ body ++ post])
               = (Normal (channelCount f), h ++ [pre ++ body ++ post])).
  { rewrite <- (uint_of_bytes_u16 (channelCount f)) at 1 by done.
    apply Hfield; (done || lia). }
  assert (H4 : getUint32 from 4 true (h ++ [pre ++ body ++ post])
               = (Normal (sampleRate f), h ++ [pre ++ body ++ post])).
  { rewrite <- (uint_of_bytes_u32 (sampleRate f)) at 1 by done.
    apply Hfield; (done || lia). }
  assert (H8 : getUint32 from 8 true (h ++ [pre ++ body ++ post])
               = (Normal (avgBytesPerSecond f), h ++ [pre ++ body ++ post])).
  { rewrite <- (uint_of_bytes_u32 (avgBytesPerSecond f)) at 1 by done.
    apply Hfield; (done || lia). }
  assert (H12 : getUint16 from 12 true (h ++ [pre ++ body ++ post])
               = (Normal (blockAlign f), h ++ [pre ++ body ++ post])).
  { rewrite <- (uint_of_bytes_u16 (blockAlign f)) at 1 by done.
    apply Hfield; (done || lia). }
  assert (H14 : getUint16 from 14 true (h ++ [pre ++ body ++ post])
               = (Normal (sigBitsPerSample f), h ++ [pre ++ body ++ post])).
  { rewrite <- (uint_of_bytes_u16 (sigBitsPerSample f)) at 1 by done.
    apply Hfield; (done || lia). }
  unfold FormatChunk_unpack.
  rewrite (bind_Normal _ _ _ _ _ H0).
  assert (Hrest :
    ∀ ext' : option Uint8Array,
      (let* channelCount := getUint16 from 2 true in
       let* sampleRate := getUint32 from 4 true in
       let* avgBytesPerSecond := getUint32 from 8 true in
       let* blockAlign := getUint16 from 12 true in
       let* sigBitsPerSample := getUint16 from 14 true in
       ret (CFormat (mkFormatChunk (compressionCode f) channelCount sampleRate
                       avgBytesPerSecond blockAlign sigBitsPerSample ext')))
        (h ++ [pre ++ body ++ post])
      = (Normal (CFormat (mkFormatChunk (compressionCode f) (channelCount f) (sampleRate f)
                            (avgBytesPerSecond f) (blockAlign f) (sigBitsPerSample f) ext')),
         h ++ [pre ++ body ++ post])).
  { intros ext'.
    rewrite (bind_Normal _ _ _ _ _ H2), (bind_Normal _ _ _ _ _ H4),
      (bind_Normal _ _ _ _ _ H8), (bind_Normal _ _ _ _ _ H12), (bind_Normal _ _ _ _ _ H14).
    done. }
  destruct (extraFormatBytes f) as [e|] eqn:He.
  - destruct Hextra as (Hgt & Hvalid & Hsmall).
    pose proof (valid_array_length _ _ Hvalid) as Helen.
    assert (is_u16 (ta_length e)) by (unfold is_u16; lia).
    rewrite decide_True by done.
    assert (Hextlen : Z.of_nat (length ext) = 2 + ta_length e).
    { rewrite Hext, length_app. simpl. lia. }
    assert (H16 : getUint16 from 16 true (h ++ [pre ++ body ++ post])
                  = (Normal (ta_length e), h ++ [pre ++ body ++ post])).
    { rewrite <- (uint_of_bytes_u16 (ta_length e)) at 1 by done.
      apply Hfield; [lia..|]. unfold E. by rewrite Hext. }
    erewrite bind_Normal.
    2:{ rewrite (bind_Normal _ _ _ _ _ H16).
        erewrite bind_Normal; [reflexivity|].
        unfold from. cbn [dv_buffer dv_byteOffset].
        apply new_Uint8Array_in_file; [lia|lia|].
        rewrite !length_app. lia. }
    rewrite Hrest. simpl. by rewrite He.
  - subst ext. rewrite decide_False by lia.
    erewrite bind_Normal by reflexivity.
    rewrite Hrest. simpl. by rewrite He.
Qed.

Transparent Cue_bytes SampleLoop_bytes.

(** A read at [k] bytes into a record that starts at [idx] of the view. *)
Lemma getUint_record h F pre rest n (v : DataView) idx k d :
  F = pre ++ rest →
  dv_buffer v = length h → dv_byteOffset v + idx = Z.of_nat (length pre) →
  0 ≤ dv_byteOffset v → 0 ≤ idx → 0 ≤ k → 0 ≤ n →
  idx + k + n ≤ dv_byteLength v →
  dv_byteOffset v + dv_byteLength v ≤ Z.of_nat (length F) →
  take (Z.to_nat n) (drop (Z.to_nat k) rest) = d →
  getUint n v (idx + k) true (h ++ [F]) = (Normal (uint_of_bytes d), h ++ [F]).
Proof.
  intros -> Hbuf Hoff ?????? <-.
  erewrite getUint_Some with (bs := pre ++ rest);
    [|rewrite Hbuf; by apply list_lookup_middle|lia..].
  do 4 f_equal. unfold endian.
  replace (Z.to_nat (dv_byteOffset v + (idx + k))) with (length pre + Z.to_nat k)%nat by lia.
  by rewrite drop_app_add'.
Qed.

Lemma getUint32_field h F pre rest (v : DataView) idx k value :
  F = pre ++ rest →
  dv_buffer v = length h → dv_byteOffset v + idx = Z.of_nat (length pre) →
  0 ≤ dv_byteOffset v → 0 ≤ idx → 0 ≤ k →
  idx + k + 4 ≤ dv_byteLength v →
  dv_byteOffset v + dv_byteLength v ≤ Z.of_nat (length F) →
  take 4 (drop (Z.to_nat k) rest) = bytes_of_u32 value → is_u32 value →
  getUint 4 v (idx + k) true (h ++ [F]) = (Normal value, h ++ [F]).
Proof.
  intros. rewrite <- (uint_of_bytes_u32 value) at 1 by done.
  by apply getUint_record with (pre := pre) (rest := rest).
Qed.

(** Reads the 32-bit field at offset [k] of the record [rest] starts with. *)
Ltac read_field F pre rest idx k value :=
  erewrite bind_Normal
    by (apply (getUint32_field _ F pre rest _ idx k value); (done || lia)).

Lemma Cue_unpack_bytes h F pre post c (from : DataView) idx :
  Cue_fits c →
  F = pre ++ Cue_bytes c ++ post →
  dv_buffer from = length h → dv_byteOffset from + idx = Z.of_nat (length pre) →
  0 ≤ dv_byteOffset from → 0 ≤ idx → idx + 24 ≤ dv_byteLength from →
  dv_byteOffset from + dv_byteLength from ≤ Z.of_nat (length F) →
  Cue_unpack from idx (h ++ [F]) = (Normal c, h ++ [F]).
Proof.
  intros (?&?&?&?&?&?) HF ??????. unfold Cue_unpack, getUint32.
  read_field F pre (Cue_bytes c ++ post) idx 0 (cue_id c).
  read_field F pre (Cue_bytes c ++ post) idx 4 (cue_position c).
  read_field F pre (Cue_bytes c ++ post) idx 8 (cue_chunkId c).
  read_field F pre (Cue_bytes c ++ post) idx 12 (cue_chunkStart c).
  read_field F pre (Cue_bytes c ++ post) idx 16 (cue_blockStart c).
  read_field F pre (Cue_bytes c ++ post) idx 20 (cue_sampleOffset c).
  by destruct c.
Qed.

Lemma SampleLoop_unpack_bytes h F pre post l (from : DataView) idx :
  SampleLoop_fits l →
  F = pre ++ SampleLoop_bytes l ++ post →
  dv_buffer from = length h → dv_byteOffset from + idx = Z.of_nat (length pre) →
  0 ≤ dv_byteOffset from → 0 ≤ idx → idx + 24 ≤ dv_byteLength from →
  dv_byteOffset from + dv_byteLength from ≤ Z.of_nat (length F) →
  SampleLoop_unpack from idx (h ++ [F]) = (Normal l, h ++ [F]).
Proof.
  intros (?&?&?&?&?&?) HF ??????. unfold SampleLoop_unpack, getUint32.
  read_field F pre (SampleLoop_bytes l ++ post) idx 0 (loop_id l).
  read_field F pre (SampleLoop_bytes l ++ post) idx 4 (loop_type l).
  read_field F pre (SampleLoop_bytes l ++ post) idx 8 (loop_start l).
  read_field F pre (SampleLoop_bytes l ++ post) idx 12 (loop_end l).
  read_field F pre (SampleLoop_bytes l ++ post) idx 16 (loop_fraction l).
  read_field F pre (SampleLoop_bytes l ++ post) idx 20 (loop_playCount l).
  by destruct l.
Qed.

Lemma CueChunk_unpack_loop_bytes h F cues : ∀ pre post (from : DataView) idx,
  Forall Cue_fits cues →
  F = pre ++ concat (Cue_bytes <$> cues) ++ post →
  dv_buffer from = length h → dv_byteOffset from + idx = Z.of_nat (length pre) →
  0 ≤ dv_byteOffset from → 0 ≤ idx →
  idx + Z.of_nat (length cues) * 24 ≤ dv_byteLength from →
  dv_byteOffset from + dv_byteLength from ≤ Z.of_nat (length F) →
  CueChunk_unpack_loop from (length cues) idx (h ++ [F]) = (Normal cues, h ++ [F]).
Proof.
  induction cues as [|c cues IH]; intros pre post from idx Hfits HF ??????; [done|].
  apply Forall_cons in Hfits as [Hc Hfits].
  rewrite fmap_cons in HF. cbn [concat] in HF. rewrite <- app_assoc in HF.
  rewrite length_cons in *. cbn [CueChunk_unpack_loop].
  erewrite bind_Normal by (eapply Cue_unpack_bytes; (done || lia)).
  erewrite bind_Normal; [reflexivity|].
  apply (IH (pre ++ Cue_bytes c) post); try (done || lia).
  - by rewrite <- app_assoc.
  - rewrite length_app, length_Cue_bytes. lia.
Qed.

Lemma SampleChunk_unpack_loop_bytes h F ls : ∀ pre post (from : DataView) idx,
  Forall SampleLoop_fits ls →
  F = pre ++ concat (SampleLoop_bytes <$> ls) ++ post →
  dv_buffer from = length h → dv_byteOffset from + idx = Z.of_nat (length pre) →
  0 ≤ dv_byteOffset from → 0 ≤ idx →
  idx + Z.of_nat (length ls) * 24 ≤ dv_byteLength from →
  dv_byteOffset from + dv_byteLength from ≤ Z.of_nat (length F) →
  SampleChunk_unpack_loop from (length ls) idx (h ++ [F]) = (Normal ls, h ++ [F]).
Proof.
  induction ls as [|l ls IH]; intros pre post from idx Hfits HF ??????; [done|].
  apply Forall_cons in Hfits as [Hl Hfits].
  rewrite fmap_cons in HF. cbn [concat] in HF. rewrite <- app_assoc in HF.
  rewrite length_cons in *. cbn [SampleChunk_unpack_loop].
  erewrite bind_Normal by (eapply SampleLoop_unpack_bytes; (done || lia)).
  erewrite bind_Normal; [reflexivity|].
  apply (IH (pre ++ SampleLoop_bytes l) post); try (done || lia).
  - by rewrite <- app_assoc.
  - rewrite length_app, length_SampleLoop_bytes. lia.
Qed.

(** [CueChunk.unpack] on the bytes of a cue chunk. *)
Lemma CueChunk_unpack_bytes h pre post cues tag :
  Forall Cue_fits cues →
  let body := body_bytes h (CCue cues) in
  Z.of_nat (length body) < 4294967296 →
  CueChunk_unpack (mkDataView (length h) (Z.of_nat (length pre)) (Z.of_nat (length body)))
    tag (h ++ [pre ++ body ++ post])
  = (Normal (CCue cues), h ++ [pre ++ body ++ post]).
Proof.
  intros Hfits body Hsmall. set (F := pre ++ body ++ post).
  assert (Hbody : Z.of_nat (length body) = 4 + Z.of_nat (length cues) * 24).
  { unfold body. cbn [body_bytes]. rewrite length_app, length_concat_24 by done.
    rewrite length_bytes_of_u32. lia. }
  assert (HlenF : Z.of_nat (length F)
                  = Z.of_nat (length pre) + Z.of_nat (length body) + Z.of_nat (length post)).
  { unfold F. rewrite !length_app. lia. }
  unfold CueChunk_unpack, getUint32.
  erewrite bind_Normal.
  2:{ apply (getUint32_field h F pre (body ++ post) _ 0 0 (Z.of_nat (length cues)));
        cbn [dv_buffer dv_byteOffset dv_byteLength]; try (done || lia).
      unfold is_u32. lia. }
  rewrite Nat2Z.id.
  erewrite bind_Normal; [reflexivity|].
  apply (CueChunk_unpack_loop_bytes h F cues
           (pre ++ bytes_of_u32 (Z.of_nat (length cues))) post);
    cbn [dv_buffer dv_byteOffset dv_byteLength]; try (done || lia).
  - unfold F, body. cbn [body_bytes]. by rewrite <- !app_assoc.
  - rewrite length_app, length_bytes_of_u32. lia.
Qed.

(** [SampleChunk.unpack] on the bytes of a canonical sample chunk. *)
Lemma SampleChunk_unpack_bytes h pre post s tag :
  canonical h (CSample s) →
  let body := body_bytes h (CSample s) in
  Z.of_nat (length body) < 4294967296 →
  SampleChunk_unpack (mkDataView (length h) (Z.of_nat (length pre)) (Z.of_nat (length body)))
    tag (h ++ [pre ++ body ++ post])
  = (Normal (decoded (length h) (Z.of_nat (length pre)) (CSample s)),
     h ++ [pre ++ body ++ post]).
Proof.
  intros (Hm & Hp & Hsp & Hun & Hpf & Hsf & Hso & Hloops & Hdata) body Hsmall.
  set (F := pre ++ body ++ post).
  set (count := Z.of_nat (length (sampleLoops s))).
  set (size := match samplerData s with Some d => ta_length d | None => 0 end).
  set (data := match samplerData s with Some d => array_contents h d | None => [] end).
  assert (Hdatalen : Z.of_nat (length data) = size).
  { unfold data, size. destruct (samplerData s); [|done].
    apply valid_array_length. by destruct Hdata. }
  assert (Hbody : Z.of_nat (length body) = 36 + count * 24 + size).
  { unfold body. cbn [body_bytes]. unfold SampleChunk_bytes. fold data.
    rewrite !length_app, length_concat_24, !length_bytes_of_u32 by done. lia. }
  assert (HlenF : Z.of_nat (length F)
                  = Z.of_nat (length pre) + Z.of_nat (length body) + Z.of_nat (length post)).
  { unfold F. rewrite !length_app. lia. }
  assert (is_u32 count) by (unfold is_u32; lia).
  assert (is_u32 size) by (unfold is_u32; lia).
  set (from := mkDataView _ _ _).
  assert (Hfield : ∀ k value,
            0 ≤ k → k + 4 ≤ 36 →
            take 4 (drop (Z.to_nat k) (body ++ post)) = bytes_of_u32 value →
            is_u32 value →
            getUint32 from k true (h ++ [F]) = (Normal value, h ++ [F])).
  { intros k value ????.
    apply (getUint32_field h F pre (body ++ post) from 0 k value);
      unfold from; cbn [dv_buffer dv_byteOffset dv_byteLength]; (done || lia). }
  unfold SampleChunk_unpack.
  rewrite (bind_Normal _ _ _ _ _ (Hfield 28 count ltac:(lia) ltac:(lia) eq_refl ltac:(done))).
  rewrite (bind_Normal _ _ _ _ _ (Hfield 32 size ltac:(lia) ltac:(lia) eq_refl ltac:(done))).
  assert (Hview :
    (if decide (size ≠ 0)
     then let* d := new_Uint8Array (dv_buffer from) (dv_byteOffset from + 36 + count * 24) size in
          ret (Some d)
     else ret None) (h ++ [F])
    = (Normal (match samplerData s with
               | Some d => Some (mkTypedArray (length h)
                                   (Z.of_nat (length pre) + 36 + count * 24) (ta_length d))
               | None => None
               end), h ++ [F])).
  { unfold size. destruct (samplerData s) as [d|].
    - destruct Hdata as [Hvalid Hnonzero]. rewrite decide_True by done.
      erewrite bind_Normal; [reflexivity|].
      unfold from. cbn [dv_buffer dv_byteOffset].
      apply new_Uint8Array_in_file; unfold size in *; lia.
    - by rewrite decide_False by (by intros []). }
  rewrite (bind_Normal _ _ _ _ _ Hview).
  erewrite bind_Normal.
  2:{ unfold count. rewrite Nat2Z.id.
      apply (SampleChunk_unpack_loop_bytes h F (sampleLoops s)
               (pre ++ take 36 body) (data ++ post));
        unfold from; cbn [dv_buffer dv_byteOffset dv_byteLength]; try (done || lia);
        first [ unfold F, body; cbn [body_bytes]; unfold SampleChunk_bytes; fold data;
                by rewrite <- !app_assoc
              | rewrite length_app; unfold body; cbn [body_bytes];
                unfold SampleChunk_bytes; simpl length; lia
              | fold count; lia ]. }
  rewrite (bind_Normal _ _ _ _ _
             (Hfield 8 (samplePeriod s) ltac:(lia) ltac:(lia) eq_refl ltac:(done))).
  rewrite (bind_Normal _ _ _ _ _
             (Hfield 0 (manufacturer s) ltac:(lia) ltac:(lia) eq_refl ltac:(done))).
  rewrite (bind_Normal _ _ _ _ _
             (Hfield 4 (product s) ltac:(lia) ltac:(lia) eq_refl ltac:(done))).
  rewrite (bind_Normal _ _ _ _ _
             (Hfield 12 (midiUnityNote s) ltac:(lia) ltac:(lia) eq_refl ltac:(done))).
  rewrite (bind_Normal _ _ _ _ _
             (Hfield 16 (midiPitchFraction s) ltac:(lia) ltac:(lia) eq_refl ltac:(done))).
  rewrite (bind_Normal _ _ _ _ _
             (Hfield 20 (smpteFormat s) ltac:(lia) ltac:(lia) eq_refl ltac:(done))).
  rewrite (bind_Normal _ _ _ _ _
             (Hfield 24 (smpteOffset s) ltac:(lia) ltac:(lia) eq_refl ltac:(done))).
  done.
Qed.

Lemma chunk_tag_u32 h c : canonical h c → is_u32 (chunk_tag c).
Proof.
  destruct c as [tag data|f|cues|s|?|?|?|data]; cbn [canonical chunk_tag]; try done.
  by intros (_ & ? & _).
Qed.

(** The classes of the top-level registry. *)
Lemma Wave_chunkRegistry_lookup :
  registry_lookup Wave_chunkRegistry ChunkTagsBE.FMT = FormatChunk_static ∧
  registry_lookup Wave_chunkRegistry ChunkTagsBE.DATA = DataChunk_static ∧
  registry_lookup Wave_chunkRegistry ChunkTagsBE.CUE = CueChunk_static ∧
  registry_lookup Wave_chunkRegistry ChunkTagsBE.SMPL = SampleChunk_static ∧
  registry_lookup Wave_chunkRegistry ChunkTagsBE.LIST = ListChunk_static.
Proof.
  unfold registry_lookup, Wave_chunkRegistry.
  split_and!; repeat (rewrite lookup_insert_ne by done);
    by rewrite ?lookup_insert_eq, ?lookup_singleton_eq.
Qed.

(** [unpack] of the class the top-level registry has for the tag, on the
    body of a canonical chunk in a file. *)
Lemma unpack_canonical h pre post c :
  canonical h c →
  let body := body_bytes h c in
  Z.of_nat (length body) < 4294967296 →
  unpack (registry_lookup Wave_chunkRegistry (chunk_tag c))
    (mkDataView (length h) (Z.of_nat (length pre)) (Z.of_nat (length body)))
    (chunk_tag c) (h ++ [pre ++ body ++ post])
  = (Normal (decoded (length h) (Z.of_nat (length pre)) c), h ++ [pre ++ body ++ post]).
Proof.
  intros Hc body Hsmall. subst body.
  destruct c as [tag data|f|cues|s|?|?|?|data]; try done.
  - destruct Hc as (Hmiss & _ & Hvalid).
    pose proof (valid_array_length _ _ Hvalid) as Hlen.
    unfold registry_lookup. cbn [chunk_tag body_bytes decoded]. rewrite Hmiss. simpl.
    unfold UnknownChunk_unpack. cbn [dv_buffer dv_byteOffset dv_byteLength].
    erewrite bind_Normal
      by (apply new_Uint8Array_in_file; [lia|lia|rewrite !length_app; lia]).
    by rewrite Hlen.
  - replace (registry_lookup Wave_chunkRegistry (chunk_tag (CFormat f)))
      with FormatChunk_static by (symmetry; apply Wave_chunkRegistry_lookup).
    by apply FormatChunk_unpack_bytes.
  - replace (registry_lookup Wave_chunkRegistry (chunk_tag (CCue cues)))
      with CueChunk_static by (symmetry; apply Wave_chunkRegistry_lookup).
    by apply CueChunk_unpack_bytes.
  - replace (registry_lookup Wave_chunkRegistry (chunk_tag (CSample s)))
      with SampleChunk_static by (symmetry; apply Wave_chunkRegistry_lookup).
    by apply SampleChunk_unpack_bytes.
  - pose proof (valid_array_length _ _ Hc) as Hlen.
    replace (registry_lookup Wave_chunkRegistry (chunk_tag (CData data)))
      with DataChunk_static by (symmetry; apply Wave_chunkRegistry_lookup).
    cbn [chunk_tag body_bytes decoded unpack DataChunk_static].
    unfold DataChunk_unpack. cbn [dv_buffer dv_byteOffset dv_byteLength].
    erewrite bind_Normal
      by (apply new_Uint8Array_in_file; [lia|lia|rewrite !length_app; lia]).
    by rewrite Hlen.
Qed.

Lemma canonical_unpacks h c : canonical h c → unpacks h c.
Proof.
  intros Hc. split; [by eapply chunk_tag_u32|]. intros pre post Hsmall.
  by apply unpack_canonical.
Qed.

(** A 32-bit read at [idx] of a view, of the four bytes [d] that lie there. *)
Lemma getUint32_in_view h F pre d post (v : DataView) idx le :
  F = pre ++ d ++ post → length d = 4%nat →
  dv_buffer v = length h → dv_byteOffset v + idx = Z.of_nat (length pre) →
  0 ≤ dv_byteOffset v → 0 ≤ idx → idx + 4 ≤ dv_byteLength v →
  dv_byteOffset v + dv_byteLength v ≤ Z.of_nat (length F) →
  getUint32 v idx le (h ++ [F]) = (Normal (uint_of_bytes (endian le d)), h ++ [F]).
Proof.
  intros -> Hd Hbuf Hoff ????. unfold getUint32.
  erewrite getUint_Some with (bs := pre ++ d ++ post);
    [|rewrite Hbuf; by apply list_lookup_middle|lia..].
  do 4 f_equal. rewrite Hoff, Nat2Z.id, drop_app_length.
  by apply take_app_length'.
Qed.

Lemma slice_bytes_in_file pre d post :
  slice_bytes (pre ++ d ++ post) (Z.of_nat (length pre))
    (Z.of_nat (length pre) + Z.of_nat (length d)) = d.
Proof.
  unfold slice_bytes. rewrite !length_app.
  rewrite Z.max_l, Z.min_l, Z.max_l, Z.min_l, Z.max_l by lia.
  rewrite Nat2Z.id, drop_app_length.
  apply take_app_length'. lia.
Qed.

Lemma LABL_unpack_bytes h pre post cueId s tag :
  is_u32 cueId → ascii_text s →
  ListChunk_ADTL_LABL_unpack
    (mkDataView (length h) (Z.of_nat (length pre))
       (Z.of_nat (length (label_bytes cueId s))))
    tag (h ++ [pre ++ label_bytes cueId s ++ post])
  = (Normal (CLabl cueId s), h ++ [pre ++ label_bytes cueId s ++ post]).
Proof.
  intros Hid Hs.
  pose proof (length_label_bytes cueId s) as Hlen.
  pose proof (ListChunk_ADTL_LABL_length_bounds s) as Hbounds. cbv zeta in Hbounds.
  set (len := ListChunk_ADTL_LABL_length s) in *.
  set (k := (Z.to_nat (len - 4) - length s)%nat).
  set (text := byte_of_Z <$> s).
  assert (Hbody : label_bytes cueId s = bytes_of_u32 cueId ++ text ++ replicate k x00) by done.
  unfold ListChunk_ADTL_LABL_unpack.
  erewrite bind_Normal.
  2:{ apply (getUint32_in_view h _ pre (bytes_of_u32 cueId)
               (text ++ replicate k x00 ++ post));
        cbn [dv_buffer dv_byteOffset dv_byteLength]; try (done || lia).
      - rewrite Hbody. by rewrite <- !app_assoc.
      - rewrite !length_app. lia. }
  cbn [endian]. rewrite uint_of_bytes_u32 by done.
  cbn [dv_buffer dv_byteOffset dv_byteLength].
  unfold bind, ArrayBuffer_slice. rewrite list_lookup_middle by done.
  assert (Hslice : slice_bytes (pre ++ label_bytes cueId s ++ post)
                     (Z.of_nat (length pre) + 4)
                     (Z.of_nat (length pre) + Z.of_nat (length (label_bytes cueId s)))
                   = text ++ replicate k x00).
  { rewrite Hbody at 1.
    replace (pre ++ (bytes_of_u32 cueId ++ text ++ replicate k x00) ++ post)
      with ((pre ++ bytes_of_u32 cueId) ++ (text ++ replicate k x00) ++ post)
      by (by rewrite <- !app_assoc).
    replace (Z.of_nat (length pre) + 4) with (Z.of_nat (length (pre ++ bytes_of_u32 cueId)))
      by (rewrite length_app; simpl; lia).
    replace (Z.of_nat (length pre) + Z.of_nat (length (label_bytes cueId s)))
      with (Z.of_nat (length (pre ++ bytes_of_u32 cueId))
            + Z.of_nat (length (text ++ replicate k x00))).
    - apply slice_bytes_in_file.
    - rewrite Hbody, !length_app. simpl. lia. }
  rewrite Hslice.
  assert (Hk : replicate k x00 = x00 :: replicate (k - 1) x00).
  { destruct k eqn:Ek; [lia|]. simpl. by rewrite Nat.sub_0_r. }
  rewrite Hk. unfold text. rewrite indexOf_zero_ascii by done.
  rewrite decide_True by lia. unfold ret. do 3 f_equal.
  rewrite <- Hk.
  assert (Htext : slice_bytes ((byte_of_Z <$> s) ++ replicate k x00) 0
                    (0 + Z.of_nat (length s)) = byte_of_Z <$> s).
  { unfold slice_bytes. rewrite length_app, length_fmap.
    rewrite Z.max_l, Z.min_l, Z.max_l, Z.min_l, Z.max_l by lia.
    rewrite drop_0. apply take_app_length'. rewrite length_fmap. lia. }
  rewrite Htext. by apply TextDecoder_decode_ascii.
Qed.

Lemma uint_of_tag_bytes v :
  is_u32 v → uint_of_bytes (endian false (reverse (bytes_of_u32 v))) = v.
Proof. intros. cbn [endian]. by rewrite reverse_involutive, uint_of_bytes_u32. Qed.

(** The loop of [ListChunk_ADTL.unpack] over the bytes of labels. *)
Lemma ADTL_unpack_loop_bytes h F (from : DataView) fuel items : ∀ pre acc post,
  Forall label_ok items →
  F = pre ++ concat (item_bytes <$> items) ++ post →
  dv_buffer from = length h → 0 ≤ dv_byteOffset from →
  dv_byteOffset from ≤ Z.of_nat (length pre) →
  (Z.of_nat (length pre) - dv_byteOffset from) `mod` 2 = 0 →
  Z.of_nat (length pre) - dv_byteOffset from
    + Z.of_nat (length (concat (item_bytes <$> items))) = dv_byteLength from →
  dv_byteLength from < 4294967296 →
  dv_byteLength from ≤ Z.of_nat fuel →
  ListChunk_ADTL_unpack_loop fuel from (Z.of_nat (length pre) - dv_byteOffset from) acc
    (h ++ [F])
  = (Normal (acc ++ items), h ++ [F]).
Proof.
  induction items as [|c items IH];
    intros pre acc post Hitems HF Hbuf Hoff Hpre Heven Hend Hsmall Hfuel;
    rewrite ListChunk_ADTL_unpack_loop_unfold by lia.
  { simpl in Hend. rewrite decide_False by lia. by rewrite app_nil_r. }
  apply Forall_cons in Hitems as [Hc Hitems].
  destruct (length_item_bytes c Hc) as (cueId & s & -> & Hlen).
  destruct Hc as [Hid Hs].
  pose proof (ListChunk_ADTL_LABL_length_bounds s) as Hsize. cbv zeta in Hsize.
  pose proof (length_label_bytes cueId s) as Hbody.
  rewrite fmap_cons in HF, Hend. cbn [concat] in HF, Hend. rewrite length_app in Hend.
  set (len := ListChunk_ADTL_LABL_length s) in *.
  set (rest := concat (item_bytes <$> items)) in *.
  set (idx := Z.of_nat (length pre) - dv_byteOffset from) in *.
  assert (HlenF : Z.of_nat (length F)
                  = Z.of_nat (length pre) + Z.of_nat (length (item_bytes (CLabl cueId s)))
                    + Z.of_nat (length rest) + Z.of_nat (length post)).
  { rewrite HF, !length_app. lia. }
  assert (is_u32 len) by (unfold is_u32; lia).
  rewrite decide_True by lia.
  cbn [item_bytes] in HF. fold len in HF. rewrite <- !app_assoc in HF.
  erewrite bind_Normal.
  2:{ apply (getUint32_in_view h F pre (reverse (bytes_of_u32 ChunkTagsBE.labl))
               (bytes_of_u32 len ++ label_bytes cueId s ++ rest ++ post));
        try (done || lia). }
  rewrite uint_of_tag_bytes by (by vm_compute).
  erewrite bind_Normal.
  2:{ apply (getUint32_in_view h F (pre ++ reverse (bytes_of_u32 ChunkTagsBE.labl))
               (bytes_of_u32 len) (label_bytes cueId s ++ rest ++ post));
        rewrite ?length_app, ?length_reverse; simpl length; try (done || lia).
      rewrite HF. by rewrite <- !app_assoc. }
  cbn [endian]. rewrite uint_of_bytes_u32 by done.
  rewrite Hbuf.
  erewrite bind_Normal by (apply new_DataView_in_file; lia).
  replace (registry_lookup ListChunk_ADTL_chunkRegistry ChunkTagsBE.labl)
    with ListChunk_ADTL_LABL_static
    by (unfold registry_lookup, ListChunk_ADTL_chunkRegistry; by rewrite lookup_singleton_eq).
  set (pre' := pre ++ reverse (bytes_of_u32 ChunkTagsBE.labl) ++ bytes_of_u32 len).
  assert (Hpre' : Z.of_nat (length pre') = Z.of_nat (length pre) + 8).
  { unfold pre'. rewrite !length_app, length_reverse. simpl. lia. }
  assert (HF' : F = pre' ++ label_bytes cueId s ++ rest ++ post).
  { rewrite HF. unfold pre'. by rewrite <- !app_assoc. }
  erewrite bind_Normal.
  2:{ cbn [unpack ListChunk_ADTL_LABL_static].
      replace (dv_byteOffset from + (idx + 8)) with (Z.of_nat (length pre')) by lia.
      rewrite <- Hbody, HF'. by apply LABL_unpack_bytes. }
  rewrite <- HF'.
  rewrite decide_False by (rewrite land_1_mod; Z.div_mod_to_equations; lia).
  replace (idx + 8 + len)
    with (Z.of_nat (length (pre' ++ label_bytes cueId s)) - dv_byteOffset from)
    by (rewrite length_app; lia).
  rewrite (IH (pre' ++ label_bytes cueId s) _ post); try done.
  - by rewrite <- app_assoc.
  - rewrite HF'. by rewrite <- !app_assoc.
  - rewrite length_app. lia.
  - rewrite length_app. Z.div_mod_to_equations. lia.
  - rewrite length_app. lia.
Qed.

Lemma labels_list_unpacks h c : labels_list c → unpacks h c.
Proof.
  destruct c as [| | | | | |body|]; try done.
  destruct body as [| | | | |items| |]; try done. cbn [labels_list]. intros Hitems.
  split; [by vm_compute|]. intros pre post Hsmall.
  cbn [chunk_tag body_bytes decoded] in *.
  set (rest := concat (item_bytes <$> items)) in *.
  set (body := reverse (bytes_of_u32 ChunkTagsBE.adtl) ++ rest) in *.
  set (F := pre ++ body ++ post).
  assert (Hbody : Z.of_nat (length body) = 4 + Z.of_nat (length rest)).
  { unfold body. rewrite length_app, length_reverse. simpl. lia. }
  replace (registry_lookup Wave_chunkRegistry ChunkTagsBE.LIST)
    with ListChunk_static by (symmetry; apply Wave_chunkRegistry_lookup).
  cbn [unpack ListChunk_static]. unfold ListChunk_unpack.
  erewrite bind_Normal.
  2:{ apply (getUint32_in_view h F pre (reverse (bytes_of_u32 ChunkTagsBE.adtl))
               (rest ++ post));
        cbn [dv_buffer dv_byteOffset dv_byteLength]; try (done || lia);
        first [ unfold F, body; by rewrite <- !app_assoc
              | unfold F; rewrite !length_app; lia ]. }
  rewrite uint_of_tag_bytes by (by vm_compute).
  cbn [dv_buffer dv_byteOffset dv_byteLength].
  erewrite bind_Normal
    by (apply new_DataView_in_file; unfold F; rewrite ?length_app; lia).
  replace (registry_lookup ListChunk_chunkRegistry ChunkTagsBE.adtl)
    with ListChunk_ADTL_static
    by (unfold registry_lookup, ListChunk_chunkRegistry; by rewrite lookup_singleton_eq).
  cbn [unpack ListChunk_ADTL_static]. unfold ListChunk_ADTL_unpack.
  cbn [dv_byteLength].
  set (from := mkDataView (length h) (Z.of_nat (length pre) + 4)
                 (Z.of_nat (length body) - 4)).
  set (pre' := pre ++ reverse (bytes_of_u32 ChunkTagsBE.adtl)).
  assert (Hpre' : Z.of_nat (length pre') = Z.of_nat (length pre) + 4).
  { unfold pre'. rewrite length_app, length_reverse. simpl. lia. }
  replace 0 with (Z.of_nat (length pre') - dv_byteOffset from) at 1 by (simpl; lia).
  erewrite bind_Normal; [reflexivity|].
  erewrite bind_Normal; [reflexivity|].
  apply (ADTL_unpack_loop_bytes h F from _ items pre' [] post);
    cbn [from dv_buffer dv_byteOffset dv_byteLength]; try (done || lia);
    first [ unfold F, pre', body; by rewrite <- !app_assoc
          | rewrite Hpre';
            by replace (Z.of_nat (length pre) + 4 - (Z.of_nat (length pre) + 4)) with 0 by lia
          | fold rest; lia
          | unfold F; rewrite !length_app; lia ].
Qed.

Lemma ends_with_body_size h c cs :
  ends_with_body h (c :: cs) →
  8 < Z.of_nat (length (chunk_bytes h c)) + Z.of_nat (length (chunks_bytes h cs)).
Proof.
  intros Hlast. pose proof (length_chunk_bytes h c) as Hc.
  unfold roundUpToEven in Hc.
  destruct cs as [|c' cs].
  - specialize (Hlast c eq_refl).
    destruct (body_bytes h c); [done|]. simpl length in *.
    case_decide; lia.
  - unfold chunks_bytes. rewrite fmap_cons. cbn [concat]. rewrite length_app.
    pose proof (length_chunk_bytes h c') as Hc'. unfold roundUpToEven in Hc'.
    repeat case_decide; lia.
Qed.

Lemma ends_with_body_tail h c cs : ends_with_body h (c :: cs) → ends_with_body h cs.
Proof.
  intros Hlast c' Hc'. apply Hlast. destruct cs; [done|]. by rewrite last_cons_cons.
Qed.

(** A 32-bit read through the view of the whole file. *)
Lemma getUint32_at h F pre d post le :
  F = pre ++ d ++ post → length d = 4%nat →
  getUint32 (mkDataView (length h) 0 (Z.of_nat (length F))) (Z.of_nat (length pre)) le
    (h ++ [F])
  = (Normal (uint_of_bytes (endian le d)), h ++ [F]).
Proof.
  intros HF Hd. unfold getUint32.
  erewrite (getUint_in_file h F [] F); [|done|done|done|lia|lia| |simpl; lia].
  - do 4 f_equal. rewrite HF, Nat2Z.id, drop_app_length.
    by apply take_app_length'.
  - simpl. rewrite HF, !length_app. lia.
Qed.

(** The loop of [decode] over the bytes of chunks that [unpack] gives back,
    when the length field says that the file ends with them or up to 8
    bytes later; the last of them has a body, unless the field tells its
    end. *)
Lemma decode_loop_chunks h F fuel fileLength cs : ∀ pre acc post,
  Forall (unpacks h) cs →
  (fileLength < Z.of_nat (length pre) + Z.of_nat (length (chunks_bytes h cs)) →
   ends_with_body h cs) →
  Z.of_nat (length pre) `mod` 2 = 0 →
  F = pre ++ chunks_bytes h cs ++ post →
  Z.of_nat (length pre) + Z.of_nat (length (chunks_bytes h cs)) - 8 ≤ fileLength
    ≤ Z.of_nat (length pre) + Z.of_nat (length (chunks_bytes h cs)) →
  Z.of_nat (length F) < 4294967296 →
  fileLength ≤ Z.of_nat fuel →
  decode_loop fuel (length h) (mkDataView (length h) 0 (Z.of_nat (length F))) fileLength
    (Z.of_nat (length pre)) acc (h ++ [F])
  = (Normal (acc ++ decoded_chunks (length h) h (Z.of_nat (length pre)) cs), h ++ [F]).
Proof.
  induction cs as [|c cs IH]; intros pre acc post Hcs Hlast Heven HF Hlen Hsmall Hfuel;
    rewrite decode_loop_unfold by lia.
  { rewrite decide_False.
    - cbn [decoded_chunks]. by rewrite app_nil_r.
    - unfold chunks_bytes in Hlen. simpl in Hlen. lia. }
  apply Forall_cons in Hcs as [[Htag Hc] Hcs].
  assert (Hsize : Z.of_nat (length pre) < fileLength).
  { destruct (decide (fileLength
                      < Z.of_nat (length pre) + Z.of_nat (length (chunks_bytes h (c :: cs)))))
      as [Hshort|Hwhole].
    - pose proof (ends_with_body_size _ _ _ (Hlast Hshort)) as Hsize.
      unfold chunks_bytes in Hlen. rewrite fmap_cons in Hlen. cbn [concat] in Hlen.
      rewrite length_app in Hlen. fold (chunks_bytes h cs) in Hlen. lia.
    - pose proof (length_chunks_bytes_cons h c cs). lia. }
  pose proof (length_chunk_bytes h c) as Hchunk.
  pose proof (length_pad_bytes (Z.of_nat (length (body_bytes h c)))) as Hpad.
  unfold chunks_bytes in HF, Hlen. rewrite fmap_cons in HF, Hlen. cbn [concat] in HF, Hlen.
  fold (chunks_bytes h cs) in HF, Hlen. rewrite length_app, Nat2Z.inj_add in Hlen.
  rewrite <- app_assoc in HF.
  set (len := Z.of_nat (length (body_bytes h c))) in *.
  set (rest := chunks_bytes h cs) in *.
  assert (HlenF : Z.of_nat (length F)
                  = Z.of_nat (length pre) + Z.of_nat (length (chunk_bytes h c))
                    + Z.of_nat (length rest) + Z.of_nat (length post)).
  { rewrite HF, !length_app. lia. }
  assert (is_u32 len) by (unfold is_u32; lia).
  rewrite decide_True by lia.
  (* the header *)
  rewrite Z.add_0_r.
  erewrite bind_Normal.
  2:{ apply getUint32_at
        with (d := reverse (bytes_of_u32 (chunk_tag c)))
             (post := bytes_of_u32 len ++ body_bytes h c ++ pad_bytes len ++ rest ++ post);
        [|done].
      rewrite HF. unfold chunk_bytes. fold len. by rewrite <- !app_assoc. }
  cbn [endian]. rewrite reverse_involutive, uint_of_bytes_u32
    by done.
  erewrite bind_Normal.
  2:{ replace (Z.of_nat (length pre) + 4)
        with (Z.of_nat (length (pre ++ reverse (bytes_of_u32 (chunk_tag c)))))
        by (rewrite length_app, length_reverse; simpl; lia).
      apply getUint32_at
        with (d := bytes_of_u32 len)
             (post := body_bytes h c ++ pad_bytes len ++ rest ++ post);
        [|done].
      rewrite HF. unfold chunk_bytes. fold len. by rewrite <- !app_assoc. }
  cbn [endian]. rewrite uint_of_bytes_u32 by done.
  (* the body *)
  erewrite bind_Normal by (apply new_DataView_in_file; lia).
  set (pre' := pre ++ reverse (bytes_of_u32 (chunk_tag c)) ++ bytes_of_u32 len).
  assert (Hpre' : Z.of_nat (length pre') = Z.of_nat (length pre) + 8).
  { unfold pre'. rewrite !length_app, length_reverse. simpl. lia. }
  assert (HF' : F = pre' ++ body_bytes h c ++ pad_bytes len ++ rest ++ post).
  { rewrite HF. unfold pre', chunk_bytes. fold len. by rewrite <- !app_assoc. }
  assert (Hunpack :
    unpack (registry_lookup Wave_chunkRegistry (chunk_tag c))
      (mkDataView (length h) (Z.of_nat (length pre) + 8) len) (chunk_tag c) (h ++ [F])
    = (Normal (decoded (length h) (Z.of_nat (length pre')) c), h ++ [F])).
  { rewrite <- Hpre'. unfold len. rewrite HF'. apply Hc.
    fold len. unfold is_u32 in *. lia. }
  rewrite (bind_Normal _ _ _ _ _ Hunpack).
  (* the pad, and the chunks after it *)
  set (pre'' := pre ++ chunk_bytes h c).
  assert (Hpre'' : (if decide (Z.land (Z.of_nat (length pre) + 8 + len) 1 ≠ 0)
                    then Z.of_nat (length pre) + 8 + len + 1
                    else Z.of_nat (length pre) + 8 + len)
                   = Z.of_nat (length pre'')).
  { unfold pre''. rewrite length_app, Nat2Z.inj_add, Hchunk.
    unfold roundUpToEven. rewrite !land_1_mod.
    repeat case_decide; try lia; Z.div_mod_to_equations; lia. }
  rewrite Hpre''.
  rewrite (IH pre'' _ post); try done.
  - cbn [decoded_chunks]. rewrite <- app_assoc. simpl.
    rewrite Hpre'. unfold pre''. by rewrite length_app, Nat2Z.inj_add.
  - intros Hshort. eapply ends_with_body_tail, Hlast.
    change (chunks_bytes h (c :: cs)) with (chunk_bytes h c ++ rest).
    unfold pre'' in Hshort. rewrite length_app in Hshort |- *. lia.
  - unfold pre''. rewrite length_app, Nat2Z.inj_add, Hchunk.
    pose proof (roundUpToEven_even (8 + len)). Z.div_mod_to_equations. lia.
  - unfold pre''. by rewrite <- app_assoc.
  - unfold pre''. rewrite length_app, Nat2Z.inj_add. fold rest. lia.
Qed.

Lemma length_file_bytes h cs :
  Z.of_nat (length (file_bytes h cs)) = 12 + Z.of_nat (length (chunks_bytes h cs)).
Proof. unfold file_bytes. rewrite !length_app, !length_reverse. simpl. lia. Qed.

(** [decode] past its three checks: what is left is the loop. *)
Lemma Wave_decode_good_header h buffer bs :
  h !! buffer = Some bs →
  take 4 bs = ["R"; "I"; "F"; "F"]%byte →
  take 4 (drop 8 bs) = ["W"; "A"; "V"; "E"]%byte →
  let fileLength := uint_of_bytes (take 4 (drop 4 bs)) in
  fileLength + 8 ≤ Z.of_nat (length bs) →
  Wave_decode buffer h
  = (let* chunks :=
       decode_loop (Z.to_nat fileLength) buffer
         (mkDataView buffer 0 (Z.of_nat (length bs))) fileLength 12 [] in
     ret (new_Wave chunks)) h.
Proof.
  intros Hb Hriff Hwave fileLength Hlen.
  assert (12 ≤ Z.of_nat (length bs)).
  { apply (f_equal length) in Hwave. rewrite length_take, length_drop in Hwave.
    cbn [length] in Hwave. lia. }
  unfold Wave_decode.
  erewrite bind_Normal by (by apply new_DataView_whole).
  erewrite bind_Normal by (apply getUint_Some with (bs := bs); simpl; (done || lia)).
  cbn [dv_byteOffset]. change (Z.to_nat (0 + 0)) with 0%nat. change (Z.to_nat 4) with 4%nat.
  rewrite drop_0, Hriff. rewrite decide_False by (by intros []).
  erewrite bind_Normal by (apply getUint_Some with (bs := bs); simpl; (done || lia)).
  cbn [dv_byteOffset]. change (Z.to_nat (0 + 8)) with 8%nat. change (Z.to_nat 4) with 4%nat.
  rewrite Hwave. rewrite decide_False by (by intros []).
  erewrite bind_Normal by (apply getUint_Some with (bs := bs); simpl; (done || lia)).
  cbn [dv_byteOffset]. change (Z.to_nat (0 + 4)) with 4%nat. change (Z.to_nat 4) with 4%nat.
  erewrite bind_Normal by (by apply ArrayBuffer_byteLength_Some).
  cbn [endian]. fold fileLength. by rewrite decide_False by lia.
Qed.

Lemma length_header_bytes L : length (header_bytes L) = 12%nat.
Proof. unfold header_bytes. by rewrite !length_app, !length_reverse. Qed.

Lemma file_bytes_header h cs :
  file_bytes h cs
  = header_bytes (12 + Z.of_nat (length (chunks_bytes h cs))) ++ chunks_bytes h cs.
Proof. unfold file_bytes, header_bytes. by rewrite <- !app_assoc. Qed.

(** [decode] of a file of such chunks and up to 8 bytes more. *)
Lemma Wave_decode_chunks_then h cs post :
  Forall (unpacks h) cs → ((length post < 8)%nat → ends_with_body h cs) →
  (length post ≤ 8)%nat →
  let L := 12 + Z.of_nat (length (chunks_bytes h cs)) + Z.of_nat (length post) in
  let F := header_bytes L ++ chunks_bytes h cs ++ post in
  L < 4294967296 →
  Wave_decode (length h) (h ++ [F])
  = (Normal (new_Wave (decoded_chunks (length h) h 12 cs)), h ++ [F]).
Proof.
  intros Hcs Hlast Hpost L F Hsmall.
  assert (HlenF : Z.of_nat (length F) = L).
  { unfold F. rewrite !length_app, length_header_bytes. lia. }
  assert (Hfield : uint_of_bytes (take 4 (drop 4 F)) = L - 8).
  { change (take 4 (drop 4 F)) with (bytes_of_u32 (L - 8)).
    apply uint_of_bytes_u32. unfold L. lia. }
  rewrite (Wave_decode_good_header _ _ F);
    [|by apply list_lookup_middle|done|done|rewrite Hfield; lia].
  rewrite Hfield.
  erewrite bind_Normal; [reflexivity|].
  change 12 with (Z.of_nat (length (header_bytes L))).
  rewrite <- (app_nil_l (decoded_chunks _ _ _ _)).
  apply (decode_loop_chunks h F _ _ cs (header_bytes L) [] post);
    rewrite ?length_header_bytes; try done; try lia.
  intros Hshort. apply Hlast. unfold L in Hshort. simpl in Hshort. lia.
Qed.

Lemma Wave_decode_canonical_then h cs post :
  Forall (canonical h) cs → ((length post < 8)%nat → ends_with_body h cs) →
  (length post ≤ 8)%nat →
  let L := 12 + Z.of_nat (length (chunks_bytes h cs)) + Z.of_nat (length post) in
  let F := header_bytes L ++ chunks_bytes h cs ++ post in
  L < 4294967296 →
  Wave_decode (length h) (h ++ [F])
  = (Normal (new_Wave (decoded_chunks (length h) h 12 cs)), h ++ [F]).
Proof.
  intros Hcs. apply Wave_decode_chunks_then.
  eapply Forall_impl; [exact Hcs|]. apply canonical_unpacks.
Qed.

Lemma Wave_decode_chunks h cs :
  Forall (unpacks h) cs → ends_with_body h cs →
  Z.of_nat (length (file_bytes h cs)) < 4294967296 →
  Wave_decode (length h) (h ++ [file_bytes h cs])
  = (Normal (new_Wave (decoded_chunks (length h) h 12 cs)), h ++ [file_bytes h cs]).
Proof.
  intros Hcs Hlast Hsmall. rewrite length_file_bytes in Hsmall.
  pose proof (Wave_decode_chunks_then h cs [] Hcs (λ _, Hlast) ltac:(simpl; lia)) as H.
  cbv zeta in H. rewrite app_nil_r, Z.add_0_r, <- file_bytes_header in H.
  apply H. simpl. lia.
Qed.

(** [decode] of the file of canonical chunks gives the chunks back, with
    views of the file for their payloads. *)
Lemma Wave_decode_canonical h cs :
  Forall (canonical h) cs → ends_with_body h cs →
  Z.of_nat (length (file_bytes h cs)) < 4294967296 →
  Wave_decode (length h) (h ++ [file_bytes h cs])
  = (Normal (new_Wave (decoded_chunks (length h) h 12 cs)), h ++ [file_bytes h cs]).
Proof.
  intros Hcs Hlast Hsmall. rewrite length_file_bytes in Hsmall.
  pose proof (Wave_decode_canonical_then h cs [] Hcs (λ _, Hlast) ltac:(simpl; lia)) as H.
  cbv zeta in H. rewrite app_nil_r, Z.add_0_r, <- file_bytes_header in H.
  apply H. simpl. lia.
Qed.

(** *** The round trip *)

Lemma shows_contents h a bs : shows h a bs → valid_array h a ∧ array_contents h a = bs.
Proof.
  intros Hshows. assert (array_contents h a = bs) as Hbs.
  { destruct Hshows as (buf & Hbuf & _ & _ & _ & ->). unfold array_contents. by rewrite Hbuf. }
  split; [|done]. unfold valid_array. by rewrite Hbs.
Qed.

Lemma same_array_in_file h pre post a :
  valid_array h a →
  same_array h (h ++ [pre ++ array_contents h a ++ post]) a
    (mkTypedArray (length h) (Z.of_nat (length pre)) (ta_length a)).
Proof.
  intros Hvalid. pose proof (valid_array_length _ _ Hvalid) as Hlen.
  destruct (shows_contents _ _ _
              (shows_in_file h pre (array_contents h a) post (ta_length a) (eq_sym Hlen)))
    as [? ?].
  done.
Qed.

Lemma decoded_same h pre post c :
  canonical h c →
  same_chunk h (h ++ [pre ++ body_bytes h c ++ post]) c
    (decoded (length h) (Z.of_nat (length pre)) c).
Proof.
  destruct c as [tag data|f|cues|s|?|?|?|data]; try done.
  - intros (_ & _ & Hvalid). split; [done|]. by apply same_array_in_file.
  - intros (_ & _ & _ & _ & _ & _ & Hextra). cbn [decoded same_chunk body_bytes].
    split_and!; try done. cbn [extraFormatBytes]. unfold FormatChunk_bytes.
    destruct (extraFormatBytes f) as [e|]; [|done].
    destruct Hextra as (Hcode & Hvalid & _). rewrite decide_True by done.
    set (fixed := bytes_of_u16 (compressionCode f) ++ bytes_of_u16 (channelCount f) ++
                  bytes_of_u32 (sampleRate f) ++ bytes_of_u32 (avgBytesPerSecond f) ++
                  bytes_of_u16 (blockAlign f) ++ bytes_of_u16 (sigBitsPerSample f) ++
                  bytes_of_u16 (ta_length e)).
    replace (pre ++ (bytes_of_u16 (compressionCode f) ++ bytes_of_u16 (channelCount f) ++
                     bytes_of_u32 (sampleRate f) ++ bytes_of_u32 (avgBytesPerSecond f) ++
                     bytes_of_u16 (blockAlign f) ++ bytes_of_u16 (sigBitsPerSample f) ++
                     bytes_of_u16 (ta_length e) ++ array_contents h e) ++ post)
      with ((pre ++ fixed) ++ array_contents h e ++ post)
      by (unfold fixed; by rewrite <- !app_assoc).
    replace (Z.of_nat (length pre) + 18) with (Z.of_nat (length (pre ++ fixed)))
      by (rewrite length_app; unfold fixed; simpl; lia).
    by apply same_array_in_file.
  - intros (_ & _ & _ & _ & _ & _ & _ & _ & Hdata). cbn [decoded same_chunk body_bytes].
    split_and!; try done. cbn [samplerData]. unfold SampleChunk_bytes.
    destruct (samplerData s) as [d|]; [|done].
    destruct Hdata as [Hvalid _].
    set (fixed := bytes_of_u32 (manufacturer s) ++ bytes_of_u32 (product s) ++
                  bytes_of_u32 (samplePeriod s) ++ bytes_of_u32 (midiUnityNote s) ++
                  bytes_of_u32 (midiPitchFraction s) ++ bytes_of_u32 (smpteFormat s) ++
                  bytes_of_u32 (smpteOffset s) ++
                  bytes_of_u32 (Z.of_nat (length (sampleLoops s))) ++
                  bytes_of_u32 (ta_length d) ++
                  concat (SampleLoop_bytes <$> sampleLoops s)).
    replace (pre ++ (bytes_of_u32 (manufacturer s) ++ bytes_of_u32 (product s) ++
                     bytes_of_u32 (samplePeriod s) ++ bytes_of_u32 (midiUnityNote s) ++
                     bytes_of_u32 (midiPitchFraction s) ++ bytes_of_u32 (smpteFormat s) ++
                     bytes_of_u32 (smpteOffset s) ++
                     bytes_of_u32 (Z.of_nat (length (sampleLoops s))) ++
                     bytes_of_u32 (ta_length d) ++
                     concat (SampleLoop_bytes <$> sampleLoops s) ++
                     array_contents h d) ++ post)
      with ((pre ++ fixed) ++ array_contents h d ++ post)
      by (unfold fixed; by rewrite <- !app_assoc).
    replace (Z.of_nat (length pre) + 36 + Z.of_nat (length (sampleLoops s)) * 24)
      with (Z.of_nat (length (pre ++ fixed))).
    + by apply same_array_in_file.
    + unfold fixed. rewrite !length_app, length_concat_24, !length_bytes_of_u32 by done.
      lia.
  - intros Hvalid. by apply same_array_in_file.
Qed.

Lemma decoded_same_labels h h' b off c :
  labels_list c → same_chunk h h' c (decoded b off c).
Proof.
  destruct c as [| | | | | |body|]; try done.
Qed.

Lemma decoded_chunks_same_either h cs : ∀ pre post,
  Forall (λ c, canonical h c ∨ labels_list c) cs →
  Forall2 (same_chunk h (h ++ [pre ++ chunks_bytes h cs ++ post])) cs
    (decoded_chunks (length h) h (Z.of_nat (length pre)) cs).
Proof.
  induction cs as [|c cs IH]; intros pre post Hcs; [constructor|].
  apply Forall_cons in Hcs as [Hc Hcs].
  unfold chunks_bytes. rewrite fmap_cons. cbn [concat decoded_chunks].
  fold (chunks_bytes h cs).
  constructor.
  - set (len := Z.of_nat (length (body_bytes h c))).
    set (pre' := pre ++ reverse (bytes_of_u32 (chunk_tag c)) ++ bytes_of_u32 len).
    replace (Z.of_nat (length pre) + 8) with (Z.of_nat (length pre'))
      by (unfold pre'; rewrite !length_app, length_reverse; simpl; lia).
    replace (pre ++ (chunk_bytes h c ++ chunks_bytes h cs) ++ post)
      with (pre' ++ body_bytes h c ++ pad_bytes len ++ chunks_bytes h cs ++ post)
      by (unfold pre', chunk_bytes; fold len; by rewrite <- !app_assoc).
    destruct Hc as [Hc|Hc]; [by apply decoded_same|by apply decoded_same_labels].
  - replace (Z.of_nat (length pre) + Z.of_nat (length (chunk_bytes h c)))
      with (Z.of_nat (length (pre ++ chunk_bytes h c)))
      by (rewrite length_app; lia).
    replace (pre ++ (chunk_bytes h c ++ chunks_bytes h cs) ++ post)
      with ((pre ++ chunk_bytes h c) ++ chunks_bytes h cs ++ post)
      by (by rewrite <- !app_assoc).
    by apply IH.
Qed.

Lemma decoded_chunks_same h cs pre post :
  Forall (canonical h) cs →
  Forall2 (same_chunk h (h ++ [pre ++ chunks_bytes h cs ++ post])) cs
    (decoded_chunks (length h) h (Z.of_nat (length pre)) cs).
Proof.
  intros Hcs. apply decoded_chunks_same_either.
  eapply Forall_impl; [exact Hcs|]. by left.
Qed.

Lemma decoded_chunks_same_file h cs :
  Forall (canonical h) cs →
  Forall2 (same_chunk h (h ++ [file_bytes h cs])) cs
    (decoded_chunks (length h) h 12 cs).
Proof.
  intros Hcs. rewrite file_bytes_header.
  rewrite <- (app_nil_r (chunks_bytes h cs)) at 2.
  change 12 with (Z.of_nat (length (header_bytes
    (12 + Z.of_nat (length (chunks_bytes h cs)))))).
  by apply decoded_chunks_same.
Qed.

(** X1. For a wave of canonical chunks that does not end with a chunk
    without a body, in a file of less than 4 GiB: [encode] returns the
    file, [decode] of the file returns a wave, and the chunks of that wave
    are those of the first, in their order, tag for tag and field for
    field, payloads byte for byte. Canonical chunks are: an unknown chunk
    whose tag is a 32-bit number without a class in [Wave.chunkRegistry];
    format, cue, sample and data chunks; no list chunks. Every number is
    within the 16 or 32 bits of its field, every payload is an array
    inside a buffer of the heap, a format chunk has an extension, of less
    than 65536 bytes, exactly when its code is above 1, and sampler data,
    if a sample chunk has any, is not empty. *)
Theorem canonical_round_trip (h : Heap) (cs : list Chunk) :
  Forall (canonical h) cs → ends_with_body h cs →
  Z.of_nat (length (file_bytes h cs)) < 4294967296 →
  ∃ file h' w',
    Wave_encode (new_Wave cs) h = (Normal file, h') ∧
    h' !! file = Some (file_bytes h cs) ∧
    Wave_decode file h' = (Normal w', h') ∧
    Forall2 (same_chunk h h') cs (chunks w').
Proof.
  intros Hcs Hlast Hsmall.
  exists (length h), (h ++ [file_bytes h cs]),
    (new_Wave (decoded_chunks (length h) h 12 cs)).
  split; [|split; [|split]].
  - apply (Wave_encode_writes_file h (new_Wave cs)). simpl.
    eapply Forall_impl; [exact Hcs|]. apply canonical_flat.
  - by apply list_lookup_middle.
  - by apply Wave_decode_canonical.
  - simpl. by apply decoded_chunks_same_file.
Qed.

(** The conditions hold of a PCM wave with four bytes of samples. *)
Example canonical_round_trip_pcm :
  ∃ file h' w',
    Wave_encode (new_Wave pcm_chunks) samples_heap = (Normal file, h') ∧
    h' !! file = Some (file_bytes samples_heap pcm_chunks) ∧
    Wave_decode file h' = (Normal w', h') ∧
    Forall2 (same_chunk samples_heap h') pcm_chunks (chunks w').
Proof.
  apply (canonical_round_trip samples_heap pcm_chunks).
  - repeat constructor; try (by vm_compute).
    exists [x01; x02; x03; x04]. by vm_compute.
  - intros c [= <-]. by vm_compute.
  - by vm_compute.
Defined.

Lemma same_chunk_bytes h h' c c' :
  canonical h c → same_chunk h h' c c' →
  canonical h' c' ∧ chunk_bytes h' c' = chunk_bytes h c.
Proof.
  destruct c as [tag data|f|cues|s|?|?|?|data]; try done;
    destruct c' as [tag' data'|f'|cues'|s'|?|?|?|data']; try done;
    unfold chunk_bytes; cbn [canonical same_chunk chunk_tag body_bytes].
  - intros (Hmiss & Htag & _) (-> & Hvalid & _ & Hbytes).
    split; [done|]. by rewrite Hbytes.
  - intros (? & ? & ? & ? & ? & ? & Hextra) (Hc & Hn & Hr & Ha & Hb & Hs & Hsame).
    unfold FormatChunk_bytes. rewrite Hc, Hn, Hr, Ha, Hb, Hs.
    destruct (extraFormatBytes f) as [e|], (extraFormatBytes f') as [e'|]; try done.
    destruct Hextra as (? & ? & ?), Hsame as (? & Hlen & Hbytes).
    rewrite Hlen, Hbytes. by split_and!.
  - by intros ? [= ->].
  - intros (? & ? & ? & ? & ? & ? & ? & ? & Hdata)
      (Hsp & Hl & Hm & Hp & Hun & Hpf & Hsf & Hso & Hsame).
    unfold SampleChunk_bytes. rewrite Hsp, Hl, Hm, Hp, Hun, Hpf, Hsf, Hso.
    destruct (samplerData s) as [d|], (samplerData s') as [d'|]; try done.
    destruct Hdata as (? & ?), Hsame as (? & Hlen & Hbytes).
    rewrite Hlen, Hbytes. split_and!; (done || lia).
  - intros _ (Hvalid & _ & Hbytes).
    split; [done|]. by rewrite Hbytes.
Qed.

Lemma same_chunks_bytes h h' cs cs' :
  Forall (canonical h) cs → Forall2 (same_chunk h h') cs cs' →
  Forall (canonical h') cs' ∧ chunks_bytes h' cs' = chunks_bytes h cs.
Proof.
  intros Hcs Hsame. unfold chunks_bytes.
  induction Hsame as [|c c' cs cs' Hc _ IH]; [done|].
  apply Forall_cons in Hcs as [Hcanon Hcs].
  destruct (same_chunk_bytes _ _ _ _ Hcanon Hc) as [? Hbytes].
  destruct (IH Hcs) as [? Hrest].
  split; [by constructor|]. rewrite !fmap_cons. cbn [concat]. by rewrite Hbytes, Hrest.
Qed.

(** X2. Under the same conditions (canonical chunks as in X1, the last
    one with a body, a file of less than 4 GiB), encoding what [decode]
    made of the file [encode] returned gives the file again, byte for
    byte. *)
Theorem canonical_encode_decode_encode (h : Heap) (cs : list Chunk) :
  Forall (canonical h) cs → ends_with_body h cs →
  Z.of_nat (length (file_bytes h cs)) < 4294967296 →
  ∃ B h' w' B' h'',
    Wave_encode (new_Wave cs) h = (Normal B, h') ∧
    Wave_decode B h' = (Normal w', h') ∧
    Wave_encode w' h' = (Normal B', h'') ∧
    h'' !! B = Some (file_bytes h cs) ∧ h'' !! B' = Some (file_bytes h cs).
Proof.
  intros Hcs Hlast Hsmall.
  set (h' := h ++ [file_bytes h cs]).
  set (cs' := decoded_chunks (length h) h 12 cs).
  pose proof (decoded_chunks_same_file h cs Hcs) as Hsame. fold h' cs' in Hsame.
  destruct (same_chunks_bytes _ _ _ _ Hcs Hsame) as [Hcs' Hbytes].
  assert (Hfile : file_bytes h' cs' = file_bytes h cs).
  { unfold file_bytes. by rewrite Hbytes. }
  exists (length h), h', (new_Wave cs'), (length h'), (h' ++ [file_bytes h' cs']).
  split_and!.
  - apply (Wave_encode_writes_file h (new_Wave cs)). simpl.
    eapply Forall_impl; [exact Hcs|]. apply canonical_flat.
  - by apply Wave_decode_canonical.
  - apply (Wave_encode_writes_file h' (new_Wave cs')). simpl.
    eapply Forall_impl; [exact Hcs'|]. apply canonical_flat.
  - apply lookup_app_l_Some. by apply list_lookup_middle.
  - rewrite Hfile. by apply list_lookup_middle.
Qed.

(** On the same PCM wave. *)
Lemma canonical_encode_decode_encode_witness :
  ∃ B h' w' B' h'',
    Wave_encode (new_Wave pcm_chunks) samples_heap = (Normal B, h') ∧
    Wave_decode B h' = (Normal w', h') ∧
    Wave_encode w' h' = (Normal B', h'') ∧
    h'' !! B = Some (file_bytes samples_heap pcm_chunks) ∧
    h'' !! B' = Some (file_bytes samples_heap pcm_chunks).
Proof.
  apply (canonical_encode_decode_encode samples_heap pcm_chunks).
  - repeat constructor; try (by vm_compute).
    exists [x01; x02; x03; x04]. by vm_compute.
  - intros c [= <-]. by vm_compute.
  - by vm_compute.
Defined.
(** ** tagToString *)

Lemma ToInt32_small v : -2147483648 ≤ v < 2147483648 → ToInt32 v = v.
Proof. unfold ToInt32. intros. Z.div_mod_to_equations. lia. Qed.

Lemma js_and_255 v : js_and v 255 = v `mod` 256.
Proof.
  unfold js_and. rewrite (ToInt32_small 255) by lia.
  change 255 with (Z.ones 8). rewrite Z.land_ones by lia.
  unfold ToInt32. change (2^8) with 256. Z.div_mod_to_equations. lia.
Qed.

(** X6. [tagToString] of the number that [getUint32(idx, false)] reads
    from four bytes is the string of these four bytes, in their order in
    the file, each as one character. *)
Theorem tagToString_bytes (b0 b1 b2 b3 : byte) :
  tagToString (uint_of_bytes (reverse [b0; b1; b2; b3]))
  = [Z_of_byte b0; Z_of_byte b1; Z_of_byte b2; Z_of_byte b3].
Proof.
  pose proof (Z_of_byte_range b0). pose proof (Z_of_byte_range b1).
  pose proof (Z_of_byte_range b2). pose proof (Z_of_byte_range b3).
  change (reverse [b0; b1; b2; b3]) with [b3; b2; b1; b0].
  cbn [uint_of_bytes].
  set (tag := Z_of_byte b3 + 256 * (Z_of_byte b2 + 256 * (Z_of_byte b1 + 256 * (Z_of_byte b0 + 256 * 0)))).
  unfold tagToString, String_fromCharCode. cbn [fmap list_fmap].
  rewrite !js_and_255. unfold js_shr.
  change (Z.land 24 31) with 24. change (Z.land 16 31) with 16.
  change (Z.land 8 31) with 8. change (Z.land 0 31) with 0.
  rewrite !Z.shiftr_div_pow2 by lia. unfold ToInt32.
  change (2^24) with 16777216. change (2^16) with 65536. change (2^8) with 256.
  change (2^0) with 1.
  repeat f_equal; subst tag; Z.div_mod_to_equations; lia.
Qed.

(** The tags of [ChunkTagsBE] read as their names. *)
Example tagToString_RIFF :
  tagToString ChunkTagsBE.RIFF = [82; 73; 70; 70] ∧
  tagToString ChunkTagsBE.FMT = [102; 109; 116; 32].
Proof. by vm_compute. Qed.

(** ** Wave.getChunk, Wave.addChunk and the cache *)

Lemma getChunk_loop_Some cs tag c :
  getChunk_loop cs tag = Some c ↔
  ∃ pre post, cs = pre ++ c :: post ∧ chunk_tag c = tag ∧
              Forall (λ x, chunk_tag x ≠ tag) pre.
Proof.
  induction cs as [|x cs IH]; simpl.
  - split; [done|]. intros (pre & post & H & _). by destruct pre.
  - case_decide as Hx.
    + split.
      * intros [= ->]. by exists [], cs.
      * intros ([|y pre] & post & H & Htag & Hpre).
        -- by injection H as ->.
        -- injection H as -> _. by apply Forall_cons in Hpre as [? _].
    + rewrite IH. split.
      * intros (pre & post & -> & Htag & Hpre). exists (x :: pre), post.
        split_and!; [done|done|by constructor].
      * intros ([|y pre] & post & H & Htag & Hpre).
        -- injection H as -> _. done.
        -- injection H as -> ->. apply Forall_cons in Hpre as [_ Hpre].
           by exists pre, post.
Qed.

Lemma getChunk_loop_None cs tag :
  getChunk_loop cs tag = None ↔ Forall (λ x, chunk_tag x ≠ tag) cs.
Proof.
  induction cs as [|x cs IH]; simpl; [done|].
  case_decide as Hx.
  - split; [done|]. by intros [? _]%Forall_cons.
  - rewrite IH. split; [by constructor|]. by intros [_ ?]%Forall_cons.
Qed.

Lemma getChunk_loop_app cs cs' tag :
  getChunk_loop (cs ++ cs') tag
  = match getChunk_loop cs tag with
    | Some c => Some c
    | None => getChunk_loop cs' tag
    end.
Proof. induction cs as [|x cs IH]; simpl; [done|]. by case_decide. Qed.

(** X7. [getChunk(tag)] returns the first chunk of the wave that has the
    tag: no chunk before it has it; and it returns [undefined] exactly when
    no chunk of the wave has the tag. *)
Theorem Wave_getChunk_first (w : Wave) (tag : Z) :
  match Wave_getChunk w tag with
  | Some c =>
      ∃ pre post, chunks w = pre ++ c :: post ∧ chunk_tag c = tag ∧
                  Forall (λ x, chunk_tag x ≠ tag) pre
  | None => Forall (λ x, chunk_tag x ≠ tag) (chunks w)
  end.
Proof.
  unfold Wave_getChunk. destruct (getChunk_loop (chunks w) tag) as [c|] eqn:H.
  - by apply getChunk_loop_Some.
  - by apply getChunk_loop_None.
Qed.

(** X8. After [addChunk(c)], [getChunk(tag)] returns what it returned
    before if that was a chunk, and [c] only when no chunk had the tag and
    [c] has it: a chunk that is added never hides one that was there. *)
Theorem Wave_getChunk_addChunk (w : Wave) (c : Chunk) (tag : Z) :
  Wave_getChunk (Wave_addChunk w c) tag
  = match Wave_getChunk w tag with
    | Some x => Some x
    | None => if decide (chunk_tag c = tag) then Some c else None
    end.
Proof.
  unfold Wave_getChunk, Wave_addChunk. cbn [chunks].
  rewrite getChunk_loop_app. by destruct (getChunk_loop (chunks w) tag).
Qed.

Lemma chunk_data_DATA c : chunk_tag c = ChunkTagsBE.DATA → is_Some (chunk_data c).
Proof. destruct c; try done; by eexists. Qed.

(** X9. On a wave as the constructor makes it, [getLengthSamples] and
    [getLengthSeconds] throw a [TypeError] exactly when the wave has no
    chunk tagged [fmt ] or no chunk tagged [data]. *)
Theorem Wave_getLengthSamples_new_Wave (cs : list Chunk) :
  (Wave_getLengthSamples (new_Wave cs) = Throw TypeError ↔
   Forall (λ c, chunk_tag c ≠ ChunkTagsBE.FMT) cs ∨
   Forall (λ c, chunk_tag c ≠ ChunkTagsBE.DATA) cs) ∧
  (Wave_getLengthSeconds (new_Wave cs) = Throw TypeError ↔
   Forall (λ c, chunk_tag c ≠ ChunkTagsBE.FMT) cs ∨
   Forall (λ c, chunk_tag c ≠ ChunkTagsBE.DATA) cs).
Proof.
  rewrite <- !getChunk_loop_None.
  unfold Wave_getLengthSeconds, Wave_getLengthSamples, new_Wave, Wave_updateCache,
    Wave_getChunk.
  cbn [cached_fmt cached_data chunks].
  destruct (getChunk_loop cs ChunkTagsBE.DATA) as [d|] eqn:Hd;
    [|by split; (split; [right|])].
  apply getChunk_loop_Some in Hd as (_ & _ & _ & Hd & _).
  destruct (chunk_data_DATA d Hd) as [a ->].
  destruct (getChunk_loop cs ChunkTagsBE.FMT) as [f|] eqn:Hf;
    [|by split; (split; [left|])].
  split; (split; [by destruct f|by intros [|]]).
Qed.

(** X10. [addChunk] leaves the cache as it is: after any number of calls
    the wave has the chunks that were added, at its end, and
    [getLengthSamples] and [getLengthSeconds] still answer as before the
    first call; [updateCache] then makes the wave what the constructor
    makes of its chunks. *)
Theorem Wave_addChunk_keeps_cache (w : Wave) (added : list Chunk) :
  let w' := foldl Wave_addChunk w added in
  chunks w' = chunks w ++ added ∧
  Wave_getLengthSamples w' = Wave_getLengthSamples w ∧
  Wave_getLengthSeconds w' = Wave_getLengthSeconds w ∧
  Wave_updateCache w' = new_Wave (chunks w ++ added).
Proof.
  revert w. induction added as [|c added IH]; intros w; cbn [foldl].
  - rewrite app_nil_r. by destruct w.
  - destruct (IH (Wave_addChunk w c)) as (Hchunks & Hsamples & Hseconds & Hcache).
    cbn [Wave_addChunk chunks] in *. rewrite <- app_assoc in *. done.
Qed.

(** A wave that is filled with [addChunk] has no length until
    [updateCache] is called; then a PCM wave of two channels and 16 bits
    with four bytes of data has one sample. *)
Example Wave_addChunk_stale_cache :
  let w := Wave_addChunk (Wave_addChunk (new_Wave []) (CFormat pcm_format))
             (CData (mkTypedArray 0%nat 0 4)) in
  Wave_getLengthSamples w = Throw TypeError ∧
  Wave_getLengthSamples (Wave_updateCache w) = Normal 1%float ∧
  Wave_getLengthSeconds (Wave_updateCache w) = Normal (1 / 44100)%float.
Proof. by vm_compute. Qed.

(** ** What [decode] does to the heap and what it throws *)

Lemma reads_in_ret {A} h (P : A → Prop) a : P a → reads_in h P (ret a).
Proof. done. Qed.

Lemma reads_in_throw {A} h (P : A → Prop) : reads_in h P (throw RangeError).
Proof. done. Qed.

Lemma reads_in_bind {A B} h (P : A → Prop) (Q : B → Prop) m (f : A → M B) :
  reads_in h P m → (∀ a, P a → reads_in h Q (f a)) → reads_in h Q (bind m f).
Proof.
  unfold reads_in, bind. destruct (m h) as [[a|e] h1]; intros [-> H] Hf; [|done].
  by apply Hf.
Qed.

Lemma reads_in_impl {A} h (P Q : A → Prop) m :
  reads_in h P m → (∀ a, P a → Q a) → reads_in h Q m.
Proof.
  unfold reads_in. destruct (m h) as [[a|e] h1]; [|done]. intros [-> H] HPQ. auto.
Qed.

Section reads.
Context (h : Heap) (b : ArrayBuffer) (bs : list byte).
Hypothesis Hb : h !! b = Some bs.
Let size := Z.of_nat (length bs).

Lemma reads_in_getUint n v idx le :
  view_in b size v → 0 ≤ n → reads_in h (λ x, 0 ≤ x) (getUint n v idx le).
Proof using Hb.
  intros (Hbuf & ? & ? & ?) Hn. unfold getUint. case_decide; [done|].
  unfold reads_in, bind, readBytes. rewrite Hbuf, Hb.
  rewrite decide_True by (subst size; lia). simpl.
  split; [done|]. apply uint_of_bytes_range.
Qed.

Lemma reads_in_new_DataView off n :
  reads_in h (λ v, view_in b size v ∧ v = mkDataView b off n) (new_DataView b off (Some n)).
Proof using Hb.
  unfold reads_in, new_DataView, bind, ArrayBuffer_byteLength. rewrite Hb.
  repeat case_decide; try done. simpl. unfold view_in. simpl. subst size.
  split_and!; (done || lia).
Qed.

Lemma reads_in_new_Uint8Array off n :
  reads_in h (λ a, array_in b size a ∧ a = mkTypedArray b off n) (new_Uint8Array b off n).
Proof using Hb.
  unfold reads_in, new_Uint8Array, new_TypedArray, bind, ArrayBuffer_byteLength. rewrite Hb.
  repeat case_decide; try done. simpl. unfold array_in. simpl. subst size.
  split_and!; (done || lia).
Qed.

Lemma reads_in_slice begin_ end_ :
  reads_in h (λ _, True) (ArrayBuffer_slice b begin_ end_).
Proof using Hb. unfold reads_in, ArrayBuffer_slice. by rewrite Hb. Qed.

Ltac read_uint :=
  eapply reads_in_bind; [by (apply reads_in_getUint; [done|lia])|intros ? ?; cbv beta in *].

Lemma reads_in_UnknownChunk_unpack from tag :
  view_in b size from → reads_in h (chunk_in b size) (UnknownChunk_unpack from tag).
Proof using Hb.
  intros (Hbuf & ? & ? & ?). unfold UnknownChunk_unpack. rewrite Hbuf.
  eapply reads_in_bind; [apply reads_in_new_Uint8Array|].
  intros a [Ha _]. apply reads_in_ret. by apply Forall_singleton.
Qed.

Lemma reads_in_DataChunk_unpack from tag :
  view_in b size from → reads_in h (chunk_in b size) (DataChunk_unpack from tag).
Proof using Hb.
  intros (Hbuf & ? & ? & ?). unfold DataChunk_unpack. rewrite Hbuf.
  eapply reads_in_bind; [apply reads_in_new_Uint8Array|].
  intros a [Ha _]. apply reads_in_ret. by apply Forall_singleton.
Qed.

Lemma reads_in_FormatChunk_unpack from tag :
  view_in b size from → reads_in h (chunk_in b size) (FormatChunk_unpack from tag).
Proof using Hb.
  intros Hfrom. unfold FormatChunk_unpack, getUint16, getUint32.
  read_uint.
  eapply reads_in_bind with (P := λ e, Forall (array_in b size) (option_list e)).
  { case_decide; [|by apply reads_in_ret].
    read_uint. destruct Hfrom as (-> & _).
    eapply reads_in_bind; [apply reads_in_new_Uint8Array|].
    intros e [He _]. apply reads_in_ret. by apply Forall_singleton. }
  intros e He. do 5 read_uint. by apply reads_in_ret.
Qed.

Lemma reads_in_Cue_unpack from idx :
  view_in b size from → reads_in h (λ _, True) (Cue_unpack from idx).
Proof using Hb.
  intros Hfrom. unfold Cue_unpack, getUint32. do 6 read_uint. by apply reads_in_ret.
Qed.

Lemma reads_in_SampleLoop_unpack from idx :
  view_in b size from → reads_in h (λ _, True) (SampleLoop_unpack from idx).
Proof using Hb.
  intros Hfrom. unfold SampleLoop_unpack, getUint32. do 6 read_uint. by apply reads_in_ret.
Qed.

Lemma reads_in_CueChunk_unpack_loop from todo : ∀ idx,
  view_in b size from → reads_in h (λ _, True) (CueChunk_unpack_loop from todo idx).
Proof using Hb.
  induction todo as [|todo IH]; intros idx Hfrom; simpl; [by apply reads_in_ret|].
  eapply reads_in_bind; [by apply reads_in_Cue_unpack|]. intros c _.
  eapply reads_in_bind; [by apply IH|]. intros rest _. by apply reads_in_ret.
Qed.

Lemma reads_in_SampleChunk_unpack_loop from todo : ∀ idx,
  view_in b size from → reads_in h (λ _, True) (SampleChunk_unpack_loop from todo idx).
Proof using Hb.
  induction todo as [|todo IH]; intros idx Hfrom; simpl; [by apply reads_in_ret|].
  eapply reads_in_bind; [by apply reads_in_SampleLoop_unpack|]. intros c _.
  eapply reads_in_bind; [by apply IH|]. intros rest _. by apply reads_in_ret.
Qed.

Lemma reads_in_CueChunk_unpack from tag :
  view_in b size from → reads_in h (chunk_in b size) (CueChunk_unpack from tag).
Proof using Hb.
  intros Hfrom. unfold CueChunk_unpack, getUint32. read_uint.
  eapply reads_in_bind; [by apply reads_in_CueChunk_unpack_loop|]. intros cues _.
  apply reads_in_ret. constructor.
Qed.

Lemma reads_in_SampleChunk_unpack from tag :
  view_in b size from → reads_in h (chunk_in b size) (SampleChunk_unpack from tag).
Proof using Hb.
  intros Hfrom. unfold SampleChunk_unpack, getUint32. do 2 read_uint.
  eapply reads_in_bind with (P := λ e, Forall (array_in b size) (option_list e)).
  { case_decide; [|by apply reads_in_ret].
    destruct Hfrom as (-> & _).
    eapply reads_in_bind; [apply reads_in_new_Uint8Array|].
    intros e [He _]. apply reads_in_ret. by apply Forall_singleton. }
  intros e He.
  eapply reads_in_bind; [by apply reads_in_SampleChunk_unpack_loop|]. intros ls _.
  do 7 read_uint. by apply reads_in_ret.
Qed.

Lemma reads_in_LABL_unpack from tag :
  view_in b size from → reads_in h (chunk_in b size) (ListChunk_ADTL_LABL_unpack from tag).
Proof using Hb.
  intros Hfrom. unfold ListChunk_ADTL_LABL_unpack, getUint32. read_uint.
  destruct Hfrom as (-> & _).
  eapply reads_in_bind; [apply reads_in_slice|]. intros ? _.
  apply reads_in_ret. constructor.
Qed.

Lemma reads_in_ADTL_item from tag :
  view_in b size from →
  reads_in h (chunk_in b size) (unpack (registry_lookup ListChunk_ADTL_chunkRegistry tag) from tag).
Proof using Hb.
  intros Hfrom. unfold registry_lookup, ListChunk_ADTL_chunkRegistry.
  destruct (decide (tag = ChunkTagsBE.labl)) as [->|Hne].
  - rewrite lookup_singleton_eq. by apply reads_in_LABL_unpack.
  - rewrite lookup_singleton_ne by done. by apply reads_in_UnknownChunk_unpack.
Qed.

Lemma chunk_arrays_CAdtl cs : chunk_arrays (CAdtl cs) = concat (chunk_arrays <$> cs).
Proof. induction cs as [|c cs IH]; [done|]. simpl in *. by rewrite IH. Qed.

Lemma reads_in_ADTL_loop from fuel : ∀ idx acc,
  view_in b size from → 0 ≤ idx →
  dv_byteLength from - idx ≤ Z.of_nat fuel →
  Forall (chunk_in b size) acc →
  reads_in h (Forall (chunk_in b size)) (ListChunk_ADTL_unpack_loop fuel from idx acc).
Proof using Hb.
  induction fuel as [|fuel IH]; intros idx acc Hfrom Hidx Hfuel Hacc; simpl.
  { rewrite decide_False by lia. by apply reads_in_ret. }
  case_decide; [|by apply reads_in_ret].
  unfold getUint32. do 2 read_uint.
  destruct Hfrom as (Hbuf & ? & ? & ?). rewrite Hbuf.
  eapply reads_in_bind; [apply reads_in_new_DataView|]. intros v [Hv ->].
  eapply reads_in_bind; [by apply reads_in_ADTL_item|]. intros c Hc.
  apply IH; [done|case_decide; lia|case_decide; lia|].
  apply Forall_app. split; [done|by constructor].
Qed.

Lemma reads_in_ADTL_unpack from tag :
  view_in b size from → reads_in h (chunk_in b size) (ListChunk_ADTL_unpack from tag).
Proof using Hb.
  intros Hfrom. unfold ListChunk_ADTL_unpack.
  eapply reads_in_bind.
  { apply reads_in_ADTL_loop; [done|done| |constructor].
    destruct Hfrom as (_ & _ & ? & _). lia. }
  intros cs Hcs. apply reads_in_ret. unfold chunk_in. rewrite chunk_arrays_CAdtl.
  induction Hcs as [|c cs Hc _ IH]; [constructor|].
  rewrite fmap_cons. simpl. apply Forall_app. by split.
Qed.

Lemma reads_in_ListChunk_unpack from tag :
  view_in b size from → reads_in h (chunk_in b size) (ListChunk_unpack from tag).
Proof using Hb.
  intros Hfrom. unfold ListChunk_unpack, getUint32. read_uint.
  destruct Hfrom as (Hbuf & ? & ? & ?). rewrite Hbuf.
  eapply reads_in_bind; [apply reads_in_new_DataView|]. intros v [Hv ->].
  eapply reads_in_bind with (P := chunk_in b size).
  { unfold registry_lookup, ListChunk_chunkRegistry.
    destruct (decide (a = ChunkTagsBE.adtl)) as [->|Hne].
    - rewrite lookup_singleton_eq. by apply reads_in_ADTL_unpack.
    - rewrite lookup_singleton_ne by done. by apply reads_in_UnknownChunk_unpack. }
  intros body Hbody. by apply reads_in_ret.
Qed.

Lemma reads_in_Wave_item from tag :
  view_in b size from →
  reads_in h (chunk_in b size) (unpack (registry_lookup Wave_chunkRegistry tag) from tag).
Proof using Hb.
  intros Hfrom. unfold registry_lookup, Wave_chunkRegistry.
  destruct (decide (tag = ChunkTagsBE.FMT)) as [->|?];
    [rewrite lookup_insert_eq; by apply reads_in_FormatChunk_unpack
    |rewrite lookup_insert_ne by done].
  destruct (decide (tag = ChunkTagsBE.DATA)) as [->|?];
    [rewrite lookup_insert_eq; by apply reads_in_DataChunk_unpack
    |rewrite lookup_insert_ne by done].
  destruct (decide (tag = ChunkTagsBE.CUE)) as [->|?];
    [rewrite lookup_insert_eq; by apply reads_in_CueChunk_unpack
    |rewrite lookup_insert_ne by done].
  destruct (decide (tag = ChunkTagsBE.SMPL)) as [->|?];
    [rewrite lookup_insert_eq; by apply reads_in_SampleChunk_unpack
    |rewrite lookup_insert_ne by done].
  destruct (decide (tag = ChunkTagsBE.LIST)) as [->|?];
    [rewrite lookup_singleton_eq; by apply reads_in_ListChunk_unpack
    |rewrite lookup_singleton_ne by done].
  by apply reads_in_UnknownChunk_unpack.
Qed.

Lemma reads_in_decode_loop file fileLength fuel : ∀ idx acc,
  view_in b size file → 0 ≤ idx →
  fileLength - idx ≤ Z.of_nat fuel →
  Forall (chunk_in b size) acc →
  reads_in h (Forall (chunk_in b size)) (decode_loop fuel b file fileLength idx acc).
Proof using Hb.
  induction fuel as [|fuel IH]; intros idx acc Hfile Hidx Hfuel Hacc; simpl.
  { rewrite decide_False by lia. by apply reads_in_ret. }
  case_decide; [|by apply reads_in_ret].
  unfold getUint32. do 2 read_uint.
  eapply reads_in_bind; [apply reads_in_new_DataView|]. intros v [Hv ->].
  eapply reads_in_bind; [by apply reads_in_Wave_item|]. intros c Hc.
  apply IH; [done|case_decide; lia|case_decide; lia|].
  apply Forall_app. split; [done|by constructor].
Qed.

End reads.

(** What [decode] does on a buffer of the heap. *)
Lemma Wave_decode_outcome h buffer bs :
  h !! buffer = Some bs →
  match Wave_decode buffer h with
  | (Normal w, h') => h' = h ∧ Forall (chunk_in buffer (Z.of_nat (length bs))) (chunks w)
  | (Throw e, h') =>
      h' = h ∧
      (e = RangeError ∨
       e = Error "Invalid magic string (RIFF)! Is this a .wav file?" ∨
       e = Error "Invalid magic string (WAVE)! Is this a .wav file?" ∨
       e = Error "Invalid file length! (Bigger than buffer.)")
  end.
Proof.
  intros Hb. unfold Wave_decode.
  erewrite bind_Normal by (by apply new_DataView_whole).
  set (file := mkDataView buffer 0 (Z.of_nat (length bs))).
  assert (Hfile : view_in buffer (Z.of_nat (length bs)) file)
    by (unfold view_in; simpl; lia).
  pose proof (reads_in_getUint h buffer bs Hb 4 file) as Hget.
  unfold getUint32, bind at 1.
  pose proof (Hget 0 false Hfile ltac:(lia)) as H0. unfold reads_in in H0.
  destruct (getUint 4 file 0 false h) as [[magic|e] h0]; destruct H0 as [-> H0];
    [|subst; simpl; auto].
  case_decide; [simpl; auto 10|].
  unfold bind at 1.
  pose proof (Hget 8 false Hfile ltac:(lia)) as H8. unfold reads_in in H8.
  destruct (getUint 4 file 8 false h) as [[magic2|e] h0]; destruct H8 as [-> H8];
    [|subst; simpl; auto].
  case_decide; [simpl; auto 10|].
  unfold bind at 1.
  pose proof (Hget 4 true Hfile ltac:(lia)) as H4. unfold reads_in in H4.
  destruct (getUint 4 file 4 true h) as [[fileLength|e] h0]; destruct H4 as [-> H4];
    [|subst; simpl; auto].
  erewrite bind_Normal by (by apply ArrayBuffer_byteLength_Some).
  case_decide; [simpl; auto 10|].
  pose proof (reads_in_decode_loop h buffer bs Hb file fileLength (Z.to_nat fileLength)
                12 [] Hfile ltac:(lia) ltac:(lia) ltac:(constructor)) as Hloop.
  unfold reads_in in Hloop. unfold bind.
  destruct (decode_loop _ _ _ _ _ _ h) as [[cs|e] h0]; destruct Hloop as [-> Hloop];
    subst; simpl; auto.
Qed.

(** X11. [decode] only reads: the heap after it is the heap before it,
    whatever the buffer holds and whether [decode] returns or throws. *)
Theorem Wave_decode_reads_only (buffer : ArrayBuffer) (h : Heap) :
  (Wave_decode buffer h).2 = h.
Proof.
  destruct (h !! buffer) as [bs|] eqn:Hb.
  - pose proof (Wave_decode_outcome h buffer bs Hb) as H.
    by destruct (Wave_decode buffer h) as [[w|e] h']; destruct H as [-> _].
  - unfold Wave_decode, new_DataView, bind, ArrayBuffer_byteLength. by rewrite Hb.
Qed.

(** X12. On a buffer of the heap, [decode] throws nothing but a
    [RangeError] and the three [Error]s of its checks on the header; so
    its loops, and those of the list chunk, come to an end on every input. *)
Theorem Wave_decode_throws (h : Heap) (buffer : ArrayBuffer) (bs : list byte)
    (e : JsError) (h' : Heap) :
  h !! buffer = Some bs →
  Wave_decode buffer h = (Throw e, h') →
  e = RangeError ∨
  e = Error "Invalid magic string (RIFF)! Is this a .wav file?" ∨
  e = Error "Invalid magic string (WAVE)! Is this a .wav file?" ∨
  e = Error "Invalid file length! (Bigger than buffer.)".
Proof.
  intros Hb Hdecode. pose proof (Wave_decode_outcome h buffer bs Hb) as H.
  rewrite Hdecode in H. by destruct H.
Qed.

(** A file that is cut off inside a chunk: the [RangeError] of the view on
    the body. *)
Lemma Wave_decode_throws_witness :
  Wave_decode 0%nat [truncated_file] = (Throw RangeError, [truncated_file]) ∧
  (RangeError = RangeError ∨
   RangeError = Error "Invalid magic string (RIFF)! Is this a .wav file?" ∨
   RangeError = Error "Invalid magic string (WAVE)! Is this a .wav file?" ∨
   RangeError = Error "Invalid file length! (Bigger than buffer.)").
Proof.
  split; [by vm_compute|].
  apply (Wave_decode_throws [truncated_file] 0%nat truncated_file RangeError
           [truncated_file]); [reflexivity|by vm_compute].
Defined.

(** X13. [decode] copies no payload: every [Uint8Array] of the chunks it
    returns, also of the chunks inside a list chunk, is a view of the
    buffer that was decoded, and lies inside it. *)
Theorem Wave_decode_views (h : Heap) (buffer : ArrayBuffer) (bs : list byte)
    (w : Wave) (h' : Heap) :
  h !! buffer = Some bs →
  Wave_decode buffer h = (Normal w, h') →
  Forall (λ c, Forall (array_in buffer (Z.of_nat (length bs))) (chunk_arrays c)) (chunks w).
Proof.
  intros Hb Hdecode. pose proof (Wave_decode_outcome h buffer bs Hb) as H.
  rewrite Hdecode in H. by destruct H.
Qed.

(** The data of the PCM file is the view of its last four bytes. *)
Lemma Wave_decode_views_witness :
  Wave_decode 0%nat [pcm_file]
  = (Normal (new_Wave [CFormat pcm_format; CData (mkTypedArray 0%nat 44 4)]), [pcm_file]) ∧
  Forall (λ c, Forall (array_in 0%nat (Z.of_nat (length pcm_file))) (chunk_arrays c))
    [CFormat pcm_format; CData (mkTypedArray 0%nat 44 4)].
Proof.
  split; [by vm_compute|].
  apply (Wave_decode_views [pcm_file] 0%nat pcm_file
           (new_Wave [CFormat pcm_format; CData (mkTypedArray 0%nat 44 4)]) [pcm_file]);
    [reflexivity|by vm_compute].
Defined.

(** ** What [encode] writes to *)

Lemma same_but_refl b lo h : same_but b lo h h.
Proof. split; [done|]. intros b' bs ?. by exists bs. Qed.

Lemma same_but_trans b lo h1 h2 h3 :
  same_but b lo h1 h2 → same_but b lo h2 h3 → same_but b lo h1 h3.
Proof.
  intros [Hl1 H1] [Hl2 H2]. split; [congruence|]. intros b' bs Hbs.
  destruct (H1 _ _ Hbs) as (bs2 & Hbs2 & ? & ? & ?).
  destruct (H2 _ _ Hbs2) as (bs3 & Hbs3 & ? & ? & ?).
  exists bs3. split_and!; [done|congruence| |congruence].
  intros ?. transitivity bs2; auto.
Qed.

Lemma writes_from_ret {A} b lo (P : A → Prop) a : P a → writes_from b lo P (ret a).
Proof. intros Ha h. split; [apply same_but_refl|]. by intros ? [= <-]. Qed.

Lemma writes_from_throw {A} b lo (P : A → Prop) e : writes_from b lo P (throw e).
Proof. intros h. split; [apply same_but_refl|]. done. Qed.

Lemma writes_from_liftC {A} b lo (c : Completion A) :
  writes_from b lo (λ a, c = Normal a) (liftC c).
Proof. intros h. split; [apply same_but_refl|]. simpl. by intros a ->. Qed.

Lemma writes_from_bind {A B} b lo (P : A → Prop) (Q : B → Prop) m (f : A → M B) :
  writes_from b lo P m → (∀ a, P a → writes_from b lo Q (f a)) →
  writes_from b lo Q (bind m f).
Proof.
  intros Hm Hf h. unfold bind. destruct (Hm h) as [Hsame HP].
  destruct (m h) as [[a|e] h1]; simpl in *; [|done].
  destruct (Hf a (HP a eq_refl) h1) as [Hsame' HQ].
  split; [by eapply same_but_trans|done].
Qed.

Lemma writes_from_impl {A} b lo (P Q : A → Prop) m :
  writes_from b lo P m → (∀ a, P a → Q a) → writes_from b lo Q m.
Proof. intros Hm HPQ h. destruct (Hm h). split; [done|]. auto. Qed.


Lemma take_splice_below bs off data lo :
  (lo ≤ off ≤ length bs)%nat → take lo (splice bs off data) = take lo bs.
Proof.
  intros ?. unfold splice. rewrite take_app_le by (rewrite length_take; lia).
  rewrite take_take. f_equal. lia.
Qed.

Lemma writes_from_writeBytes b lo off data :
  lo ≤ off → writes_from b lo (λ _, True) (writeBytes b off data).
Proof.
  intros Hlo h. split; [|done]. unfold writeBytes.
  destruct (h !! b) as [bs|] eqn:Hb; [|apply same_but_refl].
  case_decide; [|apply same_but_refl]. simpl.
  split; [by rewrite length_insert|]. intros b' bs' Hbs'.
  destruct (decide (b' = b)) as [->|Hne].
  - rewrite Hb in Hbs'. injection Hbs' as <-.
    exists (splice bs (Z.to_nat off) data).
    split_and!; [|by rewrite length_splice by lia|done|].
    + apply list_lookup_insert_eq. by eapply lookup_lt_Some.
    + destruct (decide (lo ≤ 0)).
      * by replace (Z.to_nat lo) with 0%nat by lia.
      * apply take_splice_below. lia.
  - exists bs'. by rewrite list_lookup_insert_ne.
Qed.

Lemma writes_from_readBytes b lo b' off len :
  writes_from b lo (λ _, True) (readBytes b' off len).
Proof.
  intros h. split; [|done]. rewrite readBytes_heap. apply same_but_refl.
Qed.

Lemma writes_from_setUint b lo n to_bytes v idx value le :
  dv_buffer v = b → (0 ≤ idx → lo ≤ dv_byteOffset v + idx) →
  writes_from b lo (λ _, True) (setUint n to_bytes v idx value le).
Proof.
  intros <- ?. unfold setUint. case_decide; [apply writes_from_throw|].
  apply writes_from_writeBytes. lia.
Qed.

Lemma writes_from_new_DataView b lo b' off n :
  writes_from b lo (λ v, v = mkDataView b' off n ∧ 0 ≤ n)
    (new_DataView b' off (Some n)).
Proof.
  intros h. unfold new_DataView, bind, ArrayBuffer_byteLength.
  destruct (h !! b'); simpl; [|split; [apply same_but_refl|done]].
  repeat case_decide; simpl; (split; [apply same_but_refl|]); try done.
  intros ? [= <-]. split; [done|lia].
Qed.

Lemma writes_from_new_Uint8Array b lo b' off n :
  writes_from b lo (λ a, a = mkTypedArray b' off n) (new_Uint8Array b' off n).
Proof.
  intros h. unfold new_Uint8Array, new_TypedArray, bind, ArrayBuffer_byteLength.
  destruct (h !! b'); simpl; [|split; [apply same_but_refl|done]].
  repeat case_decide; simpl; (split; [apply same_but_refl|]); try done.
  by intros ? [= <-].
Qed.

Lemma writes_from_set b lo target source offset :
  ta_buffer target = b → lo ≤ ta_byteOffset target →
  writes_from b lo (λ _, True) (Uint8Array_set target source offset).
Proof.
  intros <- ?. unfold Uint8Array_set. case_decide; [apply writes_from_throw|].
  eapply writes_from_bind; [apply writes_from_readBytes|]. intros src _.
  apply writes_from_writeBytes. lia.
Qed.

Lemma writes_from_set_into b lo into source offset :
  view_from b lo into →
  writes_from b lo (λ _, True)
    (let* target := new_Uint8Array (dv_buffer into) (dv_byteOffset into) (dv_byteLength into) in
     Uint8Array_set target source offset).
Proof.
  intros [<- ?]. eapply writes_from_bind; [apply writes_from_new_Uint8Array|].
  intros target ->. by apply writes_from_set.
Qed.

Ltac write_uint :=
  eapply writes_from_bind;
    [apply writes_from_setUint; [done|simpl; lia]|intros _ _].

Lemma writes_from_Cue_pack b lo c into idx :
  view_from b lo into → writes_from b lo (λ _, True) (Cue_pack c into idx).
Proof.
  intros [<- ?]. unfold Cue_pack, setUint32. do 5 write_uint.
  apply writes_from_setUint; [done|lia].
Qed.

Lemma writes_from_SampleLoop_pack b lo l into idx :
  view_from b lo into → writes_from b lo (λ _, True) (SampleLoop_pack l into idx).
Proof.
  intros [<- ?]. unfold SampleLoop_pack, setUint32. do 5 write_uint.
  apply writes_from_setUint; [done|lia].
Qed.

Lemma writes_from_CueChunk_pack_loop b lo cues into : ∀ idx,
  view_from b lo into → writes_from b lo (λ _, True) (CueChunk_pack_loop cues into idx).
Proof.
  induction cues as [|c cues IH]; intros idx Hinto; simpl; [by apply writes_from_ret|].
  eapply writes_from_bind; [by apply writes_from_Cue_pack|]. intros _ _. by apply IH.
Qed.

Lemma writes_from_SampleChunk_pack_loop b lo ls into : ∀ idx,
  view_from b lo into → writes_from b lo (λ _, True) (SampleChunk_pack_loop ls into idx).
Proof.
  induction ls as [|l ls IH]; intros idx Hinto; simpl; [by apply writes_from_ret|].
  eapply writes_from_bind; [by apply writes_from_SampleLoop_pack|]. intros _ _. by apply IH.
Qed.

Lemma writes_from_chunk_pack b lo c : ∀ into,
  view_from b lo into → writes_from b lo (λ _, True) (chunk_pack c into).
Proof.
  induction c as [tag data|f|cues|s|cueId cueLabel|cs IH|body IH|data]
    using Chunk_nested_ind; intros into Hinto; pose proof Hinto as [Hb Hlo];
    cbn [chunk_pack].
  - by apply writes_from_set_into.
  - unfold FormatChunk_pack, setUint16, setUint32. subst b. do 6 write_uint.
    case_decide; [|by apply writes_from_ret]. write_uint.
    destruct (extraFormatBytes f); [|by apply writes_from_ret].
    by apply writes_from_set_into.
  - unfold CueChunk_pack, setUint32. subst b. write_uint.
    by apply writes_from_CueChunk_pack_loop.
  - unfold SampleChunk_pack, setUint32. subst b. do 9 write_uint.
    eapply writes_from_bind; [by apply writes_from_SampleChunk_pack_loop|]. intros _ _.
    destruct (samplerData s); [|by apply writes_from_ret].
    by apply writes_from_set_into.
  - unfold ListChunk_ADTL_LABL_pack, setUint32. subst b. write_uint.
    eapply writes_from_bind; [apply writes_from_new_Uint8Array|]. intros dest ->.
    unfold TextEncoder_encodeInto. apply writes_from_writeBytes. simpl. lia.
  - assert (Hloop : ∀ idx, 0 ≤ idx →
      writes_from b lo (λ _, True)
        ((fix loop (cs : list Chunk) (idx : Z) : M unit :=
            match cs with
            | [] => ret ()
            | ch :: cs' =>
                let* chunkSize := liftC (chunk_length ch) in
                setUint32 into idx (chunk_tag ch) false ;;;
                setUint32 into (idx + 4) chunkSize true ;;;
                let idx := idx + 8 in
                let* chunkView :=
                  new_DataView (dv_buffer into) (dv_byteOffset into + idx) (Some chunkSize) in
                chunk_pack ch chunkView ;;;
                let idx := idx + chunkSize in
                loop cs' idx
            end) cs idx)); [|by apply Hloop].
    induction IH as [|ch cs Hch _ IHcs]; intros idx Hidx; [by apply writes_from_ret|].
    eapply writes_from_bind; [apply writes_from_liftC|]. intros chunkSize _.
    unfold setUint32. subst b. do 2 write_uint.
    eapply writes_from_bind; [apply writes_from_new_DataView|]. intros v [-> ?].
    eapply writes_from_bind; [apply Hch; split; simpl; [done|lia]|]. intros _ _.
    apply IHcs. lia.
  - unfold setUint32. subst b. write_uint.
    eapply writes_from_bind; [apply writes_from_new_DataView|]. intros v [-> ?].
    apply IH. split; simpl; [done|lia].
  - by apply writes_from_set_into.
Qed.

Lemma writes_from_encode_loop b lo total cs : ∀ idx,
  lo ≤ idx →
  writes_from b lo (λ _, True) (encode_loop cs (mkDataView b 0 total) idx).
Proof.
  induction cs as [|c cs IH]; intros idx Hidx; cbn [encode_loop];
    [by apply writes_from_ret|].
  eapply writes_from_bind; [apply writes_from_liftC|]. intros chunkLength _.
  unfold setUint32. do 2 write_uint.
  eapply writes_from_bind; [apply writes_from_new_DataView|]. intros v [-> ?].
  eapply writes_from_bind; [apply writes_from_chunk_pack; split; simpl; [done|lia]|].
  intros _ _. apply IH. case_decide; lia.
Qed.

Lemma writes_from_new_DataView_whole b lo b' off :
  writes_from b lo (λ v, dv_buffer v = b' ∧ dv_byteOffset v = off)
    (new_DataView b' off None).
Proof.
  intros h. unfold new_DataView, bind, ArrayBuffer_byteLength.
  destruct (h !! b'); simpl; [|split; [apply same_but_refl|done]].
  repeat case_decide; simpl; (split; [apply same_but_refl|]); try done.
  by intros ? [= <-].
Qed.

Lemma same_but_new h lo x h' :
  same_but (length h) lo (h ++ [x]) h' →
  ∃ x', h' = h ++ [x'] ∧ length x' = length x ∧
        take (Z.to_nat lo) x' = take (Z.to_nat lo) x.
Proof.
  intros [Hlen Hsame]. rewrite length_app in Hlen. simpl in Hlen.
  destruct (Hsame (length h) x) as (x' & Hx' & ? & _ & ?);
    [by apply list_lookup_middle|].
  exists x'. split; [|done]. apply list_eq. intros i.
  destruct (decide (i < length h)%nat) as [Hi|Hi].
  - rewrite lookup_app_l by done.
    destruct (lookup_lt_is_Some_2 h i Hi) as [bs Hbs].
    destruct (Hsame i bs) as (bs' & -> & _ & Heq & _);
      [by rewrite lookup_app_l|].
    rewrite Hbs, Heq; [done|lia].
  - destruct (decide (i = length h)) as [->|?].
    + rewrite Hx'. symmetry. by apply list_lookup_middle.
    + rewrite !lookup_ge_None_2; [done|rewrite length_app; simpl; lia|lia].
Qed.

(** The part of [encode] after the buffer is there *)
Lemma writes_from_encode_body b cs fileLength :
  writes_from b 0 (λ _, True)
    (let* file := new_DataView b 0 None in
     setUint32 file 0 ChunkTagsBE.RIFF false ;;;
     setUint32 file 4 (fileLength - 8) true ;;;
     setUint32 file 8 ChunkTagsBE.WAVE false ;;;
     encode_loop cs file 12 ;;;
     ret b).
Proof.
  eapply writes_from_bind; [apply writes_from_new_DataView_whole|].
  intros [fb off len] [Hb Hoff]. simpl in *. subst fb off.
  unfold setUint32. do 3 write_uint.
  eapply writes_from_bind; [apply writes_from_encode_loop; lia|]. intros _ _.
  by apply writes_from_ret.
Qed.

(** X14. [encode] changes no buffer that is there: the heap after it is
    the heap before it and at most one buffer more, whatever the chunks
    are and whether [encode] returns or throws. *)
Theorem Wave_encode_keeps_heap (w : Wave) (h : Heap) :
  ∃ new, (Wave_encode w h).2 = h ++ new ∧ (length new ≤ 1)%nat.
Proof.
  unfold Wave_encode, bind at 1, liftC.
  destruct (encode_fileLength (chunks w) 12) as [fileLength|e];
    [|exists []; split; [by rewrite app_nil_r|simpl; lia]].
  unfold bind at 1, new_ArrayBuffer.
  case_decide; [|exists []; split; [by rewrite app_nil_r|simpl; lia]].
  destruct (writes_from_encode_body (length h) (chunks w) fileLength
              (h ++ [replicate (Z.to_nat fileLength) x00])) as [Hsame _].
  apply same_but_new in Hsame as (x' & -> & _). exists [x']. split; [done|simpl; lia].
Qed.

Lemma uint_of_bytes_u32_mod (v : Z) :
  uint_of_bytes (bytes_of_u32 v) = v `mod` 4294967296.
Proof.
  unfold bytes_of_u32. simpl uint_of_bytes.
  rewrite !Z_of_byte_of_Z, !Z.shiftr_div_pow2 by lia.
  change (2 ^ 8) with 256. change (2 ^ 16) with 65536. change (2 ^ 24) with 16777216.
  Z.div_mod_to_equations. lia.
Qed.

Lemma setUint_Normal n to_bytes v idx value le h h' :
  setUint n to_bytes v idx value le h = (Normal (), h') → idx + n ≤ dv_byteLength v.
Proof. unfold setUint. case_decide; [done|]. lia. Qed.

(** When [encode] returns, the heap has one more buffer, the one it
    returns, and that buffer starts with the header. *)
Lemma Wave_encode_writes_header w h buffer h' :
  Wave_encode w h = (Normal buffer, h') →
  ∃ rest, buffer = length h ∧
    h' = h ++ [header_bytes (12 + Z.of_nat (length rest)) ++ rest].
Proof.
  unfold Wave_encode. intros Hencode.
  apply bind_Normal_inv in Hencode as (fileLength & h0 & HfileLength & Hencode).
  injection HfileLength as _ <-.
  apply bind_Normal_inv in Hencode as (b & h1 & Hnew & Hencode).
  unfold new_ArrayBuffer in Hnew. case_decide; [|done]. injection Hnew as <- <-.
  change (h ++ [replicate (Z.to_nat fileLength) x00])
    with (writing h [] (Z.to_nat fileLength)) in Hencode.
  erewrite bind_Normal in Hencode.
  2:{ unfold new_DataView.
      erewrite bind_Normal by (apply ArrayBuffer_byteLength_Some, writing_lookup).
      rewrite decide_False by (simpl; lia). reflexivity. }
  rewrite app_nil_l, length_replicate, Z.sub_0_r, Z2Nat.id in Hencode by lia.
  set (file := mkDataView (length h) 0 fileLength) in *.
  assert (12 ≤ fileLength).
  { destruct (decide (12 ≤ fileLength)); [done|exfalso].
    apply bind_Normal_inv in Hencode as ([] & h1 & H1 & Hencode).
    apply bind_Normal_inv in Hencode as ([] & h2 & H2 & Hencode).
    apply bind_Normal_inv in Hencode as ([] & h3 & H3 & Hencode).
    apply setUint_Normal in H3. simpl in H3. lia. }
  erewrite appends_then in Hencode;
    [|apply setUint32_appends_be; simpl; (done || lia)|rewrite length_reverse; simpl; lia].
  erewrite appends_then in Hencode;
    [|apply setUint32_appends; simpl; (done || lia)|rewrite length_reverse; simpl; lia].
  erewrite appends_then in Hencode;
    [|apply setUint32_appends_be; simpl; (done || lia)|rewrite length_reverse; simpl; lia].
  apply bind_Normal_inv in Hencode as ([] & h2 & Hloop & Hret).
  injection Hret as <- <-.
  pose proof (writes_from_encode_loop (length h) 12 fileLength (chunks w) 12
                ltac:(lia)) as Hwrites.
  match type of Hloop with _ ?h0 = _ => destruct (Hwrites h0) as [Hsame _] end.
  fold file in Hsame. rewrite Hloop in Hsame. cbn [snd] in Hsame.
  apply same_but_new in Hsame as (x' & -> & Hlen & Htake).
  rewrite app_nil_l in Hlen, Htake.
  rewrite take_app_length' in Htake by (by rewrite !length_app, !length_reverse).
  rewrite !length_app, !length_reverse, !length_bytes_of_u32, length_replicate in Hlen.
  exists (drop 12 x'). split; [done|].
  rewrite length_drop.
  replace (12 + Z.of_nat (length x' - 12)) with fileLength by lia.
  do 2 f_equal. rewrite <- (take_drop 12 x') at 1. f_equal.
  change (Z.to_nat 12) with 12%nat in Htake. rewrite Htake.
  unfold header_bytes. by rewrite <- app_assoc.
Qed.

(** X15. When [encode] returns, the heap is the heap from before and the
    buffer it returns, and that buffer starts with [RIFF], its own length
    less 8 as 32 bits, little-endian, and [WAVE]. *)
Theorem Wave_encode_header (w : Wave) (h : Heap) (buffer : ArrayBuffer) (h' : Heap) :
  Wave_encode w h = (Normal buffer, h') →
  ∃ bs, buffer = length h ∧ h' = h ++ [bs] ∧
    take 4 bs = ["R"; "I"; "F"; "F"]%byte ∧
    take 4 (drop 4 bs) = bytes_of_u32 (Z.of_nat (length bs) - 8) ∧
    take 4 (drop 8 bs) = ["W"; "A"; "V"; "E"]%byte.
Proof.
  intros (rest & -> & ->)%Wave_encode_writes_header.
  eexists. split; [done|]. split; [done|].
  replace (Z.of_nat (length (header_bytes (12 + Z.of_nat (length rest)) ++ rest)))
    with (12 + Z.of_nat (length rest))
    by (unfold header_bytes; rewrite !length_app, !length_reverse; simpl; lia).
  done.
Qed.

(** The wave without samples. *)
Lemma Wave_encode_header_witness :
  let encoded := Wave_encode silence silence_heap in
  ∃ bs, 1%nat = length silence_heap ∧ encoded.2 = silence_heap ++ [bs] ∧
    take 4 bs = ["R"; "I"; "F"; "F"]%byte ∧
    take 4 (drop 4 bs) = bytes_of_u32 (Z.of_nat (length bs) - 8) ∧
    take 4 (drop 8 bs) = ["W"; "A"; "V"; "E"]%byte.
Proof.
  apply (Wave_encode_header silence silence_heap 1%nat
           (Wave_encode silence silence_heap).2).
  by vm_compute.
Defined.

(** X16. [decode] takes every file that [encode] returns past its three
    checks: it returns a wave or throws a [RangeError], never one of its
    [Error]s. *)
Theorem Wave_decode_encoded (w : Wave) (h : Heap) (buffer : ArrayBuffer) (h' : Heap) :
  Wave_encode w h = (Normal buffer, h') →
  (∃ w', Wave_decode buffer h' = (Normal w', h')) ∨
  Wave_decode buffer h' = (Throw RangeError, h').
Proof.
  intros (rest & -> & ->)%Wave_encode_writes_header.
  set (L := 12 + Z.of_nat (length rest)).
  set (F := header_bytes L ++ rest).
  assert (HF : (h ++ [F]) !! length h = Some F) by (by apply list_lookup_middle).
  assert (HlenF : Z.of_nat (length F) = L).
  { unfold F, header_bytes. rewrite !length_app, !length_reverse. simpl. lia. }
  assert (Hfield : uint_of_bytes (take 4 (drop 4 F)) = (L - 8) `mod` 4294967296).
  { change (take 4 (drop 4 F)) with (bytes_of_u32 (L - 8)). apply uint_of_bytes_u32_mod. }
  rewrite (Wave_decode_good_header _ _ F); [|done|done|done|].
  2:{ rewrite Hfield, HlenF. unfold L. Z.div_mod_to_equations. lia. }
  rewrite Hfield. set (fileLength := (L - 8) `mod` 4294967296).
  assert (Hfile : view_in (length h) (Z.of_nat (length F))
                    (mkDataView (length h) 0 (Z.of_nat (length F))))
    by (unfold view_in; simpl; lia).
  pose proof (reads_in_decode_loop (h ++ [F]) (length h) F HF _ fileLength
                (Z.to_nat fileLength) 12 [] Hfile ltac:(lia) ltac:(lia) ltac:(constructor))
    as Hloop.
  unfold reads_in in Hloop. unfold bind.
  destruct (decode_loop _ _ _ _ _ _ _) as [[cs|e] h0]; destruct Hloop as [-> Hloop].
  - left. by eexists.
  - right. by subst.
Qed.

Lemma Wave_decode_encoded_witness :
  let encoded := Wave_encode silence silence_heap in
  (∃ w', Wave_decode 1%nat encoded.2 = (Normal w', encoded.2)) ∨
  Wave_decode 1%nat encoded.2 = (Throw RangeError, encoded.2).
Proof.
  apply (Wave_decode_encoded silence silence_heap 1%nat
           (Wave_encode silence silence_heap).2).
  by vm_compute.
Defined.

(** ** Edges of [decode], [encode], [pack] and [unpack] *)

(** X17. [decode] goes by the length field: when the field is 12 or less,
    it returns a wave without chunks, whatever follows the header. *)
Theorem Wave_decode_short_length (h : Heap) (buffer : ArrayBuffer) (bs : list byte) :
  h !! buffer = Some bs →
  take 4 bs = ["R"; "I"; "F"; "F"]%byte →
  take 4 (drop 8 bs) = ["W"; "A"; "V"; "E"]%byte →
  uint_of_bytes (take 4 (drop 4 bs)) ≤ 12 →
  uint_of_bytes (take 4 (drop 4 bs)) + 8 ≤ Z.of_nat (length bs) →
  Wave_decode buffer h = (Normal (new_Wave []), h).
Proof.
  intros Hb Hriff Hwave Hshort Hlen.
  rewrite (Wave_decode_good_header h buffer bs) by done.
  destruct (Z.to_nat (uint_of_bytes (take 4 (drop 4 bs)))); unfold bind; simpl;
    by rewrite decide_False by lia.
Qed.

Lemma Wave_decode_short_length_witness :
  Wave_decode 0%nat [short_file] = (Normal (new_Wave []), [short_file]).
Proof.
  apply (Wave_decode_short_length [short_file] 0%nat short_file);
    [reflexivity|reflexivity|reflexivity|by vm_compute|by vm_compute].
Defined.

(** [length()] throws nothing but a [TypeError]. *)
Lemma chunk_length_Throw (c : Chunk) e : chunk_length c = Throw e → e = TypeError.
Proof.
  induction c as [tag data|f|cues|s|cueId cueLabel|cs IH|body IH|data]
    using Chunk_nested_ind; cbn [chunk_length]; try done.
  - unfold FormatChunk_length. case_decide; [done|].
    destruct (extraFormatBytes f); [done|]. by intros [= <-].
  - generalize 0. induction IH as [|c cs Hc _ IHcs]; intros a; [done|].
    destruct (chunk_length c) as [l|e'] eqn:Hl; simpl.
    + apply IHcs.
    + intros [= <-]. by apply Hc.
  - destruct (chunk_length body) as [l|e']; simpl; [done|]. intros [= <-]. by apply IH.
Qed.

Lemma encode_fileLength_Throw cs c e : ∀ fileLength,
  c ∈ cs → chunk_length c = Throw e →
  encode_fileLength cs fileLength = Throw TypeError.
Proof.
  induction cs as [|x cs IH]; intros fileLength Hin Hc; [by apply elem_of_nil in Hin|].
  cbn [encode_fileLength].
  destruct (chunk_length x) as [l|e'] eqn:Hx; simpl.
  - apply elem_of_cons in Hin as [->|Hin]; [congruence|]. by apply IH.
  - by rewrite (chunk_length_Throw x e' Hx).
Qed.

(** X18. A wave with a format chunk whose code is above 1 and that has no
    extension cannot be encoded: [encode] throws a [TypeError] (from
    [length()]) before it makes a buffer. *)
Theorem Wave_encode_missing_extension (w : Wave) (h : Heap) (f : FormatChunk) :
  CFormat f ∈ chunks w → 1 < compressionCode f → extraFormatBytes f = None →
  Wave_encode w h = (Throw TypeError, h).
Proof.
  intros Hin Hcode Hextra. unfold Wave_encode, bind, liftC.
  rewrite (encode_fileLength_Throw _ (CFormat f) TypeError); [done|done|].
  cbn [chunk_length]. unfold FormatChunk_length.
  rewrite decide_False by lia. by rewrite Hextra.
Qed.

Lemma Wave_encode_missing_extension_witness :
  Wave_encode (new_Wave [CFormat adpcm_format]) [] = (Throw TypeError, []).
Proof.
  apply (Wave_encode_missing_extension (new_Wave [CFormat adpcm_format]) [] adpcm_format);
    [by apply list_elem_of_singleton|by vm_compute|reflexivity].
Defined.

(** X19. [pack] of a data chunk, and of an unknown chunk, into a view that
    is shorter than the payload throws a [RangeError] and writes nothing. *)
Theorem DataChunk_pack_too_long (h : Heap) (into : DataView) (data : Uint8Array)
    (bs : list byte) :
  h !! dv_buffer into = Some bs →
  0 ≤ dv_byteOffset into → 0 ≤ dv_byteLength into →
  dv_byteOffset into + dv_byteLength into ≤ Z.of_nat (length bs) →
  dv_byteLength into < ta_length data →
  DataChunk_pack data into h = (Throw RangeError, h) ∧
  UnknownChunk_pack data into h = (Throw RangeError, h).
Proof.
  intros Hb ????. unfold DataChunk_pack, UnknownChunk_pack.
  erewrite !bind_Normal by (apply new_Uint8Array_Some with (bs := bs); (done || lia)).
  unfold Uint8Array_set. simpl. by rewrite decide_True by lia.
Qed.

(** Four bytes into a view of two. *)
Lemma DataChunk_pack_too_long_witness :
  let h := [[x01; x02; x03; x04]; [x00; x00]] in
  DataChunk_pack (mkTypedArray 0%nat 0 4) (mkDataView 1%nat 0 2) h = (Throw RangeError, h) ∧
  UnknownChunk_pack (mkTypedArray 0%nat 0 4) (mkDataView 1%nat 0 2) h = (Throw RangeError, h).
Proof.
  apply (DataChunk_pack_too_long [[x01; x02; x03; x04]; [x00; x00]]
           (mkDataView 1%nat 0 2) (mkTypedArray 0%nat 0 4) [x00; x00]);
    [reflexivity|by vm_compute..].
Defined.

Lemma getUint_Normal n v idx le h x h' :
  getUint n v idx le h = (Normal x, h') → 0 ≤ idx ∧ idx + n ≤ dv_byteLength v.
Proof. unfold getUint. case_decide; [done|]. lia. Qed.

Section bounds.
Context (h : Heap) (from : DataView) (bs : list byte).
Hypothesis Hb : h !! dv_buffer from = Some bs.
Hypothesis Hoff : 0 ≤ dv_byteOffset from.
Hypothesis Hlen : 0 ≤ dv_byteLength from.
Hypothesis Hin : dv_byteOffset from + dv_byteLength from ≤ Z.of_nat (length bs).

Lemma Cue_unpack_bounds idx :
  0 ≤ idx →
  if decide (idx + 24 ≤ dv_byteLength from)
  then ∃ c, Cue_unpack from idx h = (Normal c, h)
  else Cue_unpack from idx h = (Throw RangeError, h).
Proof using Hb Hoff Hlen Hin.
  intros Hidx. case_decide as Hfits.
  - unfold Cue_unpack, getUint32.
    do 6 (erewrite bind_Normal by (by apply getUint_Some with (bs := bs); try lia)).
    by eexists.
  - pose proof (reads_in_Cue_unpack h (dv_buffer from) bs Hb from idx) as H.
    unfold reads_in in H.
    destruct (Cue_unpack from idx h) as [[c|e] h'] eqn:Hc.
    + exfalso. unfold Cue_unpack in Hc.
      do 5 (apply bind_Normal_inv in Hc as (? & ? & _ & Hc)).
      apply bind_Normal_inv in Hc as (? & ? & Hlast & _).
      apply getUint_Normal in Hlast. lia.
    + destruct H as [-> ->]; [|done]. unfold view_in. lia.
Qed.

Lemma CueChunk_unpack_loop_bounds todo : ∀ idx,
  0 ≤ idx ≤ dv_byteLength from →
  if decide (idx + 24 * Z.of_nat todo ≤ dv_byteLength from)
  then ∃ cues, CueChunk_unpack_loop from todo idx h = (Normal cues, h) ∧
               length cues = todo
  else CueChunk_unpack_loop from todo idx h = (Throw RangeError, h).
Proof using Hb Hoff Hlen Hin.
  induction todo as [|todo IH]; intros idx Hidx.
  { rewrite decide_True by lia. by exists []. }
  cbn [CueChunk_unpack_loop].
  pose proof (Cue_unpack_bounds idx ltac:(lia)) as Hcue.
  destruct (decide (idx + 24 ≤ dv_byteLength from)) as [Hfirst|Hfirst].
  - destruct Hcue as [c Hc]. rewrite (bind_Normal _ _ _ _ _ Hc).
    specialize (IH (idx + 24) ltac:(lia)).
    destruct (decide (idx + 24 + 24 * Z.of_nat todo ≤ dv_byteLength from)) as [Hrest|Hrest].
    + destruct IH as (cues & Hcues & Hlength).
      rewrite decide_True by lia. rewrite (bind_Normal _ _ _ _ _ Hcues).
      exists (c :: cues). split; [done|]. simpl. by rewrite Hlength.
    + rewrite decide_False by lia. by rewrite (bind_Throw _ _ _ _ _ IH).
  - rewrite decide_False by lia. by rewrite (bind_Throw _ _ _ _ _ Hcue).
Qed.

End bounds.

(** X20. [CueChunk.unpack] goes by the count at the start of the body: if
    the body holds that many records of 24 bytes after the count, the
    chunk has that many cues; if not, [unpack] throws a [RangeError], and
    never reads past the body. *)
Theorem CueChunk_unpack_bounds (h : Heap) (from : DataView) (tag : Z) (bs : list byte) :
  h !! dv_buffer from = Some bs →
  0 ≤ dv_byteOffset from → 4 ≤ dv_byteLength from →
  dv_byteOffset from + dv_byteLength from ≤ Z.of_nat (length bs) →
  let count := uint_of_bytes (take 4 (drop (Z.to_nat (dv_byteOffset from)) bs)) in
  if decide (4 + 24 * count ≤ dv_byteLength from)
  then ∃ cues, CueChunk_unpack from tag h = (Normal (CCue cues), h) ∧
               Z.of_nat (length cues) = count
  else CueChunk_unpack from tag h = (Throw RangeError, h).
Proof.
  intros Hb Hoff Hlen Hin count. unfold CueChunk_unpack, getUint32.
  erewrite bind_Normal by (by apply getUint_Some with (bs := bs); try lia).
  rewrite Z.add_0_r. change (Z.to_nat 4) with 4%nat. cbn [endian]. fold count.
  assert (0 ≤ count) by apply uint_of_bytes_range.
  pose proof (CueChunk_unpack_loop_bounds h from bs Hb Hoff ltac:(lia) Hin
                (Z.to_nat count) 4 ltac:(lia)) as Hloop.
  rewrite Z2Nat.id in Hloop by done.
  case_decide.
  - destruct Hloop as (cues & Hcues & Hlength).
    rewrite (bind_Normal _ _ _ _ _ Hcues). exists cues. split; [done|lia].
  - by rewrite (bind_Throw _ _ _ _ _ Hloop).
Qed.

(** A count of one and no record. *)
Lemma CueChunk_unpack_bounds_witness :
  CueChunk_unpack (mkDataView 0%nat 0 4) ChunkTagsBE.CUE [[x01; x00; x00; x00]]
  = (Throw RangeError, [[x01; x00; x00; x00]]).
Proof.
  pose proof (CueChunk_unpack_bounds [[x01; x00; x00; x00]] (mkDataView 0%nat 0 4)
                ChunkTagsBE.CUE [x01; x00; x00; x00] eq_refl) as H.
  apply H; by vm_compute.
Defined.

(** ** The round trip at its edges *)

Lemma chunks_bytes_app h cs cs' :
  chunks_bytes h (cs ++ cs') = chunks_bytes h cs ++ chunks_bytes h cs'.
Proof. unfold chunks_bytes. by rewrite fmap_app, concat_app. Qed.

Lemma chunks_bytes_singleton h c : chunks_bytes h [c] = chunk_bytes h c.
Proof. unfold chunks_bytes. cbn [fmap list_fmap concat]. apply app_nil_r. Qed.

(** X21. A wave of canonical chunks that ends with a chunk without a body,
    in a file of less than 4 GiB, loses that chunk and no other: [encode]
    writes its header at the end of the file, and [decode] of the file
    returns the chunks before it, all of them, also those without a body,
    and no more. *)
Theorem Wave_decode_drops_empty_last (h : Heap) (cs : list Chunk) (c : Chunk) :
  Forall (canonical h) cs →
  canonical h c → body_bytes h c = [] →
  Z.of_nat (length (file_bytes h (cs ++ [c]))) < 4294967296 →
  ∃ file h' w',
    Wave_encode (new_Wave (cs ++ [c])) h = (Normal file, h') ∧
    h' !! file = Some (file_bytes h (cs ++ [c])) ∧
    Wave_decode file h' = (Normal w', h') ∧
    Forall2 (same_chunk h h') cs (chunks w').
Proof.
  intros Hcs Hc Hbody Hsmall.
  exists (length h), (h ++ [file_bytes h (cs ++ [c])]),
    (new_Wave (decoded_chunks (length h) h 12 cs)).
  assert (Hchunk : length (chunk_bytes h c) = 8%nat).
  { unfold chunk_bytes. by rewrite Hbody. }
  assert (Hfile : file_bytes h (cs ++ [c])
                  = header_bytes (12 + Z.of_nat (length (chunks_bytes h cs))
                                  + Z.of_nat (length (chunk_bytes h c)))
                    ++ chunks_bytes h cs ++ chunk_bytes h c).
  { rewrite file_bytes_header, chunks_bytes_app, chunks_bytes_singleton, length_app.
    do 2 f_equal. lia. }
  split_and!.
  - apply (Wave_encode_writes_file h (new_Wave (cs ++ [c]))). simpl.
    apply Forall_app. split.
    + eapply Forall_impl; [exact Hcs|]. apply canonical_flat.
    + constructor; [by apply canonical_flat|constructor].
  - by apply list_lookup_middle.
  - rewrite Hfile. apply Wave_decode_canonical_then; [done|lia|lia|].
    rewrite length_file_bytes, chunks_bytes_app, chunks_bytes_singleton, length_app
      in Hsmall. lia.
  - simpl. rewrite Hfile.
    change 12 with (Z.of_nat (length (header_bytes
      (12 + Z.of_nat (length (chunks_bytes h cs)) + Z.of_nat (length (chunk_bytes h c)))))).
    by apply decoded_chunks_same.
Qed.

(** A wave that ends with two chunks without a body, an unknown chunk
    and a data chunk, comes back without the data chunk. *)
Lemma Wave_decode_drops_empty_last_witness :
  ∃ file h' w',
    Wave_encode (new_Wave ([CFormat pcm_format; CUnknown junk_tag (mkTypedArray 0%nat 0 0)]
                           ++ [CData (mkTypedArray 0%nat 0 0)]))
      silence_heap = (Normal file, h') ∧
    h' !! file = Some (file_bytes silence_heap
                         ([CFormat pcm_format; CUnknown junk_tag (mkTypedArray 0%nat 0 0)]
                          ++ [CData (mkTypedArray 0%nat 0 0)])) ∧
    Wave_decode file h' = (Normal w', h') ∧
    Forall2 (same_chunk silence_heap h')
      [CFormat pcm_format; CUnknown junk_tag (mkTypedArray 0%nat 0 0)] (chunks w').
Proof.
  apply (Wave_decode_drops_empty_last silence_heap
           [CFormat pcm_format; CUnknown junk_tag (mkTypedArray 0%nat 0 0)]
           (CData (mkTypedArray 0%nat 0 0))).
  - apply Forall_cons; split; [by vm_compute|]. apply Forall_singleton.
    split_and!; [by vm_compute|by vm_compute|]. exists []. by vm_compute.
  - exists []. by vm_compute.
  - reflexivity.
  - by vm_compute.
Defined.

Lemma byte_of_Z_mod a b : a `mod` 256 = b `mod` 256 → byte_of_Z a = byte_of_Z b.
Proof.
  intros H. apply Z_of_byte_inj. by rewrite !Z_of_byte_of_Z.
Qed.

Lemma bytes_of_u16_mod v : bytes_of_u16 (v `mod` 65536) = bytes_of_u16 v.
Proof.
  unfold bytes_of_u16.
  repeat (apply (f_equal2 (@cons byte)); [apply byte_of_Z_mod|]); [..|done];
    rewrite ?Z.shiftr_div_pow2 by lia; change (2 ^ 8) with 256;
    Z.div_mod_to_equations; lia.
Qed.

Lemma bytes_of_u32_mod v : bytes_of_u32 (v `mod` 4294967296) = bytes_of_u32 v.
Proof.
  unfold bytes_of_u32.
  repeat (apply (f_equal2 (@cons byte)); [apply byte_of_Z_mod|]); [..|done];
    rewrite ?Z.shiftr_div_pow2 by lia;
    change (2 ^ 8) with 256; change (2 ^ 16) with 65536; change (2 ^ 24) with 16777216;
    Z.div_mod_to_equations; lia.
Qed.

Lemma FormatChunk_stored_bytes h f :
  0 ≤ compressionCode f ≤ 1 →
  chunk_bytes h (CFormat (FormatChunk_stored f)) = chunk_bytes h (CFormat f).
Proof.
  intros Hcode.
  assert (body_bytes h (CFormat (FormatChunk_stored f)) = body_bytes h (CFormat f)) as Hbody.
  { cbn [body_bytes]. unfold FormatChunk_bytes, FormatChunk_stored.
    cbn [compressionCode channelCount sampleRate avgBytesPerSecond blockAlign
         sigBitsPerSample extraFormatBytes].
    rewrite !bytes_of_u16_mod, !bytes_of_u32_mod.
    rewrite (Z.mod_small (compressionCode f)) by lia. done. }
  unfold chunk_bytes. by rewrite Hbody.
Qed.

(** X22. The numbers of a format chunk are stored through ToUint16 and
    ToUint32. Take a wave whose first chunk is a format chunk without
    extension, its code 0 or 1 and any integers in its other fields, and
    whose other chunks are canonical (as in X1); let it not end with a
    chunk without a body, and its file be of less than 4 GiB. Then
    [decode] after [encode] returns the format chunk with these numbers
    modulo 2^16 or 2^32, and the other chunks as they were. *)
Theorem Wave_round_trip_wraps (h : Heap) (f : FormatChunk) (cs : list Chunk) :
  0 ≤ compressionCode f ≤ 1 → extraFormatBytes f = None →
  Forall (canonical h) cs → ends_with_body h (CFormat f :: cs) →
  Z.of_nat (length (file_bytes h (CFormat f :: cs))) < 4294967296 →
  ∃ file h' w',
    Wave_encode (new_Wave (CFormat f :: cs)) h = (Normal file, h') ∧
    Wave_decode file h' = (Normal w', h') ∧
    Forall2 (same_chunk h h') (CFormat (FormatChunk_stored f) :: cs) (chunks w').
Proof.
  intros Hcode Hextra Hcs Hlast Hsmall.
  set (cs' := CFormat (FormatChunk_stored f) :: cs).
  assert (Hfile : file_bytes h (CFormat f :: cs) = file_bytes h cs').
  { unfold file_bytes, chunks_bytes, cs'. rewrite !fmap_cons. cbn [concat].
    by rewrite FormatChunk_stored_bytes. }
  assert (Hcs' : Forall (canonical h) cs').
  { constructor; [|done]. cbn [canonical]. unfold FormatChunk_stored, is_u16, is_u32.
    cbn [compressionCode channelCount sampleRate avgBytesPerSecond blockAlign
         sigBitsPerSample extraFormatBytes].
    rewrite Hextra. split_and!; try (apply Z.mod_pos_bound; lia).
    rewrite Z.mod_small; lia. }
  assert (Hlast' : ends_with_body h cs').
  { intros c Hc. destruct cs as [|x cs].
    - injection Hc as <-. cbn [body_bytes]. unfold FormatChunk_bytes.
      by destruct (bytes_of_u16 _) eqn:E.
    - apply Hlast. unfold cs' in Hc. by rewrite last_cons_cons in *. }
  exists (length h), (h ++ [file_bytes h cs']),
    (new_Wave (decoded_chunks (length h) h 12 cs')).
  split_and!.
  - rewrite <- Hfile. apply (Wave_encode_writes_file h (new_Wave (CFormat f :: cs))). simpl.
    constructor.
    + cbn [flat]. rewrite Hextra. lia.
    + eapply Forall_impl; [exact Hcs|]. apply canonical_flat.
  - apply Wave_decode_canonical; [done|done|by rewrite <- Hfile].
  - simpl. rewrite file_bytes_header.
    change 12 with (Z.of_nat (length (header_bytes
      (12 + Z.of_nat (length (chunks_bytes h cs')))))).
    rewrite <- (app_nil_r (chunks_bytes h cs')).
    by apply decoded_chunks_same.
Qed.

(** A sample rate of 2^32 + 44100 comes back as 44100. *)
Lemma Wave_round_trip_wraps_witness :
  ∃ file h' w',
    Wave_encode (new_Wave (CFormat wide_format :: [CData (mkTypedArray 0%nat 0 4)]))
      samples_heap = (Normal file, h') ∧
    Wave_decode file h' = (Normal w', h') ∧
    Forall2 (same_chunk samples_heap h')
      (CFormat (FormatChunk_stored wide_format) :: [CData (mkTypedArray 0%nat 0 4)])
      (chunks w').
Proof.
  apply (Wave_round_trip_wraps samples_heap wide_format [CData (mkTypedArray 0%nat 0 4)]).
  - by vm_compute.
  - reflexivity.
  - repeat constructor. exists [x01; x02; x03; x04]. by vm_compute.
  - intros c Hc. vm_compute in Hc. injection Hc as <-. by vm_compute.
  - by vm_compute.
Defined.

(** *** The round trip with lists of labels *)

Lemma chunk_packs h c : canonical h c ∨ labels_list c → packs h (slack c) c.
Proof.
  intros [Hc|Hc]; [by apply flat_packs, canonical_flat|by apply labels_list_packs].
Qed.

Lemma chunk_unpacks h c : canonical h c ∨ labels_list c → unpacks h c.
Proof.
  intros [Hc|Hc]; [by apply canonical_unpacks|by apply labels_list_unpacks].
Qed.

Lemma ahead_canonical h cs :
  (∀ c, last cs = Some c → canonical h c) → ahead cs = 0%nat.
Proof.
  intros Hlast. unfold ahead. destruct (last cs) as [c|]; [|done].
  specialize (Hlast c eq_refl). by destruct c.
Qed.

(** X23. The round trip holds as well of a wave that has, between its
    canonical chunks, list chunks whose body is an [adtl] list of labels,
    each label a cue that fits 32 bits and a text of ASCII characters
    without U+0000: if the last chunk is a canonical one with a body and
    the file has less than 4 GiB, [encode] returns the file, [decode] of
    the file returns a wave, and its chunks are those of the first, in
    their order, the lists of labels equal label for label. *)
Theorem labels_round_trip (h : Heap) (cs : list Chunk) :
  Forall (λ c, canonical h c ∨ labels_list c) cs →
  (∀ c, last cs = Some c → canonical h c) → ends_with_body h cs →
  Z.of_nat (length (file_bytes h cs)) < 4294967296 →
  ∃ file h' w',
    Wave_encode (new_Wave cs) h = (Normal file, h') ∧
    h' !! file = Some (file_bytes h cs) ∧
    Wave_decode file h' = (Normal w', h') ∧
    Forall2 (same_chunk h h') cs (chunks w').
Proof.
  intros Hcs Hlast Hbody Hsmall.
  exists (length h), (h ++ [file_bytes h cs]),
    (new_Wave (decoded_chunks (length h) h 12 cs)).
  split_and!.
  - apply (Wave_encode_writes_chunks h (new_Wave cs)); simpl.
    + eapply Forall_impl; [exact Hcs|]. apply chunk_packs.
    + by eapply ahead_canonical.
  - by apply list_lookup_middle.
  - apply Wave_decode_chunks; [|done|done].
    eapply Forall_impl; [exact Hcs|]. apply chunk_unpacks.
  - simpl. rewrite file_bytes_header.
    rewrite <- (app_nil_r (chunks_bytes h cs)) at 2.
    change 12 with (Z.of_nat (length (header_bytes
      (12 + Z.of_nat (length (chunks_bytes h cs)))))).
    by apply decoded_chunks_same_either.
Qed.

(** A PCM wave with the labels [a] and [bc] of the cues 1 and 2 before its
    samples. *)
Lemma labels_round_trip_witness :
  ∃ file h' w',
    Wave_encode (new_Wave labelled_chunks) samples_heap = (Normal file, h') ∧
    h' !! file = Some (file_bytes samples_heap labelled_chunks) ∧
    Wave_decode file h' = (Normal w', h') ∧
    Forall2 (same_chunk samples_heap h') labelled_chunks (chunks w').
Proof.
  apply (labels_round_trip samples_heap labelled_chunks).
  - apply Forall_cons; split; [left; by vm_compute|].
    apply Forall_cons; split; [right|].
    + cbn [labels_list]. unfold ascii_text.
      repeat (apply Forall_cons; split); try apply Forall_nil;
        cbn [label_ok]; unfold ascii_text, is_u32;
        repeat (apply Forall_cons || apply Forall_nil || split); lia.
    + apply Forall_singleton. left. exists [x01; x02; x03; x04]. by vm_compute.
  - intros c [= <-]. exists [x01; x02; x03; x04]. by vm_compute.
  - intros c [= <-]. by vm_compute.
  - by vm_compute.
Defined.

(** *** Unknown chunks inside a list chunk *)


Lemma bytes_of_uint32 (d : list byte) :
  length d = 4%nat → bytes_of_u32 (uint_of_bytes d) = d.
Proof.
  intros Hd. apply uint_of_bytes_inj; [by rewrite length_bytes_of_u32|].
  apply uint_of_bytes_u32.
  pose proof (uint_of_bytes_range d) as H. rewrite Hd in H.
  by change (256 ^ Z.of_nat 4) with 4294967296 in H.
Qed.

Lemma splice_splice bs off t d :
  (off + length t + length d ≤ length bs)%nat →
  splice (splice bs off t) (off + length t) d = splice bs off (t ++ d).
Proof.
  intros Hlen. unfold splice.
  assert (Ha : length (take off bs ++ t) = (off + length t)%nat).
  { rewrite length_app, length_take. lia. }
  rewrite (app_assoc (take off bs) t).
  rewrite take_app_length' by done.
  rewrite drop_app_ge by lia.
  rewrite drop_drop, Ha, length_app, <- !app_assoc.
  do 4 f_equal. lia.
Qed.

Lemma Uint8Array_bytes_lookup a h h' :
  h' !! ta_buffer a = h !! ta_buffer a →
  (Uint8Array_bytes a h').1 = (Uint8Array_bytes a h).1 ∧ (Uint8Array_bytes a h').2 = h'.
Proof.
  intros Hsame. unfold Uint8Array_bytes, readBytes. rewrite Hsame.
  destruct (h !! ta_buffer a); [|done]. by case_decide.
Qed.

Lemma new_DataView_Some h b bs off n :
  h !! b = Some bs → 0 ≤ off → 0 ≤ n → off + n ≤ Z.of_nat (length bs) →
  new_DataView b off (Some n) h = (Normal (mkDataView b off n), h).
Proof.
  intros Hb ???. unfold new_DataView.
  erewrite bind_Normal by (by apply ArrayBuffer_byteLength_Some).
  by rewrite !decide_False by lia.
Qed.

(** X25. The body of a list chunk under a tag without a class in
    [ListChunk.chunkRegistry]: [ListChunk.unpack] on a view of at least 4
    bytes inside a buffer returns a list chunk whose body is an
    [UnknownChunk] with the tag that the first 4 bytes spell and a view of
    the bytes after them, and leaves the heap as it is. [length()] of the
    list chunk is the length of the view, and [pack] of it into a view at
    least as long, in another buffer, writes the bytes of the first view,
    each as it was, to the start of that view. *)
Theorem ListChunk_unpack_unknown_body
    (h : Heap) (from : DataView) (bs : list byte) (tag : Z)
    (Hbuffer : h !! dv_buffer from = Some bs)
    (Hoffset : 0 ≤ dv_byteOffset from)
    (Hlength : 4 ≤ dv_byteLength from)
    (Hinside : dv_byteOffset from + dv_byteLength from ≤ Z.of_nat (length bs)) :
  let body := take (Z.to_nat (dv_byteLength from)) (drop (Z.to_nat (dv_byteOffset from)) bs) in
  let bodyTag := uint_of_bytes (reverse (take 4 body)) in
  ListChunk_chunkRegistry !! bodyTag = None →
  ∃ data,
    ListChunk_unpack from tag h = (Normal (CList (CUnknown bodyTag data)), h) ∧
    Uint8Array_bytes data h = (Normal (drop 4 body), h) ∧
    chunk_length (CList (CUnknown bodyTag data)) = Normal (Z.of_nat (length body)) ∧
    ∀ (h' : Heap) (into : DataView) (bs' : list byte),
      Uint8Array_bytes data h' = (Normal (drop 4 body), h') →
      h' !! dv_buffer into = Some bs' →
      dv_buffer into ≠ ta_buffer data →
      0 ≤ dv_byteOffset into →
      Z.of_nat (length body) ≤ dv_byteLength into →
      dv_byteOffset into + dv_byteLength into ≤ Z.of_nat (length bs') →
      ∃ h'', chunk_pack (CList (CUnknown bodyTag data)) into h' = (Normal (), h'') ∧
             readBytes (dv_buffer into) (dv_byteOffset into) (Z.of_nat (length body)) h''
               = (Normal body, h'').
Proof.
  intros body bodyTag Hmiss.
  assert (Hbody : Z.of_nat (length body) = dv_byteLength from).
  { unfold body. rewrite length_take, length_drop. lia. }
  set (data := mkTypedArray (dv_buffer from) (dv_byteOffset from + 4) (dv_byteLength from - 4)).
  assert (Htag4 : take 4 (drop (Z.to_nat (dv_byteOffset from + 0)) bs) = take 4 body).
  { unfold body. rewrite Z.add_0_r, take_take. f_equal. lia. }
  assert (Hrest : take (Z.to_nat (dv_byteLength from - 4))
                    (drop (Z.to_nat (dv_byteOffset from + 4)) bs) = drop 4 body).
  { unfold body.
    replace (Z.to_nat (dv_byteLength from)) with (4 + Z.to_nat (dv_byteLength from - 4))%nat
      by lia.
    rewrite <- take_drop_commute, drop_drop. do 2 f_equal. lia. }
  assert (Hsplit : body = take 4 body ++ drop 4 body) by (by rewrite take_drop).
  assert (Hlen4 : length (take 4 body) = 4%nat) by (rewrite length_take; lia).
  exists data. split_and!.
  - unfold ListChunk_unpack.
    erewrite bind_Normal by (apply getUint_Some with (bs := bs); (done || lia)).
    change (Z.to_nat 4) with 4%nat. rewrite Htag4. cbn [endian]. fold bodyTag.
    erewrite bind_Normal by (apply new_DataView_Some with (bs := bs); (done || lia)).
    unfold registry_lookup. rewrite Hmiss. cbn [default unpack UnknownChunk_static].
    unfold UnknownChunk_unpack. cbn [dv_buffer dv_byteOffset dv_byteLength].
    erewrite bind_Normal; [reflexivity|].
    by erewrite bind_Normal by (apply new_Uint8Array_Some with (bs := bs); (done || lia)).
  - unfold Uint8Array_bytes. cbn [data ta_buffer ta_byteOffset ta_length].
    rewrite <- Hrest. apply readBytes_Some; (done || lia).
  - cbn [chunk_length cbind]. unfold UnknownChunk_length. cbn [data ta_length].
    f_equal. lia.
  - intros h' into bs' Hdata Hinto Hother ? ? ?.
    set (t := reverse (bytes_of_u32 bodyTag)).
    assert (Ht : t = take 4 body).
    { unfold t, bodyTag. rewrite bytes_of_uint32 by (by rewrite length_reverse).
      apply reverse_involutive. }
    set (off := Z.to_nat (dv_byteOffset into)).
    set (h1 := <[dv_buffer into := splice bs' off t]> h').
    assert (Hh1 : h1 !! dv_buffer into = Some (splice bs' off t)).
    { apply list_lookup_insert_eq. by eapply lookup_lt_Some. }
    assert (Hlen1 : length (splice bs' off t) = length bs').
    { apply length_splice. rewrite Ht, Hlen4. lia. }
    assert (Hdata1 : Uint8Array_bytes data h1 = (Normal (drop 4 body), h1)).
    { destruct (Uint8Array_bytes_lookup data h' h1) as [Hfst Hsnd].
      - unfold h1. by rewrite list_lookup_insert_ne.
      - rewrite Hdata in Hfst. simpl in Hfst.
        destruct (Uint8Array_bytes data h1) as [r hr]. simpl in *. by subst. }
    exists (<[dv_buffer into := splice bs' off body]> h').
    split.
    + cbn [chunk_pack chunk_tag].
      erewrite bind_Normal.
      2:{ unfold setUint32, setUint. rewrite decide_False by lia. cbn [endian].
          rewrite Z.add_0_r. apply writeBytes_Some with (bs := bs'); [done|lia|].
          fold t. rewrite Ht, Hlen4. lia. }
      fold t off h1.
      erewrite bind_Normal
        by (apply new_DataView_Some with (bs := splice bs' off t); (done || lia)).
      unfold UnknownChunk_pack. cbn [dv_buffer dv_byteOffset dv_byteLength].
      erewrite bind_Normal
        by (apply new_Uint8Array_Some with (bs := splice bs' off t); (done || lia)).
      unfold Uint8Array_set. cbn [ta_length ta_buffer ta_byteOffset data].
      rewrite decide_False by lia.
      erewrite bind_Normal by exact Hdata1.
      erewrite writeBytes_Some; [|exact Hh1|lia|].
      * unfold h1. rewrite list_insert_insert_eq. do 2 f_equal.
        replace (Z.to_nat (dv_byteOffset into + 4 + 0)) with (off + length t)%nat
          by (rewrite Ht, Hlen4; unfold off; lia).
        rewrite splice_splice.
        -- by rewrite Ht, <- Hsplit.
        -- rewrite Ht, Hlen4, length_drop. unfold off. lia.
      * rewrite length_drop, Hlen1. lia.
    + apply readBytes_after_write; [done|lia..].
Qed.

Lemma take_drop_middle (pre d post : list byte) n :
  n = length d → take n (drop (length pre) (pre ++ d ++ post)) = d.
Proof. intros ->. rewrite drop_app_length. by apply take_app_length'. Qed.

Lemma getUint32_middle h (v : DataView) bs pre d post idx le :
  h !! dv_buffer v = Some bs → bs = pre ++ d ++ post → length d = 4%nat →
  dv_byteOffset v + idx = Z.of_nat (length pre) →
  0 ≤ dv_byteOffset v → 0 ≤ idx → idx + 4 ≤ dv_byteLength v →
  dv_byteOffset v + dv_byteLength v ≤ Z.of_nat (length bs) →
  getUint32 v idx le h = (Normal (uint_of_bytes (endian le d)), h).
Proof.
  intros Hb -> Hd Hoff ????. unfold getUint32.
  erewrite getUint_Some with (bs := pre ++ d ++ post); [|done|lia..].
  do 4 f_equal. rewrite Hoff, Nat2Z.id. by apply take_drop_middle.
Qed.

Lemma length_unknown_item_bytes item :
  Z.of_nat (length (unknown_item_bytes item))
  = roundUpToEven (8 + Z.of_nat (length item.2)).
Proof.
  unfold unknown_item_bytes. rewrite <- length_pad_bytes.
  rewrite !length_app, length_reverse, !length_bytes_of_u32. lia.
Qed.

(** The loop of [ListChunk_ADTL.unpack] over the bytes of items without a
    class. *)
Lemma ADTL_unpack_loop_unknown h (from : DataView) bs fuel items : ∀ pre acc post,
  h !! dv_buffer from = Some bs →
  Forall unknown_item items →
  bs = pre ++ concat (unknown_item_bytes <$> items) ++ post →
  0 ≤ dv_byteOffset from →
  dv_byteOffset from ≤ Z.of_nat (length pre) →
  (Z.of_nat (length pre) - dv_byteOffset from) `mod` 2 = 0 →
  Z.of_nat (length pre) - dv_byteOffset from
    + Z.of_nat (length (concat (unknown_item_bytes <$> items))) = dv_byteLength from →
  dv_byteLength from < 4294967296 →
  dv_byteLength from ≤ Z.of_nat fuel →
  ∃ chunks,
    ListChunk_ADTL_unpack_loop fuel from (Z.of_nat (length pre) - dv_byteOffset from) acc h
    = (Normal (acc ++ chunks), h) ∧
    Forall2 (holds_item h) items chunks.
Proof.
  induction items as [|[tg body] items IH];
    intros pre acc post Hb Hitems Hbs Hoff Hpre Heven Hend Hsmall Hfuel;
    rewrite ListChunk_ADTL_unpack_loop_unfold by lia.
  { simpl in Hend. rewrite decide_False by lia. exists []. by rewrite app_nil_r. }
  apply Forall_cons in Hitems as [[Htag Hmiss] Hitems]. cbn [fst snd] in Htag, Hmiss.
  pose proof (length_unknown_item_bytes (tg, body)) as Hitem. cbn [snd] in Hitem.
  pose proof (length_pad_bytes (Z.of_nat (length body))) as Hpad.
  rewrite fmap_cons in Hbs, Hend. cbn [concat] in Hbs, Hend. rewrite length_app in Hend.
  set (len := Z.of_nat (length body)) in *.
  set (rest := concat (unknown_item_bytes <$> items)) in *.
  set (idx := Z.of_nat (length pre) - dv_byteOffset from) in *.
  assert (Hround : 8 + len ≤ roundUpToEven (8 + len)).
  { unfold roundUpToEven. case_decide; lia. }
  assert (Hlenbs : Z.of_nat (length bs)
                   = Z.of_nat (length pre) + Z.of_nat (length (unknown_item_bytes (tg, body)))
                     + Z.of_nat (length rest) + Z.of_nat (length post)).
  { rewrite Hbs, !length_app. lia. }
  assert (is_u32 len) by (unfold is_u32; lia).
  rewrite decide_True by lia.
  unfold unknown_item_bytes in Hbs. cbn [fst snd] in Hbs. fold len in Hbs.
  rewrite <- !app_assoc in Hbs.
  erewrite bind_Normal.
  2:{ apply (getUint32_middle h from bs pre (reverse (bytes_of_u32 tg))
               (bytes_of_u32 len ++ body ++ pad_bytes len ++ rest ++ post));
        try (done || lia). }
  rewrite uint_of_tag_bytes by done.
  erewrite bind_Normal.
  2:{ apply (getUint32_middle h from bs (pre ++ reverse (bytes_of_u32 tg))
               (bytes_of_u32 len) (body ++ pad_bytes len ++ rest ++ post));
        rewrite ?length_app, ?length_reverse; simpl length; try (done || lia).
      rewrite Hbs. by rewrite <- !app_assoc. }
  cbn [endian]. rewrite uint_of_bytes_u32 by done.
  erewrite bind_Normal by (apply new_DataView_Some with (bs := bs); (done || lia)).
  unfold registry_lookup. rewrite Hmiss. cbn [default unpack UnknownChunk_static].
  unfold UnknownChunk_unpack. cbn [dv_buffer dv_byteOffset dv_byteLength].
  erewrite bind_Normal.
  2:{ erewrite bind_Normal by (apply new_Uint8Array_Some with (bs := bs); (done || lia)).
      reflexivity. }
  set (data := mkTypedArray (dv_buffer from) (dv_byteOffset from + (idx + 8)) len).
  set (pre' := pre ++ unknown_item_bytes (tg, body)).
  assert (Hnext : (if decide (Z.land (idx + 8 + len) 1 ≠ 0)
                   then idx + 8 + len + 1 else idx + 8 + len)
                  = Z.of_nat (length pre') - dv_byteOffset from).
  { unfold pre'. rewrite length_app, Nat2Z.inj_add, Hitem.
    unfold roundUpToEven. rewrite !land_1_mod.
    repeat case_decide; try lia; Z.div_mod_to_equations; lia. }
  rewrite Hnext.
  destruct (IH pre' (acc ++ [CUnknown tg data]) post) as (chunks & Hloop & Hchunks);
    try done.
  - rewrite Hbs. unfold pre', unknown_item_bytes. cbn [fst snd]. fold len.
    by rewrite <- !app_assoc.
  - unfold pre'. rewrite length_app. lia.
  - unfold pre'. rewrite length_app, Nat2Z.inj_add, Hitem.
    pose proof (roundUpToEven_even (8 + len)). Z.div_mod_to_equations. lia.
  - unfold pre'. rewrite length_app. lia.
  - exists (CUnknown tg data :: chunks). split.
    + rewrite Hloop. by rewrite <- app_assoc.
    + constructor; [|done]. exists data. split; [done|].
      exists bs. cbn [data ta_buffer ta_byteOffset ta_length snd].
      split_and!; try (done || lia).
      replace (Z.to_nat (dv_byteOffset from + (idx + 8)))
        with (length (pre ++ reverse (bytes_of_u32 tg) ++ bytes_of_u32 len))
        by (rewrite !length_app, length_reverse, !length_bytes_of_u32; unfold idx; lia).
      rewrite Hbs.
      replace (pre ++ reverse (bytes_of_u32 tg) ++ bytes_of_u32 len ++ body ++
               pad_bytes len ++ rest ++ post)
        with ((pre ++ reverse (bytes_of_u32 tg) ++ bytes_of_u32 len) ++ body ++
              pad_bytes len ++ rest ++ post)
        by (by rewrite <- !app_assoc).
      symmetry. apply take_drop_middle. unfold len. lia.
Qed.

(** X26. The items of an [adtl] list under tags without a class in
    [ListChunk_ADTL.chunkRegistry]: on a view inside a buffer whose bytes
    are such items, one after the other, each with its tag, the length of
    its body, the body and a pad after a body of odd length,
    [ListChunk_ADTL.unpack] returns a list with one [UnknownChunk] for
    every item, in their order, each with the tag of its item and a view
    of the bytes of its body, and leaves the heap as it is. *)
Theorem ListChunk_ADTL_unpack_unknown_items
    (h : Heap) (from : DataView) (bs : list byte) (tag : Z) (items : list (Z * list byte))
    (Hbuffer : h !! dv_buffer from = Some bs)
    (Hoffset : 0 ≤ dv_byteOffset from)
    (Hlength : 0 ≤ dv_byteLength from < 4294967296)
    (Hinside : dv_byteOffset from + dv_byteLength from ≤ Z.of_nat (length bs))
    (Hbytes : take (Z.to_nat (dv_byteLength from)) (drop (Z.to_nat (dv_byteOffset from)) bs)
              = concat (unknown_item_bytes <$> items))
    (Hitems : Forall unknown_item items) :
  ∃ chunks,
    ListChunk_ADTL_unpack from tag h = (Normal (CAdtl chunks), h) ∧
    Forall2 (holds_item h) items chunks.
Proof.
  set (pre := take (Z.to_nat (dv_byteOffset from)) bs).
  set (post := drop (Z.to_nat (dv_byteLength from)) (drop (Z.to_nat (dv_byteOffset from)) bs)).
  assert (Hbs : bs = pre ++ concat (unknown_item_bytes <$> items) ++ post).
  { unfold pre, post. by rewrite <- Hbytes, !take_drop. }
  assert (Hpre : Z.of_nat (length pre) = dv_byteOffset from).
  { unfold pre. rewrite length_take. lia. }
  assert (Hlen : Z.of_nat (length (concat (unknown_item_bytes <$> items)))
                 = dv_byteLength from).
  { rewrite <- Hbytes, length_take, length_drop. lia. }
  destruct (ADTL_unpack_loop_unknown h from bs (Z.to_nat (dv_byteLength from)) items
              pre [] post) as (chunks & Hloop & Hchunks); try (done || lia).
  - rewrite Hpre. by replace (dv_byteOffset from - dv_byteOffset from) with 0 by lia.
  - exists chunks. split; [|done]. unfold ListChunk_ADTL_unpack.
    replace (Z.of_nat (length pre) - dv_byteOffset from) with 0 in Hloop by lia.
    by erewrite bind_Normal by exact Hloop.
Qed.

(** The two items under [note] come back as two unknown chunks. *)
Lemma ListChunk_ADTL_unpack_unknown_items_witness :
  ∃ chunks,
    ListChunk_ADTL_unpack (mkDataView 0%nat 0 18) ChunkTagsBE.adtl note_items_heap
      = (Normal (CAdtl chunks), note_items_heap) ∧
    Forall2 (holds_item note_items_heap) note_items chunks.
Proof.
  apply (ListChunk_ADTL_unpack_unknown_items note_items_heap (mkDataView 0%nat 0 18)
           (concat (unknown_item_bytes <$> note_items)) ChunkTagsBE.adtl note_items).
  - reflexivity.
  - simpl; lia.
  - simpl; lia.
  - simpl; lia.
  - reflexivity.
  - repeat (apply Forall_cons_2); [..|apply Forall_nil_2];
      (split; [unfold is_u32, note_tag; simpl; lia|by vm_compute]).
Defined.

(** The list chunk of [junk_list_view] comes back with an [UnknownChunk]
    tagged [JUNK] as its body, and [pack] writes its 9 bytes again. *)
Lemma ListChunk_unpack_unknown_body_witness :
  ∃ data h'',
    ListChunk_unpack junk_list_view ChunkTagsBE.LIST junk_list_heap
      = (Normal (CList (CUnknown junk_tag data)), junk_list_heap) ∧
    chunk_pack (CList (CUnknown junk_tag data)) (mkDataView 1%nat 0 10) junk_list_heap
      = (Normal (), h'') ∧
    readBytes 1%nat 0 9 h''
      = (Normal ["J"; "U"; "N"; "K"; x01; x02; x03; x04; x05]%byte, h'').
Proof.
  pose proof (ListChunk_unpack_unknown_body junk_list_heap junk_list_view junk_list_file
                ChunkTagsBE.LIST eq_refl ltac:(simpl; lia) ltac:(simpl; lia)
                ltac:(simpl; lia)) as H.
  cbv zeta in H.
  destruct H as (data & Hunpack & Hbytes & _ & Hpack); [by vm_compute|].
  destruct (Hpack junk_list_heap (mkDataView 1%nat 0 10) (replicate 10 xff) Hbytes eq_refl)
    as (h'' & Hpacked & Hread); [| simpl; lia | simpl; lia | simpl; lia |].
  - apply (f_equal fst) in Hunpack. vm_compute in Hunpack. injection Hunpack as <-. done.
  - by exists data, h''.
Defined.
